(** * Feature voting backend: vote integrity and ranking

    A shallow embedding of the backend of the feature-voting service
    ([backend/models/database.py], [backend/models/feature.py],
    [backend/models/vote.py], [backend/routes/features.py],
    [backend/routes/votes.py], [backend/utils/helpers.py]) and the
    properties of its vote ledger and ranking query.

    Modelling conventions.
    - The SQLite file is a record [db] of two tables, each a list of rows in
      rowid order, together with the two AUTOINCREMENT counters kept by the
      engine.  Every model method opens its own connection and commits
      before it returns, so a method is a function from [db] to [db] and a
      result.
    - A statement raises when a parameter cannot be bound (an integer
      outside the 64-bit range, a string that is not encodable as UTF-8 or
      is longer than the engine accepts) or
      when it violates a constraint declared in [init_db] (NOT NULL,
      UNIQUE).  A method with a [try] maps that outcome to the result its
      [except] branch returns; a method without one lets it reach the
      handler, whose [except] branch answers 500.  Foreign keys are
      declared in the schema, but no connection turns their enforcement on,
      so they constrain nothing here.  An INSERT always finds a rowid: the
      engine's SQLITE_FULL, raised once a counter has reached 2^63 - 1, is
      not modelled.
    - Python [str] values are lists of code points; integers are [Z];
      lengths and counts are [nat].  [CURRENT_TIMESTAMP] and [uuid.uuid4()]
      are read from the environment: each operation that consults them
      takes the value as an argument ([now], [fresh]). *)

From Stdlib Require Import String Ascii.
From Stdlib Require Import ZArith NArith List Bool Lia.
From Stdlib Require Import Permutation Sorted.
Import ListNotations.
Open Scope Z_scope.

Set Implicit Arguments.

(* ================================================================== *)
(** ** Python strings *)

(** A Python [str]: a sequence of Unicode code points. *)
Definition str := list N.

Definition lit (s : string) : str :=
  map N_of_ascii (list_ascii_of_string s).

Fixpoint str_eqb (a b : str) : bool :=
  match a, b with
  | [], [] => true
  | x :: a', y :: b' => (x =? y)%N && str_eqb a' b'
  | _, _ => false
  end.

(** The code points [str.strip()] removes when called without argument
    (those for which [str.isspace] holds). *)
Definition is_space (c : N) : bool :=
  (((9 <=? c) && (c <=? 13)) || ((28 <=? c) && (c <=? 32))
   || (c =? 133) || (c =? 160) || (c =? 5760)
   || ((8192 <=? c) && (c <=? 8202))
   || (c =? 8232) || (c =? 8233) || (c =? 8239) || (c =? 8287)
   || (c =? 12288))%N.

Fixpoint lstrip (s : str) : str :=
  match s with
  | [] => []
  | c :: s' => if is_space c then lstrip s' else s
  end.

Definition rstrip (s : str) : str := rev (lstrip (rev s)).

Definition strip (s : str) : str := rstrip (lstrip s).

(** Truth value of a string: [not s] holds exactly for the empty string. *)
Definition truthy (s : str) : bool :=
  match s with [] => false | _ => true end.

(** Truth value of [d.get(key)] for a string-valued key. *)
Definition truthy_opt (o : option str) : bool :=
  match o with Some s => truthy s | None => false end.

(** Python list slicing [l[start:stop]] for arbitrary integer bounds. *)
Definition slice_index (len i : Z) : Z :=
  if i <? 0 then Z.max 0 (len + i) else Z.min i len.

Definition py_slice {A} (l : list A) (start stop : Z) : list A :=
  let len := Z.of_nat (length l) in
  let a := slice_index len start in
  let b := slice_index len stop in
  firstn (Z.to_nat (b - a)) (skipn (Z.to_nat a) l).

(* ================================================================== *)
(** ** Values a statement can bind *)

(** An integer parameter is bound as a 64-bit signed integer; [execute]
    raises [OverflowError] for any other. *)
Definition int_ok (z : Z) : bool :=
  (-9223372036854775808 <=? z) && (z <? 9223372036854775808).

(** A code point that UTF-8 encodes: not a surrogate. *)
Definition code_point_ok (c : N) : bool :=
  ((c <? 55296) || ((57343 <? c) && (c <=? 1114111)))%N.

(** The number of bytes of the UTF-8 encoding. *)
Definition utf8_size (c : N) : N :=
  (if c <? 128 then 1 else if c <? 2048 then 2
   else if c <? 65536 then 3 else 4)%N.

Definition utf8_length (s : str) : N :=
  fold_right (fun c n => (utf8_size c + n)%N) 0%N s.

(** A string parameter is bound as UTF-8 text; [execute] raises
    [UnicodeEncodeError] for a string that holds a surrogate, and
    [DataError] for one whose encoding is longer than the engine's limit
    of 1000000000 bytes. *)
Definition text_ok (s : str) : bool :=
  forallb code_point_ok s && (utf8_length s <=? 1000000000)%N.

(** [None] is bound as NULL. *)
Definition opt_text_ok (o : option str) : bool :=
  match o with Some s => text_ok s | None => true end.

(* ================================================================== *)
(** ** The persisted state ([models/database.py], [init_db]) *)

(** A row of [features(id, title, description, created_at, updated_at)]. *)
Record feature_row := mk_feature_row {
  f_id : Z;
  f_title : str;
  f_description : option str;
  f_created_at : Z;
  f_updated_at : Z
}.

(** A row of [votes(id, feature_id, user_id, created_at)]. *)
Record vote_row := mk_vote_row {
  v_id : Z;
  v_feature_id : Z;
  v_user_id : str;
  v_created_at : Z
}.

Record db := mk_db {
  features : list feature_row;
  votes : list vote_row;
  features_seq : Z;
  votes_seq : Z
}.

(** The state [init_db] creates on a new file: two empty tables. *)
Definition empty_db : db := mk_db [] [] 0 0.

(** The rowid an [INTEGER PRIMARY KEY AUTOINCREMENT] column receives: one
    more than the largest rowid the table ever held. *)
Definition next_rowid (seq : Z) (ids : list Z) : Z :=
  Z.max seq (fold_right Z.max 0 ids) + 1.

(** The [WHERE] clauses of the statements. *)
Definition feature_has_id (fid : Z) (f : feature_row) : bool :=
  f_id f =? fid.

Definition vote_of_feature (fid : Z) (v : vote_row) : bool :=
  v_feature_id v =? fid.

Definition vote_of_user (uid : str) (v : vote_row) : bool :=
  str_eqb (v_user_id v) uid.

Definition vote_matches (fid : Z) (uid : str) (v : vote_row) : bool :=
  vote_of_feature fid v && vote_of_user uid v.

(** What a statement does: it completes, or raises. *)
Inductive outcome (A : Type) :=
| Done (a : A)
| Raise.
Arguments Done {A} a.
Arguments Raise {A}.

Module Sql.

(** The row [SELECT ... FROM features WHERE id = ?] and [fetchone()] give
    once the id is bound. *)
Definition select_feature (d : db) (fid : Z) : option feature_row :=
  find (feature_has_id fid) (features d).

(** The row [SELECT id FROM votes WHERE feature_id = ? AND user_id = ?]
    and [fetchone()] give once the two parameters are bound. *)
Definition select_vote (d : db) (fid : Z) (uid : str) : option vote_row :=
  find (vote_matches fid uid) (votes d).

(** [INSERT INTO features (title, description) VALUES (?, ?)]: both
    parameters are bound, and the title column is NOT NULL.  Returns the
    new state and [lastrowid]. *)
Definition insert_feature (d : db) (now : Z) (title description : option str)
  : outcome (db * Z) :=
  if negb (opt_text_ok title && opt_text_ok description) then Raise
  else
    match title with
    | None => Raise
    | Some t =>
        let id := next_rowid (features_seq d) (map f_id (features d)) in
        Done (mk_db (features d ++ [mk_feature_row id t description now now])
                    (votes d) id (votes_seq d), id)
    end.

(** [UPDATE features SET title = ?, description = ?,
    updated_at = CURRENT_TIMESTAMP WHERE id = ?]: the three parameters are
    bound; a NULL title violates NOT NULL when a row has the id. *)
Definition update_feature (d : db) (now : Z) (fid : Z)
    (title description : option str) : outcome db :=
  if negb (opt_text_ok title && opt_text_ok description && int_ok fid)
  then Raise
  else
    match title with
    | None =>
        if existsb (feature_has_id fid) (features d) then Raise else Done d
    | Some t =>
        Done (mk_db
                (map (fun f =>
                        if feature_has_id fid f
                        then mk_feature_row (f_id f) t description
                                            (f_created_at f) now
                        else f)
                     (features d))
                (votes d) (features_seq d) (votes_seq d))
    end.

(** [INSERT INTO votes (feature_id, user_id) VALUES (?, ?)]: both
    parameters are bound, and the row must satisfy
    [UNIQUE(feature_id, user_id)]. *)
Definition insert_vote (d : db) (now : Z) (fid : Z) (uid : str)
  : outcome db :=
  if negb (int_ok fid && text_ok uid) then Raise
  else if existsb (vote_matches fid uid) (votes d) then Raise
  else
    let id := next_rowid (votes_seq d) (map v_id (votes d)) in
    Done (mk_db (features d) (votes d ++ [mk_vote_row id fid uid now])
                (features_seq d) id).

(** The state and the [rowcount] that
    [DELETE FROM votes WHERE feature_id = ? AND user_id = ?] leaves once
    its parameters are bound. *)
Definition delete_vote (d : db) (fid : Z) (uid : str) : db * nat :=
  (mk_db (features d)
         (filter (fun v => negb (vote_matches fid uid v)) (votes d))
         (features_seq d) (votes_seq d),
   length (filter (vote_matches fid uid) (votes d))).

(** [DELETE FROM votes WHERE feature_id = ?], its parameter bound. *)
Definition delete_votes_of_feature (d : db) (fid : Z) : db * nat :=
  (mk_db (features d)
         (filter (fun v => negb (vote_of_feature fid v)) (votes d))
         (features_seq d) (votes_seq d),
   length (filter (vote_of_feature fid) (votes d))).

(** [DELETE FROM features WHERE id = ?], its parameter bound. *)
Definition delete_feature_row (d : db) (fid : Z) : db * nat :=
  (mk_db (filter (fun f => negb (feature_has_id fid f)) (features d))
         (votes d) (features_seq d) (votes_seq d),
   length (filter (feature_has_id fid) (features d))).

End Sql.

(* ================================================================== *)
(** ** Sorting rows: [ORDER BY] *)

Section OrderBy.
Variable A : Type.
Variable le : A -> A -> bool.

Fixpoint insert_by (x : A) (l : list A) : list A :=
  match l with
  | [] => [x]
  | y :: l' => if le x y then x :: l else y :: insert_by x l'
  end.

(** Rows that compare equal on every sort key keep the order in which the
    scan produced them. *)
Definition order_by (l : list A) : list A :=
  fold_right insert_by [] l.

End OrderBy.

(* ================================================================== *)
(** ** [models/feature.py] *)

(** A [Feature] object; every attribute defaults to [None]. *)
Record feature_obj := mk_feature_obj {
  o_id : option Z;
  o_title : option str;
  o_description : option str;
  o_created_at : option Z;
  o_updated_at : option Z
}.

(** A row of the ranking query: the feature columns and [vote_count]. *)
Record ranked := mk_ranked {
  rk_feature : feature_row;
  rk_vote_count : nat
}.

(** [ORDER BY vote_count DESC, f.created_at DESC]: [rank_leb r1 r2] holds
    when [r1] may precede [r2]. *)
Definition rank_leb (r1 r2 : ranked) : bool :=
  (rk_vote_count r2 <? rk_vote_count r1)%nat
  || ((rk_vote_count r1 =? rk_vote_count r2)%nat
      && (f_created_at (rk_feature r2) <=? f_created_at (rk_feature r1))).

(** The ranking order in words: more votes first; among equal vote counts,
    the later creation time first. *)
Definition ranks_before (r1 r2 : ranked) : Prop :=
  (rk_vote_count r2 < rk_vote_count r1)%nat
  \/ (rk_vote_count r1 = rk_vote_count r2
      /\ f_created_at (rk_feature r2) <= f_created_at (rk_feature r1)).

Module Feature.

Definition with_id (self : feature_obj) (id : Z) : feature_obj :=
  mk_feature_obj (Some id) (o_title self) (o_description self)
                 (o_created_at self) (o_updated_at self).

(** [Feature.save]: the new state, the object after the call and the
    returned boolean. *)
Definition save (d : db) (now : Z) (self : feature_obj)
  : db * feature_obj * bool :=
  match o_id self with
  | None =>
      match Sql.insert_feature d now (o_title self) (o_description self) with
      | Done (d', id) => (d', with_id self id, true)
      | Raise => (d, self, false)
      end
  | Some id =>
      match Sql.update_feature d now id (o_title self) (o_description self) with
      | Done d' => (d', self, true)
      | Raise => (d, self, false)
      end
  end.

(** The [LEFT JOIN ... GROUP BY f.id] part of the ranking query: one row
    per feature with [COUNT(v.id)]. *)
Definition with_votes (d : db) : list ranked :=
  map (fun f =>
         mk_ranked f (length (filter (vote_of_feature (f_id f)) (votes d))))
      (features d).

Definition get_all_with_votes (d : db) : list ranked :=
  order_by rank_leb (with_votes d).

(** [Feature.get_by_id] has no [try]: the exception of an id that cannot
    be bound reaches the caller. *)
Definition get_by_id (d : db) (feature_id : Z)
  : outcome (option feature_obj) :=
  if negb (int_ok feature_id) then Raise
  else
    match Sql.select_feature d feature_id with
    | Some f =>
        Done (Some (mk_feature_obj (Some (f_id f)) (Some (f_title f))
                                   (f_description f)
                                   (Some (f_created_at f))
                                   (Some (f_updated_at f))))
    | None => Done None
    end.

(** [Feature.delete]: both statements run in one transaction; the result
    is [cursor.rowcount > 0] of the second one.  For an id that cannot be
    bound the first DELETE raises and the [except] branch returns [False]
    with nothing deleted, which is what the two DELETEs give here, no
    stored row having such an id. *)
Definition delete (d : db) (feature_id : Z) : db * bool :=
  let (d1, _) := Sql.delete_votes_of_feature d feature_id in
  let (d2, rowcount) := Sql.delete_feature_row d1 feature_id in
  (d2, (0 <? rowcount)%nat).

End Feature.

(* ================================================================== *)
(** ** [models/vote.py] *)

(** The result dictionary of [add_vote] and [remove_vote]. *)
Record vote_result := mk_vote_result {
  res_success : bool;
  res_message : string;
  res_user_id : option str
}.

Definition msg_feature_not_found : string := "Feature not found".
Definition msg_already_voted : string :=
  "User has already voted for this feature".
Definition msg_vote_added : string := "Vote added successfully".
Definition msg_error_adding_vote : string := "Error adding vote".
Definition msg_vote_removed : string := "Vote removed successfully".
Definition msg_error_removing_vote : string := "Error removing vote".
Definition msg_vote_not_found : string := "Vote not found".

Module Vote.

(** [add_vote]: each of the three statements binds its parameters, the
    first the feature id, the other two the feature id and the user id;
    any exception is answered by the [except] branch. *)
Definition add_vote (d : db) (now : Z) (fresh : str)
    (feature_id : Z) (user_id : option str) : db * vote_result :=
  let user_id := match user_id with None => fresh | Some u => u end in
  let error := (d, mk_vote_result false msg_error_adding_vote None) in
  if negb (int_ok feature_id) then error
  else
    match Sql.select_feature d feature_id with
    | None => (d, mk_vote_result false msg_feature_not_found None)
    | Some _ =>
        if negb (int_ok feature_id && text_ok user_id) then error
        else
          match Sql.select_vote d feature_id user_id with
          | Some _ => (d, mk_vote_result false msg_already_voted None)
          | None =>
              match Sql.insert_vote d now feature_id user_id with
              | Done d' =>
                  (d', mk_vote_result true msg_vote_added (Some user_id))
              | Raise => error
              end
          end
    end.

(** [remove_vote]: the DELETE binds both parameters; an exception is
    answered by the [except] branch. *)
Definition remove_vote (d : db) (feature_id : Z) (user_id : str)
  : db * vote_result :=
  if negb (int_ok feature_id && text_ok user_id)
  then (d, mk_vote_result false msg_error_removing_vote None)
  else
    let (d', rowcount) := Sql.delete_vote d feature_id user_id in
    if (0 <? rowcount)%nat
    then (d', mk_vote_result true msg_vote_removed None)
    else (d', mk_vote_result false msg_vote_not_found None).

(** [has_voted] has no [try]. *)
Definition has_voted (d : db) (feature_id : Z) (user_id : str)
  : outcome bool :=
  if negb (int_ok feature_id && text_ok user_id) then Raise
  else
    match Sql.select_vote d feature_id user_id with
    | Some _ => Done true
    | None => Done false
    end.

(** The three queries below return what their SELECT gives once its
    parameter is bound.  The handlers call [get_vote_count] and
    [get_votes_by_feature] only for an id that an earlier statement of the
    request has bound, and [get_user_votes] for a user id taken from the
    URL, which is decoded text. *)
Definition get_user_votes (d : db) (user_id : str) : list Z :=
  map v_feature_id (filter (vote_of_user user_id) (votes d)).

Definition get_vote_count (d : db) (feature_id : Z) : nat :=
  length (filter (vote_of_feature feature_id) (votes d)).

Definition get_votes_by_feature (d : db) (feature_id : Z) : list vote_row :=
  filter (vote_of_feature feature_id) (votes d).

End Vote.

(* ================================================================== *)
(** ** The request handlers ([routes/features.py], [routes/votes.py]) *)

(** The JSON body of [POST /api/features]; a field that is present holds
    a string. *)
Record feature_payload := mk_feature_payload {
  p_title : option str;
  p_description : option str
}.

(** The JSON body of the two vote requests. *)
Record vote_payload := mk_vote_payload {
  p_user_id : option str
}.

(** The JSON documents the handlers answer with. *)
Inductive body :=
| Error (e : string)
| Message (m : string)
| FeatureJson (id : option Z) (title description : option str)
              (created_at updated_at : option Z) (vote_count : nat)
| FeatureList (rows : list ranked) (total_count returned_count : nat)
| VoteJson (m : string) (uid : option str) (vote_count : nat)
| VoteCountJson (m : string) (vote_count : nat)
| UserVotes (uid : str) (voted_features : list Z) (vote_count : nat)
| FeatureVotes (feature_id : Z) (rows : list vote_row) (vote_count : nat).

(** A response: the document and the HTTP status code. *)
Definition response := (body * Z)%type.

Definition msg_no_data : string := "No data provided".
Definition msg_title_required : string := "Title is required".
Definition msg_title_empty : string := "Title cannot be empty".
Definition msg_title_too_long : string :=
  "Title too long (max 200 characters)".
Definition msg_description_too_long : string :=
  "Description too long (max 1000 characters)".
Definition msg_create_failed : string := "Failed to create feature".
Definition msg_feature_deleted : string := "Feature deleted successfully".
Definition msg_delete_failed : string := "Failed to delete feature".
Definition msg_user_id_required : string := "User ID is required".
Definition msg_internal_error : string := "Internal server error".

(** [d.get(key, '')]. *)
Definition get_or_empty (o : option str) : str :=
  match o with Some s => s | None => [] end.

(** Truth value of a JSON object: false for [None] and for [{}]. *)
Definition feature_payload_truthy (data : option feature_payload) : bool :=
  match data with
  | None => false
  | Some p =>
      match p_title p, p_description p with
      | None, None => false
      | _, _ => true
      end
  end.

(** Truth value of an optional integer query parameter. *)
Definition truthy_int (o : option Z) : bool :=
  match o with Some z => negb (z =? 0) | None => false end.

Module Routes.

(** Every handler runs in a [try] whose [except Exception] branch answers
    500 "Internal server error"; it is taken when a model method without a
    [try] of its own raises. *)

(** [POST /api/features]. *)
Definition create_feature (d : db) (now : Z) (data : option feature_payload)
  : db * response :=
  if negb (feature_payload_truthy data) then (d, (Error msg_no_data, 400))
  else
    let title := match data with Some p => p_title p | None => None end in
    let description :=
      match data with Some p => p_description p | None => None end in
    if negb (truthy_opt title) then (d, (Error msg_title_required, 400))
    else if negb (truthy (strip (get_or_empty title)))
    then (d, (Error msg_title_empty, 400))
    else if (200 <? length (get_or_empty title))%nat
    then (d, (Error msg_title_too_long, 400))
    else if (1000 <? length (get_or_empty description))%nat
    then (d, (Error msg_description_too_long, 400))
    else
      let feature :=
        mk_feature_obj None (Some (strip (get_or_empty title)))
                       (Some (strip (get_or_empty description))) None None in
      match Feature.save d now feature with
      | (d', feature', true) =>
          (d', (FeatureJson (o_id feature') (o_title feature')
                            (o_description feature') (o_created_at feature')
                            (o_updated_at feature') 0, 201))
      | (d', _, false) => (d', (Error msg_create_failed, 500))
      end.

(** [GET /api/features]; [offset] defaults to 0. *)
Definition get_features (d : db) (limit offset : option Z) : db * response :=
  let offset := match offset with Some o => o | None => 0 end in
  let features := Feature.get_all_with_votes d in
  let features :=
    if truthy_int limit
    then py_slice features offset
                  (offset + match limit with Some l => l | None => 0 end)
    else features in
  (d, (FeatureList features (length (Feature.get_all_with_votes d))
                   (length features), 200)).

(** [GET /api/features/<id>]. *)
Definition get_feature (d : db) (feature_id : Z) : db * response :=
  match Feature.get_by_id d feature_id with
  | Raise => (d, (Error msg_internal_error, 500))
  | Done None => (d, (Error msg_feature_not_found, 404))
  | Done (Some feature) =>
      let vote_count := Vote.get_vote_count d feature_id in
      (d, (FeatureJson (o_id feature) (o_title feature)
                       (o_description feature) (o_created_at feature)
                       (o_updated_at feature) vote_count, 200))
  end.

(** [DELETE /api/features/<id>]. *)
Definition delete_feature (d : db) (feature_id : Z) : db * response :=
  match Feature.get_by_id d feature_id with
  | Raise => (d, (Error msg_internal_error, 500))
  | Done None => (d, (Error msg_feature_not_found, 404))
  | Done (Some _) =>
      match Feature.delete d feature_id with
      | (d', true) => (d', (Message msg_feature_deleted, 200))
      | (d', false) => (d', (Error msg_delete_failed, 500))
      end
  end.

(** The status code [vote_for_feature] picks for a failed [add_vote]. *)
Definition vote_status_code (message : string) : Z :=
  if String.eqb message msg_feature_not_found then 404
  else if String.eqb message msg_already_voted then 409
  else 400.

(** The voter identity [vote_for_feature] uses: [data.get('user_id')] of
    the body (or of [{}] when there is none), replaced by a generated UUID
    when it is false. *)
Definition voter_id (fresh : str) (data : option vote_payload) : str :=
  let user_id := match data with Some p => p_user_id p | None => None end in
  if negb (truthy_opt user_id) then fresh else get_or_empty user_id.

(** [POST /api/features/<id>/vote]. *)
Definition vote_for_feature (d : db) (now : Z) (fresh : str)
    (feature_id : Z) (data : option vote_payload) : db * response :=
  let user_id := voter_id fresh data in
  let (d', result) := Vote.add_vote d now fresh feature_id (Some user_id) in
  if res_success result then
    let vote_count := Vote.get_vote_count d' feature_id in
    (d', (VoteJson (res_message result) (res_user_id result) vote_count, 201))
  else (d', (Error (res_message result), vote_status_code (res_message result))).

(** [DELETE /api/features/<id>/vote]. *)
Definition remove_vote_from_feature (d : db) (feature_id : Z)
    (data : option vote_payload) : db * response :=
  let user_id := match data with Some p => p_user_id p | None => None end in
  if negb (truthy_opt user_id) then (d, (Error msg_user_id_required, 400))
  else
    let user_id := get_or_empty user_id in
    let (d', result) := Vote.remove_vote d feature_id user_id in
    if res_success result then
      let vote_count := Vote.get_vote_count d' feature_id in
      (d', (VoteCountJson (res_message result) vote_count, 200))
    else (d', (Error (res_message result), 404)).

(** [GET /api/users/<user_id>/votes]. *)
Definition get_user_votes (d : db) (user_id : str) : db * response :=
  let voted_features := Vote.get_user_votes d user_id in
  (d, (UserVotes user_id voted_features (length voted_features), 200)).

(** [GET /api/features/<id>/votes]. *)
Definition get_feature_votes (d : db) (feature_id : Z) : db * response :=
  match Feature.get_by_id d feature_id with
  | Raise => (d, (Error msg_internal_error, 500))
  | Done None => (d, (Error msg_feature_not_found, 404))
  | Done (Some _) =>
      let rows := Vote.get_votes_by_feature d feature_id in
      (d, (FeatureVotes feature_id rows (length rows), 200))
  end.

End Routes.

(* ================================================================== *)
(** ** [utils/helpers.py] *)

Definition validate_feature_data (data : option feature_payload)
  : bool * string :=
  if negb (feature_payload_truthy data) then (false, msg_no_data)
  else
    let title := match data with Some p => p_title p | None => None end in
    let description :=
      match data with Some p => p_description p | None => None end in
    if negb (truthy_opt title) || negb (truthy (strip (get_or_empty title)))
    then (false, msg_title_required)
    else if (200 <? length (get_or_empty title))%nat
    then (false, msg_title_too_long)
    else if (1000 <? length (get_or_empty description))%nat
    then (false, msg_description_too_long)
    else (true, "Valid"%string).

(* ================================================================== *)
(** ** The constraints of the schema, as predicates on a state *)

(** No two entries of a list of rowids are equal (PRIMARY KEY). *)
Fixpoint distinct (ids : list Z) : bool :=
  match ids with
  | [] => true
  | i :: ids' => negb (existsb (Z.eqb i) ids') && distinct ids'
  end.

(** [UNIQUE(feature_id, user_id)]. *)
Fixpoint unique_pairs (vs : list vote_row) : bool :=
  match vs with
  | [] => true
  | v :: vs' =>
      negb (existsb (vote_matches (v_feature_id v) (v_user_id v)) vs')
      && unique_pairs vs'
  end.

(** [FOREIGN KEY (feature_id) REFERENCES features (id)]: every vote row
    references a feature row. *)
Definition no_orphans (d : db) : bool :=
  forallb (fun v => existsb (feature_has_id (v_feature_id v)) (features d))
          (votes d).

Definition schema_ok (d : db) : bool :=
  distinct (map f_id (features d))
  && distinct (map v_id (votes d))
  && unique_pairs (votes d)
  && no_orphans d.

(** The values a row got from a request are values that a statement has
    bound: 64-bit integers and UTF-8 text. *)
Definition feature_row_ok (f : feature_row) : bool :=
  text_ok (f_title f) && opt_text_ok (f_description f).

Definition vote_row_ok (v : vote_row) : bool :=
  int_ok (v_feature_id v) && text_ok (v_user_id v).

(** A state whose rows hold such values only; every state the backend
    reaches is one. *)
Definition storable (d : db) : bool :=
  forallb feature_row_ok (features d) && forallb vote_row_ok (votes d).

(** The columns of the UNIQUE constraint. *)
Definition vote_key (v : vote_row) : Z * str :=
  (v_feature_id v, v_user_id v).

(** The four constraints, as propositions. *)
Definition consistent (d : db) : Prop :=
  NoDup (map f_id (features d))
  /\ NoDup (map v_id (votes d))
  /\ NoDup (map vote_key (votes d))
  /\ (forall v, In v (votes d) ->
      exists f, In f (features d) /\ f_id f = v_feature_id v).

(** A vote row for the pair exists. *)
Definition vote_exists (d : db) (fid : Z) (uid : str) : Prop :=
  exists v, In v (votes d) /\ v_feature_id v = fid /\ v_user_id v = uid.

(** A feature row with the id exists. *)
Definition feature_exists (d : db) (fid : Z) : Prop :=
  exists f, In f (features d) /\ f_id f = fid.

(** The state [Sql.delete_vote] leaves: the rows of the pair are gone. *)
Definition without_vote (d : db) (fid : Z) (uid : str) : db :=
  mk_db (features d)
        (filter (fun v => negb (vote_matches fid uid v)) (votes d))
        (features_seq d) (votes_seq d).

(* ================================================================== *)
(** ** Sequences of calls *)

(** The calls a client of the backend can make: the HTTP requests, and the
    model methods that change the state, which the tests call directly. *)
Inductive call :=
| CreateFeature (now : Z) (data : option feature_payload)
| GetFeatures (limit offset : option Z)
| GetFeature (feature_id : Z)
| DeleteFeature (feature_id : Z)
| VoteForFeature (now : Z) (fresh : str) (feature_id : Z)
                 (data : option vote_payload)
| RemoveVote (feature_id : Z) (data : option vote_payload)
| GetUserVotes (uid : str)
| GetFeatureVotes (feature_id : Z)
| FeatureSave (now : Z) (self : feature_obj)
| FeatureDelete (feature_id : Z)
| VoteAdd (now : Z) (fresh : str) (feature_id : Z) (uid : option str)
| VoteRemove (feature_id : Z) (uid : str).

(** The state a call leaves behind. *)
Definition exec (d : db) (c : call) : db :=
  match c with
  | CreateFeature now data => fst (Routes.create_feature d now data)
  | GetFeatures limit offset => fst (Routes.get_features d limit offset)
  | GetFeature fid => fst (Routes.get_feature d fid)
  | DeleteFeature fid => fst (Routes.delete_feature d fid)
  | VoteForFeature now fresh fid data =>
      fst (Routes.vote_for_feature d now fresh fid data)
  | RemoveVote fid data => fst (Routes.remove_vote_from_feature d fid data)
  | GetUserVotes uid => fst (Routes.get_user_votes d uid)
  | GetFeatureVotes fid => fst (Routes.get_feature_votes d fid)
  | FeatureSave now self => fst (fst (Feature.save d now self))
  | FeatureDelete fid => fst (Feature.delete d fid)
  | VoteAdd now fresh fid uid => fst (Vote.add_vote d now fresh fid uid)
  | VoteRemove fid uid => fst (Vote.remove_vote d fid uid)
  end.

Definition run (d : db) (cs : list call) : db := fold_left exec cs d.

(** The states of a backend that serves one call at a time: those a
    sequence of calls produces from the freshly initialised database. *)
Definition sequential (d : db) : Prop := exists cs, d = run empty_db cs.

(* ================================================================== *)
(** ** Concurrent [add_vote] calls

    Each call runs on a connection of its own; the statements of concurrent
    calls interleave, each statement being atomic.  A call is at one of the
    three statements of [add_vote] or has returned. *)

Inductive pc :=
| AtSelectFeature
| AtSelectVote
| AtInsert
| Returned (r : vote_result).

Record thread := mk_thread {
  t_now : Z;
  t_feature_id : Z;
  t_user_id : str;
  t_pc : pc
}.

(** One statement of an [add_vote] call that was given a user id.  A
    statement whose parameters cannot be bound raises, and the call returns
    through its [except] branch. *)
Definition add_vote_step (d : db) (t : thread) : db * thread :=
  let at_pc p := mk_thread (t_now t) (t_feature_id t) (t_user_id t) p in
  let error :=
    (d, at_pc (Returned (mk_vote_result false msg_error_adding_vote None))) in
  match t_pc t with
  | AtSelectFeature =>
      if negb (int_ok (t_feature_id t)) then error
      else
        match Sql.select_feature d (t_feature_id t) with
        | None =>
            (d, at_pc (Returned
                         (mk_vote_result false msg_feature_not_found None)))
        | Some _ => (d, at_pc AtSelectVote)
        end
  | AtSelectVote =>
      if negb (int_ok (t_feature_id t) && text_ok (t_user_id t)) then error
      else
        match Sql.select_vote d (t_feature_id t) (t_user_id t) with
        | Some _ =>
            (d, at_pc (Returned
                         (mk_vote_result false msg_already_voted None)))
        | None => (d, at_pc AtInsert)
        end
  | AtInsert =>
      match Sql.insert_vote d (t_now t) (t_feature_id t) (t_user_id t) with
      | Done d' =>
          (d', at_pc (Returned (mk_vote_result true msg_vote_added
                                               (Some (t_user_id t)))))
      | Raise => error
      end
  | Returned _ => (d, t)
  end.

(** Replace the [i]-th thread. *)
Fixpoint set_thread (ts : list thread) (i : nat) (t : thread) : list thread :=
  match ts, i with
  | [], _ => []
  | _ :: ts', O => t :: ts'
  | t0 :: ts', S i' => t0 :: set_thread ts' i' t
  end.

(** Let thread [i] execute its next statement. *)
Definition sched_step (s : db * list thread) (i : nat) : db * list thread :=
  let (d, ts) := s in
  match nth_error ts i with
  | None => s
  | Some t => let (d', t') := add_vote_step d t in (d', set_thread ts i t')
  end.

(** Run the threads under a schedule: the list of thread indices in the
    order in which their statements execute. *)
Definition interleave (d : db) (ts : list thread) (schedule : list nat)
  : db * list thread :=
  fold_left sched_step schedule (d, ts).

Definition start (now : Z) (feature_id : Z) (uid : str) : thread :=
  mk_thread now feature_id uid AtSelectFeature.

(** The running backend serves requests on threads of their own.  Every
    model method but [add_vote] changes the state with one statement or one
    transaction, and a handler changes it through one model method, so a
    whole call stands for it; an [add_vote] call reads twice before it
    writes, and other calls and other [add_vote] calls run between its
    statements.  [running d ts]: the backend has reached the state [d] with
    the [add_vote] calls [ts] started. *)
Inductive running : db -> list thread -> Prop :=
| running_init : running empty_db []
| running_call d ts c : running d ts -> running (exec d c) ts
| running_start d ts now fid uid :
    running d ts -> running d (ts ++ [start now fid uid])
| running_step d ts i :
    running d ts ->
    running (fst (sched_step (d, ts) i)) (snd (sched_step (d, ts) i)).

(** The states the backend can be in. *)
Definition reachable (d : db) : Prop := exists ts, running d ts.

Definition succeeded (t : thread) : bool :=
  match t_pc t with
  | Returned r => res_success r
  | _ => false
  end.

(** The status code the vote endpoint answers with for a returned call. *)
Definition thread_status (t : thread) : option Z :=
  match t_pc t with
  | Returned r =>
      Some (if res_success r then 201
            else Routes.vote_status_code (res_message r))
  | _ => None
  end.

(* ================================================================== *)
(** ** Validation rules and example states *)

(** The answer of a handler is a validation error: status 400. *)
Definition validation_error (r : response) : Prop := snd r = 400.

(** The rejection rule with the length limit on the trimmed title. *)
Definition trimmed_title_rule (title description : str) : Prop :=
  strip title = []
  \/ (200 < length (strip title))%nat
  \/ (1000 < length description)%nat.

(** The rejection rule with the length limit on the title as sent. *)
Definition raw_title_rule (title description : str) : Prop :=
  strip title = []
  \/ (200 < length title)%nat
  \/ (1000 < length description)%nat.

Definition title_of (data : option feature_payload) : str :=
  get_or_empty (match data with Some p => p_title p | None => None end).

Definition description_of (data : option feature_payload) : str :=
  get_or_empty (match data with Some p => p_description p | None => None end).

(** A title of 201 code points, 200 of them trailing spaces. *)
Definition padded_title : str := lit "a" ++ repeat 32%N 200.

Definition new_feature (title : string) : option feature_payload :=
  Some (mk_feature_payload (Some (lit title)) None).

Definition by_user (uid : string) : option vote_payload :=
  Some (mk_vote_payload (Some (lit uid))).


Definition some_uuid : str := lit "1b4e28ba-2fa1-41d2-883f-0016d3cca427".

(** Two features; the second has two votes, the first has one. *)
Definition two_features : db :=
  run empty_db
      [CreateFeature 100 (new_feature "Dark Mode");
       CreateFeature 101 (new_feature "Search");
       VoteForFeature 102 some_uuid 2 (by_user "u1");
       VoteForFeature 103 some_uuid 2 (by_user "u2");
       VoteForFeature 104 some_uuid 1 (by_user "u1")].

(** One feature and no vote. *)
Definition one_feature : db :=
  run empty_db [CreateFeature 100 (new_feature "Dark Mode")].

(** Two concurrent [add_vote] calls for the same pair. *)
Definition same_pair_calls : list thread :=
  [start 101 1 (lit "u1"); start 102 1 (lit "u1")].

(** The answers of [delete_feature] that report a failure. *)
Definition not_found_response : response := (Error msg_feature_not_found, 404).
Definition delete_failed_response : response := (Error msg_delete_failed, 500).

(** The answer of the [except Exception] branch of every handler. *)
Definition internal_error_response : response :=
  (Error msg_internal_error, 500).

(** A request body whose user id is the empty string. *)
Definition empty_user : option vote_payload :=
  Some (mk_vote_payload (Some [])).

(* ================================================================== *)
(** ** Statistics ([get_database_stats] of [models/database.py],
       [get_stats] of [app.py]) *)

(** The dictionary [get_database_stats] returns; [top_feature] holds the
    title and the vote count of the first row of its query, or [None]. *)
Record stats := mk_stats {
  total_features : nat;
  total_votes : nat;
  top_feature : option (str * nat)
}.

(** [ORDER BY vote_count DESC]; which of several features with the
    largest count comes first is left to the engine, and is the first in
    scan order here. *)
Definition count_leb (r1 r2 : ranked) : bool :=
  (rk_vote_count r2 <=? rk_vote_count r1)%nat.

Definition get_database_stats (d : db) : stats :=
  mk_stats (length (features d)) (length (votes d))
           (match order_by count_leb (Feature.with_votes d) with
            | [] => None
            | r :: _ => Some (f_title (rk_feature r), rk_vote_count r)
            end).

(** [GET /api/stats]: the two counts and the status code. *)
Definition get_stats (d : db) : (nat * nat) * Z :=
  ((length (features d), length (votes d)), 200).

(* ================================================================== *)
(** ** Further notions used in the properties *)

(** The calls that are HTTP requests. *)
Definition is_request (c : call) : bool :=
  match c with
  | FeatureSave _ _ | FeatureDelete _ | VoteAdd _ _ _ _ | VoteRemove _ _ =>
      false
  | _ => true
  end.

(** The states the HTTP interface alone produces. *)
Definition served (d : db) : Prop :=
  exists cs, forallb is_request cs = true /\ d = run empty_db cs.

(** A string without leading or trailing whitespace. *)
Definition trimmed (s : str) : bool :=
  match s with
  | [] => true
  | c :: _ => negb (is_space c) && negb (is_space (last s c))
  end.

(** A feature row as [create_feature] stores it. *)
Definition stored_ok (f : feature_row) : bool :=
  truthy (f_title f) && trimmed (f_title f)
  && (length (f_title f) <=? 200)%nat
  && match f_description f with
     | Some de => trimmed de && (length de <=? 1000)%nat
     | None => false
     end.

(** The rows [GET /api/features?limit=k&offset=o] answers with. *)
Definition page (d : db) (o k : Z) : list ranked :=
  match snd (Routes.get_features d (Some k) (Some o)) with
  | (FeatureList rows _ _, _) => rows
  | _ => []
  end.

(** One vote request per user id of a list, in order. *)
Definition cast_all (d : db) (now : Z) (fresh : str) (fid : Z)
    (uids : list str) : db :=
  fold_left
    (fun d u =>
       fst (Routes.vote_for_feature d now fresh fid
                                    (Some (mk_vote_payload (Some u)))))
    uids d.

(** An [add_vote] call that has run its two SELECTs when [Feature.delete]
    runs for the same feature, and then runs its INSERT. *)
Definition vote_around_delete (d : db) (t : thread) : db * thread :=
  let (d1, t1) := add_vote_step d t in
  let (d2, t2) := add_vote_step d1 t1 in
  let (d3, _) := Feature.delete d2 (t_feature_id t) in
  add_vote_step d3 t2.

(** The [delete_feature] handler when other requests are served between
    its lookup and its delete: [Feature.get_by_id] reads the state [d],
    [Feature.delete] runs in the state [d']. *)
Definition delete_feature_between (d d' : db) (feature_id : Z)
  : db * response :=
  match Feature.get_by_id d feature_id with
  | Raise => (d', (Error msg_internal_error, 500))
  | Done None => (d', (Error msg_feature_not_found, 404))
  | Done (Some _) =>
      match Feature.delete d' feature_id with
      | (d'', true) => (d'', (Message msg_feature_deleted, 200))
      | (d'', false) => (d'', (Error msg_delete_failed, 500))
      end
  end.

(** One feature and one [add_vote] call for it that runs its two SELECTs;
    the [delete_feature] request for the feature is served; the call runs
    its INSERT. *)
Definition delete_race : db * list thread :=
  let s0 := (one_feature, [start 101 1 (lit "u1")]) in
  let s2 := sched_step (sched_step s0 0) 0 in
  let s3 := (exec (fst s2) (DeleteFeature 1), snd s2) in
  sched_step s3 0.

(** All calls are for the pair and none has started. *)
Definition all_start (fid : Z) (uid : str) (ts : list thread) : Prop :=
  forall t, In t ts ->
    t_feature_id t = fid /\ t_user_id t = uid /\ t_pc t = AtSelectFeature.

Definition returned (t : thread) : bool :=
  match t_pc t with Returned _ => true | _ => false end.

(** A returned call lost to a duplicate: through the SELECT or through the
    UNIQUE constraint. *)
Definition lost_to_duplicate (t : thread) : bool :=
  match t_pc t with
  | Returned r =>
      negb (res_success r)
      && (String.eqb (res_message r) msg_already_voted
          || String.eqb (res_message r) msg_error_adding_vote)
  | _ => false
  end.

(** What one call may do to the votes table: delete rows, or append one
    row under the next rowid. *)
Definition votes_step (d d' : db) : Prop :=
  (exists keep, votes d' = filter keep (votes d)
                /\ votes_seq d' = votes_seq d)
  \/ (exists now fid uid,
        let id := next_rowid (votes_seq d) (map v_id (votes d)) in
        votes d' = votes d ++ [mk_vote_row id fid uid now]
        /\ votes_seq d' = id
        /\ existsb (vote_matches fid uid) (votes d) = false
        /\ vote_row_ok (mk_vote_row id fid uid now) = true).

(** What one call may do to the features table: delete rows, append one
    row under the next rowid, or rewrite the title, the description and
    [updated_at] of the rows of one id. *)
Definition features_step (d d' : db) : Prop :=
  (exists keep, features d' = filter keep (features d)
                /\ features_seq d' = features_seq d)
  \/ (exists t de now,
        let id := next_rowid (features_seq d) (map f_id (features d)) in
        features d' = features d ++ [mk_feature_row id t de now now]
        /\ features_seq d' = id
        /\ feature_row_ok (mk_feature_row id t de now now) = true)
  \/ (exists fid t de now,
        features d' =
        map (fun f => if feature_has_id fid f
                      then mk_feature_row (f_id f) t de (f_created_at f) now
                      else f)
            (features d)
        /\ features_seq d' = features_seq d
        /\ text_ok t && opt_text_ok de = true).

(** Every rowid in use is positive and at most the counter of its table. *)
Definition ids_bounded (d : db) : Prop :=
  0 <= features_seq d /\ 0 <= votes_seq d
  /\ (forall f, In f (features d) -> 0 < f_id f <= features_seq d)
  /\ (forall v, In v (votes d) -> 0 < v_id v <= votes_seq d).

(** What holds while [add_vote] calls for the pair [(fid, uid)] run
    from the state [d0]: the features are those of [d0]; the calls are for
    the pair; there are as many vote rows for the pair as calls that
    succeeded, at most one; and a call that has returned has succeeded or
    lost to a duplicate, the vote row being there. *)
Definition race_invariant (fid : Z) (uid : str) (d0 d : db)
    (ts : list thread) : Prop :=
  features d = features d0
  /\ (forall t, In t ts -> t_feature_id t = fid /\ t_user_id t = uid)
  /\ length (filter (vote_matches fid uid) (votes d))
     = length (filter succeeded ts)
  /\ (length (filter succeeded ts) <= 1)%nat
  /\ (forall t, In t ts -> returned t = true ->
        (succeeded t = true \/ lost_to_duplicate t = true)
        /\ existsb (vote_matches fid uid) (votes d) = true).

(* ================================================================== *)
(** * Properties *)

(** ** Strings and row predicates *)

Lemma str_eqb_eq (a b : str) : str_eqb a b = true <-> a = b.
Proof.
  revert b; induction a as [|x a IH]; intros [|y b]; simpl;
    try (split; [discriminate | discriminate]); try tauto.
  rewrite andb_true_iff, N.eqb_eq, IH. split.
  - intros [-> ->]; reflexivity.
  - intros H; injection H; auto.
Qed.

Lemma str_eqb_refl (a : str) : str_eqb a a = true.
Proof. apply str_eqb_eq; reflexivity. Qed.

Lemma vote_matches_iff (fid : Z) (uid : str) (v : vote_row) :
  vote_matches fid uid v = true <-> v_feature_id v = fid /\ v_user_id v = uid.
Proof.
  unfold vote_matches, vote_of_feature, vote_of_user.
  rewrite andb_true_iff, Z.eqb_eq, str_eqb_eq; tauto.
Qed.

Lemma vote_matches_feature (fid : Z) (uid : str) (v : vote_row) :
  vote_matches fid uid v = true -> vote_of_feature fid v = true.
Proof. unfold vote_matches; rewrite andb_true_iff; tauto. Qed.

Lemma find_none_iff {A} (p : A -> bool) (l : list A) :
  find p l = None <-> existsb p l = false.
Proof.
  induction l as [|x l IH]; simpl; [tauto|].
  destruct (p x); simpl; [split; discriminate | exact IH].
Qed.

Lemma find_some_iff {A} (p : A -> bool) (l : list A) :
  find p l <> None <-> existsb p l = true.
Proof.
  rewrite find_none_iff. destruct (existsb p l); split; congruence.
Qed.

Lemma count_snoc {A} (p : A -> bool) (l : list A) (x : A) :
  length (filter p (l ++ [x])) =
  (length (filter p l) + if p x then 1 else 0)%nat.
Proof.
  rewrite filter_app, length_app; simpl. destruct (p x); reflexivity.
Qed.

Lemma vote_exists_iff (d : db) (fid : Z) (uid : str) :
  vote_exists d fid uid <-> existsb (vote_matches fid uid) (votes d) = true.
Proof.
  unfold vote_exists; rewrite existsb_exists.
  split; intros [v [Hin H]]; exists v; split; auto;
    apply vote_matches_iff; auto.
Qed.

Lemma feature_exists_iff (d : db) (fid : Z) :
  feature_exists d fid <-> existsb (feature_has_id fid) (features d) = true.
Proof.
  unfold feature_exists, feature_has_id; rewrite existsb_exists.
  split; intros [f [Hin H]]; exists f; split; auto; apply Z.eqb_eq; auto.
Qed.

Lemma select_feature_none (d : db) (fid : Z) :
  Sql.select_feature d fid = None <-> ~ feature_exists d fid.
Proof.
  unfold Sql.select_feature.
  rewrite find_none_iff, feature_exists_iff, not_true_iff_false; tauto.
Qed.

Lemma select_vote_none (d : db) (fid : Z) (uid : str) :
  Sql.select_vote d fid uid = None <-> ~ vote_exists d fid uid.
Proof.
  unfold Sql.select_vote.
  rewrite find_none_iff, vote_exists_iff, not_true_iff_false; tauto.
Qed.

(** ** Casting a vote *)

(** The state after a vote row for [(fid, uid)] was inserted at [now]. *)
Lemma insert_vote_done (d : db) (now fid : Z) (uid : str) :
  int_ok fid = true -> text_ok uid = true ->
  ~ vote_exists d fid uid ->
  Sql.insert_vote d now fid uid =
  Done (mk_db (features d)
              (votes d ++ [mk_vote_row (next_rowid (votes_seq d)
                                                   (map v_id (votes d)))
                                       fid uid now])
              (features_seq d)
              (next_rowid (votes_seq d) (map v_id (votes d)))).
Proof.
  intros Hi Ht H. unfold Sql.insert_vote. rewrite Hi, Ht.
  rewrite vote_exists_iff, not_true_iff_false in H. rewrite H. reflexivity.
Qed.

(** [Vote.add_vote] with a given user id, case by case: the two cases in
    which a parameter cannot be bound, then the three in which every
    statement runs. *)
Lemma add_vote_cases (d : db) (now : Z) (fresh : str) (fid : Z) (uid : str) :
  (int_ok fid = false ->
   Vote.add_vote d now fresh fid (Some uid) =
   (d, mk_vote_result false msg_error_adding_vote None))
  /\ (int_ok fid = true -> feature_exists d fid -> text_ok uid = false ->
      Vote.add_vote d now fresh fid (Some uid) =
      (d, mk_vote_result false msg_error_adding_vote None))
  /\ (int_ok fid = true -> ~ feature_exists d fid ->
      Vote.add_vote d now fresh fid (Some uid) =
      (d, mk_vote_result false msg_feature_not_found None))
  /\ (int_ok fid = true -> text_ok uid = true ->
      feature_exists d fid -> vote_exists d fid uid ->
      Vote.add_vote d now fresh fid (Some uid) =
      (d, mk_vote_result false msg_already_voted None))
  /\ (int_ok fid = true -> text_ok uid = true ->
      feature_exists d fid -> ~ vote_exists d fid uid ->
      Vote.add_vote d now fresh fid (Some uid) =
      (mk_db (features d)
             (votes d ++ [mk_vote_row (next_rowid (votes_seq d)
                                                  (map v_id (votes d)))
                                      fid uid now])
             (features_seq d)
             (next_rowid (votes_seq d) (map v_id (votes d))),
       mk_vote_result true msg_vote_added (Some uid))).
Proof.
  unfold Vote.add_vote. repeat split.
  - intros Hi. rewrite Hi. reflexivity.
  - intros Hi Hf Ht. rewrite Hi, Ht. cbn [negb andb].
    destruct (Sql.select_feature d fid) eqn:E;
      [reflexivity | apply select_feature_none in E; contradiction].
  - intros Hi H. rewrite Hi. cbn [negb].
    apply select_feature_none in H. rewrite H. reflexivity.
  - intros Hi Ht Hf Hv. rewrite Hi, Ht. cbn [negb andb].
    destruct (Sql.select_feature d fid) eqn:E;
      [|apply select_feature_none in E; contradiction].
    destruct (Sql.select_vote d fid uid) eqn:E';
      [reflexivity | apply select_vote_none in E'; contradiction].
  - intros Hi Ht Hf Hv. rewrite Hi, Ht. cbn [negb andb].
    destruct (Sql.select_feature d fid) eqn:E;
      [|apply select_feature_none in E; contradiction].
    pose proof Hv as E'. apply select_vote_none in E'. rewrite E'.
    rewrite insert_vote_done by assumption. reflexivity.
Qed.

Lemma count_after_insert (d : db) (fid : Z) (uid : str) (id now s : Z) :
  Vote.get_vote_count
    (mk_db (features d) (votes d ++ [mk_vote_row id fid uid now])
           (features_seq d) s) fid
  = S (Vote.get_vote_count d fid).
Proof.
  unfold Vote.get_vote_count; simpl. rewrite count_snoc.
  unfold vote_of_feature at 2; simpl. rewrite Z.eqb_refl. lia.
Qed.

Lemma no_orphans_feature_exists (d : db) (fid : Z) (uid : str) :
  no_orphans d = true -> vote_exists d fid uid -> feature_exists d fid.
Proof.
  unfold no_orphans. rewrite forallb_forall.
  intros H [v [Hin [Hf _]]]. apply feature_exists_iff.
  rewrite <- Hf. apply H; assumption.
Qed.

Lemma voter_id_given (fresh uid : str) :
  uid <> [] ->
  Routes.voter_id fresh (Some (mk_vote_payload (Some uid))) = uid.
Proof. destruct uid; [congruence | reflexivity]. Qed.

(** C1 (amended). [castVote] ([vote_for_feature], that is [Vote.add_vote]
    followed by [Vote.get_vote_count]), for a feature id in the 64-bit
    range and the voter identity [uid] the handler resolves from the
    request, an encodable string: it answers 404 "Feature not found" when
    no feature has the id, 409 "User has already voted for this feature"
    when the feature exists and a vote row [(feature_id, uid)] exists, both
    without changing the state; otherwise it appends exactly one vote row
    [(feature_id, uid)], changes nothing else, and answers 201 with the
    number of votes of the feature in the new state, one more than before.
    A feature id outside the 64-bit range is answered 400 "Error adding
    vote", whether a feature has it or not, and so is an identity that is
    not encodable when the feature exists; the state does not change.  A
    user id given in the request and not empty is that identity. *)
Theorem cast_vote_spec (d : db) (now : Z) (fresh : str) (fid : Z)
    (data : option vote_payload) :
  let uid := Routes.voter_id fresh data in
  (int_ok fid = true -> ~ feature_exists d fid ->
   Routes.vote_for_feature d now fresh fid data =
   (d, (Error msg_feature_not_found, 404)))
  /\ (int_ok fid = true -> text_ok uid = true ->
      feature_exists d fid -> vote_exists d fid uid ->
      Routes.vote_for_feature d now fresh fid data =
      (d, (Error msg_already_voted, 409)))
  /\ (int_ok fid = true -> text_ok uid = true ->
      no_orphans d = true -> vote_exists d fid uid ->
      Routes.vote_for_feature d now fresh fid data =
      (d, (Error msg_already_voted, 409)))
  /\ (int_ok fid = true -> text_ok uid = true ->
      feature_exists d fid -> ~ vote_exists d fid uid ->
      exists id d',
        Routes.vote_for_feature d now fresh fid data =
        (d', (VoteJson msg_vote_added (Some uid)
                       (Vote.get_vote_count d' fid), 201))
        /\ features d' = features d
        /\ votes d' = votes d ++ [mk_vote_row id fid uid now]
        /\ Vote.get_vote_count d' fid = S (Vote.get_vote_count d fid))
  /\ (int_ok fid = false ->
      Routes.vote_for_feature d now fresh fid data =
      (d, (Error msg_error_adding_vote, 400)))
  /\ (int_ok fid = true -> text_ok uid = false -> feature_exists d fid ->
      Routes.vote_for_feature d now fresh fid data =
      (d, (Error msg_error_adding_vote, 400)))
  /\ (forall u, u <> [] ->
      Routes.voter_id fresh (Some (mk_vote_payload (Some u))) = u).
Proof.
  intros uid.
  destruct (add_vote_cases d now fresh fid uid)
    as [Hbig [Htext [Hnf [Hdup Hok]]]].
  assert (Hdup' : int_ok fid = true -> text_ok uid = true ->
                  feature_exists d fid -> vote_exists d fid uid ->
                  Routes.vote_for_feature d now fresh fid data =
                  (d, (Error msg_already_voted, 409))).
  { intros Hi Ht Hf Hv. unfold Routes.vote_for_feature. fold uid.
    rewrite (Hdup Hi Ht Hf Hv). reflexivity. }
  split; [|split; [|split; [|split; [|split; [|split]]]]].
  - intros Hi H. unfold Routes.vote_for_feature. fold uid.
    rewrite (Hnf Hi H). reflexivity.
  - exact Hdup'.
  - intros Hi Ht Hno Hv. apply Hdup'; try assumption.
    eapply no_orphans_feature_exists; eassumption.
  - intros Hi Ht Hf Hv.
    exists (next_rowid (votes_seq d) (map v_id (votes d))).
    eexists. unfold Routes.vote_for_feature. fold uid.
    rewrite (Hok Hi Ht Hf Hv). cbn [res_success res_message res_user_id].
    split; [reflexivity|]. cbn [features votes].
    split; [reflexivity|]. split; [reflexivity|].
    apply count_after_insert.
  - intros Hi. unfold Routes.vote_for_feature. fold uid.
    rewrite (Hbig Hi). reflexivity.
  - intros Hi Ht Hf. unfold Routes.vote_for_feature. fold uid.
    rewrite (Htext Hi Hf Ht). reflexivity.
  - intros u Hu. apply voter_id_given; assumption.
Qed.

(** C1 as the claim has it fails in two ways.  No feature has the id
    2^63, and the vote is not answered with "Feature not found" but with
    "Error adding vote", status 400.  The feature 1 exists and has no vote
    of the user whose id is a lone surrogate, and no vote row is inserted:
    the answer is the same 400. *)
Lemma cast_vote_counterexample :
  ~ feature_exists one_feature 9223372036854775808
  /\ Routes.vote_for_feature one_feature 101 some_uuid 9223372036854775808
                             (by_user "u1")
     = (one_feature, (Error msg_error_adding_vote, 400))
  /\ feature_exists one_feature 1
  /\ ~ vote_exists one_feature 1 [55296%N]
  /\ Routes.vote_for_feature one_feature 101 some_uuid 1
                             (Some (mk_vote_payload (Some [55296%N])))
     = (one_feature, (Error msg_error_adding_vote, 400)).
Proof.
  split; [|split; [reflexivity|split; [|split; [|reflexivity]]]].
  - intros [f [[<-|[]] E]]. discriminate.
  - exists (mk_feature_row 1 (lit "Dark Mode") (Some []) 100 100).
    split; [left|]; reflexivity.
  - intros [v [[] _]].
Qed.

(** ** The schema constraints hold when calls are served one at a time *)

Lemma distinct_NoDup (ids : list Z) : distinct ids = true <-> NoDup ids.
Proof.
  induction ids as [|i ids IH]; simpl.
  - split; [constructor | reflexivity].
  - rewrite andb_true_iff, negb_true_iff, IH. split.
    + intros [Hn Hd]. constructor; [|assumption].
      intros Hin. assert (existsb (Z.eqb i) ids = true); [|congruence].
      apply existsb_exists. exists i. split; [assumption | apply Z.eqb_refl].
    + intros H. inversion H as [|? ? Hn Hd]; subst. split; [|assumption].
      apply not_true_iff_false. intros E. apply existsb_exists in E.
      destruct E as [j [Hj E]]. apply Z.eqb_eq in E. subst j. contradiction.
Qed.

Lemma unique_pairs_NoDup (vs : list vote_row) :
  unique_pairs vs = true <-> NoDup (map vote_key vs).
Proof.
  induction vs as [|v vs IH]; simpl.
  - split; [constructor | reflexivity].
  - rewrite andb_true_iff, negb_true_iff, IH. split.
    + intros [Hn Hd]. constructor; [|assumption].
      intros Hin. apply in_map_iff in Hin. destruct Hin as [w [Hk Hw]].
      assert (existsb (vote_matches (v_feature_id v) (v_user_id v)) vs = true);
        [|congruence].
      apply existsb_exists. exists w. split; [assumption|].
      apply vote_matches_iff. unfold vote_key in Hk.
      injection Hk; auto.
    + intros H. inversion H as [|? ? Hn Hd]; subst. split; [|assumption].
      apply not_true_iff_false. intros E. apply existsb_exists in E.
      destruct E as [w [Hw E]]. apply vote_matches_iff in E.
      destruct E as [E1 E2]. apply Hn. apply in_map_iff. exists w.
      split; [|assumption]. unfold vote_key. rewrite E1, E2. reflexivity.
Qed.

Lemma no_orphans_iff (d : db) :
  no_orphans d = true <->
  (forall v, In v (votes d) ->
     exists f, In f (features d) /\ f_id f = v_feature_id v).
Proof.
  unfold no_orphans. rewrite forallb_forall.
  split; intros H v Hv.
  - apply (feature_exists_iff d (v_feature_id v)). apply H; assumption.
  - apply (feature_exists_iff d (v_feature_id v)). apply H; assumption.
Qed.

Lemma schema_ok_iff (d : db) : schema_ok d = true <-> consistent d.
Proof.
  unfold schema_ok, consistent.
  rewrite !andb_true_iff, !distinct_NoDup, unique_pairs_NoDup, no_orphans_iff.
  tauto.
Qed.

(** A DELETE keeps a column free of duplicates. *)
Lemma NoDup_map_filter {Row Key} (key : Row -> Key) (keep : Row -> bool)
    (rows : list Row) (Hkeys : NoDup (map key rows)) :
  NoDup (map key (filter keep rows)).
Proof.
  induction rows as [|r rows IH]; simpl; [constructor|].
  simpl in Hkeys. apply NoDup_cons_iff in Hkeys. destruct Hkeys as [Hn Hd].
  destruct (keep r); simpl; [|exact (IH Hd)].
  apply NoDup_cons; [|exact (IH Hd)]. intros Hin. apply Hn.
  apply in_map_iff in Hin. destruct Hin as [y [Hy Hin]].
  apply filter_In in Hin. apply in_map_iff. exists y. tauto.
Qed.

Lemma NoDup_map_snoc {A B} (f : A -> B) (l : list A) (x : A) :
  NoDup (map f l) -> ~ In (f x) (map f l) -> NoDup (map f (l ++ [x])).
Proof.
  intros Hd Hn. rewrite map_app. simpl.
  apply (Permutation_NoDup (l := f x :: map f l)).
  - apply Permutation_cons_append.
  - constructor; assumption.
Qed.

Lemma le_fold_max (ids : list Z) (i : Z) :
  In i ids -> i <= fold_right Z.max 0 ids.
Proof.
  induction ids as [|j ids IH]; simpl; [tauto|].
  intros [->|H]; [lia | specialize (IH H); lia].
Qed.

Lemma next_rowid_fresh (seq : Z) (ids : list Z) :
  ~ In (next_rowid seq ids) ids.
Proof.
  intros H. apply le_fold_max in H. unfold next_rowid in H. lia.
Qed.

(** What a statement that did not raise was given and has done. *)
Lemma insert_feature_inv (d d' : db) (now id : Z) (t de : option str) :
  Sql.insert_feature d now t de = Done (d', id) ->
  exists t0,
    t = Some t0 /\ text_ok t0 = true /\ opt_text_ok de = true
    /\ id = next_rowid (features_seq d) (map f_id (features d))
    /\ d' = mk_db (features d ++ [mk_feature_row id t0 de now now])
                  (votes d) id (votes_seq d).
Proof.
  unfold Sql.insert_feature.
  destruct (opt_text_ok t && opt_text_ok de) eqn:Eb; [|discriminate].
  apply andb_true_iff in Eb. destruct Eb as [Ht Hd].
  destruct t as [t0|]; [|discriminate]. cbn [negb].
  intros E. injection E as <- <-. exists t0. auto.
Qed.

Lemma update_feature_inv (d d' : db) (now fid : Z) (t de : option str) :
  Sql.update_feature d now fid t de = Done d' ->
  int_ok fid = true /\ opt_text_ok t = true /\ opt_text_ok de = true
  /\ match t with
     | Some t0 =>
         d' = mk_db
                (map (fun f =>
                        if feature_has_id fid f
                        then mk_feature_row (f_id f) t0 de
                                            (f_created_at f) now
                        else f)
                     (features d))
                (votes d) (features_seq d) (votes_seq d)
     | None => d' = d /\ ~ feature_exists d fid
     end.
Proof.
  unfold Sql.update_feature.
  destruct (opt_text_ok t && opt_text_ok de && int_ok fid) eqn:Eb;
    [|discriminate].
  apply andb_true_iff in Eb. destruct Eb as [Eb Hi].
  apply andb_true_iff in Eb. destruct Eb as [Ht Hd]. cbn [negb].
  destruct t as [t0|].
  - intros E. injection E as <-. auto.
  - destruct (existsb _ _) eqn:Ex; [discriminate|].
    intros E. injection E as <-. repeat split; try assumption.
    rewrite feature_exists_iff. congruence.
Qed.

Lemma insert_vote_inv (d d' : db) (now fid : Z) (uid : str) :
  Sql.insert_vote d now fid uid = Done d' ->
  int_ok fid = true /\ text_ok uid = true
  /\ existsb (vote_matches fid uid) (votes d) = false
  /\ d' = mk_db (features d)
                (votes d ++ [mk_vote_row (next_rowid (votes_seq d)
                                                     (map v_id (votes d)))
                                         fid uid now])
                (features_seq d)
                (next_rowid (votes_seq d) (map v_id (votes d))).
Proof.
  unfold Sql.insert_vote.
  destruct (int_ok fid && text_ok uid) eqn:Eb; [|discriminate].
  apply andb_true_iff in Eb. destruct Eb as [Hi Ht]. cbn [negb].
  destruct (existsb _ _) eqn:Ex; [discriminate|].
  intros E. injection E as <-. auto.
Qed.

(** The state [Vote.add_vote] leaves is the old one, or the one its INSERT
    leaves, the feature being there. *)
Lemma add_vote_state (d : db) (now : Z) (fresh : str) (fid : Z)
    (uid : option str) :
  fst (Vote.add_vote d now fresh fid uid) = d
  \/ exists u,
       feature_exists d fid
       /\ Sql.insert_vote d now fid u
          = Done (fst (Vote.add_vote d now fresh fid uid)).
Proof.
  unfold Vote.add_vote.
  destruct (negb (int_ok fid)); [left; reflexivity|].
  destruct (Sql.select_feature d fid) eqn:Ef; [|left; reflexivity].
  destruct (negb _); [left; reflexivity|].
  destruct (Sql.select_vote d fid _); [left; reflexivity|].
  destruct (Sql.insert_vote d now fid _) as [d'|] eqn:Ei;
    [|left; reflexivity].
  right. eexists. split; [|exact Ei].
  apply feature_exists_iff, find_some_iff.
  unfold Sql.select_feature in Ef. congruence.
Qed.

Lemma insert_feature_consistent (d d' : db) (now id : Z) (t de : option str) :
  consistent d -> Sql.insert_feature d now t de = Done (d', id) ->
  consistent d'.
Proof.
  intros [Hf [Hv [Hk Ho]]] E.
  apply insert_feature_inv in E.
  destruct E as [t0 [_ [_ [_ [-> ->]]]]].
  unfold consistent; simpl. repeat split; try assumption.
  - apply NoDup_map_snoc; [assumption|]. simpl. apply next_rowid_fresh.
  - intros v Hin. destruct (Ho v Hin) as [f [Hf' E]].
    exists f. split; [apply in_or_app; left|]; assumption.
Qed.

Lemma update_feature_ids (fid now : Z) (t : str) (de : option str)
    (l : list feature_row) :
  map f_id
      (map (fun f => if feature_has_id fid f
                     then mk_feature_row (f_id f) t de (f_created_at f) now
                     else f) l)
  = map f_id l.
Proof.
  rewrite map_map. apply map_ext. intros f.
  destruct (feature_has_id fid f); reflexivity.
Qed.

Lemma update_feature_consistent (d d' : db) (now fid : Z) (t de : option str) :
  consistent d -> Sql.update_feature d now fid t de = Done d' ->
  consistent d'.
Proof.
  intros [Hf [Hv [Hk Ho]]] E. apply update_feature_inv in E.
  destruct E as [_ [_ [_ E]]]. revert E.
  destruct t as [t|].
  - intros ->. unfold consistent; simpl.
    rewrite update_feature_ids. repeat split; try assumption.
    intros v Hin. destruct (Ho v Hin) as [f [Hf' E]].
    assert (Hid : In (v_feature_id v) (map f_id (features d))).
    { rewrite <- E. apply in_map. assumption. }
    rewrite <- (update_feature_ids fid now t de) in Hid.
    apply in_map_iff in Hid. destruct Hid as [g [Hg Hin']].
    exists g. split; assumption.
  - intros [-> _]. repeat split; assumption.
Qed.

Lemma insert_vote_consistent (d d' : db) (now fid : Z) (uid : str) :
  consistent d -> feature_exists d fid ->
  Sql.insert_vote d now fid uid = Done d' -> consistent d'.
Proof.
  intros [Hf [Hv [Hk Ho]]] Hex E'. apply insert_vote_inv in E'.
  destruct E' as [_ [_ [E ->]]]. unfold consistent; simpl.
  repeat split; try assumption.
  - apply NoDup_map_snoc; [assumption|]. simpl. apply next_rowid_fresh.
  - apply NoDup_map_snoc; [assumption|]. simpl. intros Hin.
    apply in_map_iff in Hin. destruct Hin as [w [Hw Hin]].
    assert (existsb (vote_matches fid uid) (votes d) = true); [|congruence].
    apply existsb_exists. exists w. split; [assumption|].
    apply vote_matches_iff. unfold vote_key in Hw. simpl in Hw.
    injection Hw; auto.
  - intros v Hin. apply in_app_or in Hin. destruct Hin as [Hin|[<-|[]]].
    + apply Ho; assumption.
    + exact Hex.
Qed.

Lemma delete_vote_consistent (d : db) (fid : Z) (uid : str) :
  consistent d -> consistent (fst (Sql.delete_vote d fid uid)).
Proof.
  intros [Hf [Hv [Hk Ho]]]. unfold consistent; simpl.
  repeat split; try assumption; try (apply NoDup_map_filter; assumption).
  intros v Hin. apply filter_In in Hin. apply Ho; tauto.
Qed.

Lemma feature_delete_consistent (d : db) (fid : Z) :
  consistent d -> consistent (fst (Feature.delete d fid)).
Proof.
  intros [Hf [Hv [Hk Ho]]]. unfold consistent; simpl.
  repeat split; try (apply NoDup_map_filter; assumption).
  intros v Hin. apply filter_In in Hin. destruct Hin as [Hin Hne].
  destruct (Ho v Hin) as [f [Hf' E]]. exists f. split; [|assumption].
  apply filter_In. split; [assumption|].
  unfold vote_of_feature in Hne. unfold feature_has_id. rewrite E.
  exact Hne.
Qed.

Lemma save_consistent (d : db) (now : Z) (self : feature_obj) :
  consistent d -> consistent (fst (fst (Feature.save d now self))).
Proof.
  intros H. unfold Feature.save. destruct (o_id self) as [id|].
  - destruct (Sql.update_feature d now id (o_title self) (o_description self))
      as [d'|] eqn:E; simpl; [|assumption].
    eapply update_feature_consistent; eassumption.
  - destruct (Sql.insert_feature d now (o_title self) (o_description self))
      as [[d' id]|] eqn:E; simpl; [|assumption].
    eapply insert_feature_consistent; eassumption.
Qed.

Lemma add_vote_consistent (d : db) (now : Z) (fresh : str) (fid : Z)
    (uid : option str) :
  consistent d -> consistent (fst (Vote.add_vote d now fresh fid uid)).
Proof.
  intros H.
  destruct (add_vote_state d now fresh fid uid) as [->|[u [Hf Ei]]];
    [assumption|].
  eapply insert_vote_consistent; eassumption.
Qed.

(** The state [Vote.remove_vote] leaves is the one its DELETE leaves, or
    the old one when the DELETE raised. *)
Lemma remove_vote_state (d : db) (fid : Z) (uid : str) :
  fst (Vote.remove_vote d fid uid)
  = if int_ok fid && text_ok uid then fst (Sql.delete_vote d fid uid)
    else d.
Proof.
  unfold Vote.remove_vote, Sql.delete_vote.
  destruct (int_ok fid && text_ok uid); [|reflexivity]. cbn [negb].
  destruct (0 <? _)%nat; reflexivity.
Qed.

Lemma remove_vote_consistent (d : db) (fid : Z) (uid : str) :
  consistent d -> consistent (fst (Vote.remove_vote d fid uid)).
Proof.
  intros H. rewrite remove_vote_state.
  destruct (int_ok fid && text_ok uid);
    [apply delete_vote_consistent|]; exact H.
Qed.

Lemma create_feature_state (d : db) (now : Z) (data : option feature_payload) :
  fst (Routes.create_feature d now data) = d
  \/ exists self, fst (Routes.create_feature d now data)
                  = fst (fst (Feature.save d now self)).
Proof.
  unfold Routes.create_feature.
  repeat match goal with
         | |- context [if ?c then _ else _] => destruct c; [left; reflexivity|]
         end.
  right.
  match goal with |- context [Feature.save d now ?o] => exists o end.
  destruct (Feature.save d now _) as [[d' o] []]; reflexivity.
Qed.

Lemma delete_feature_state (d : db) (fid : Z) :
  fst (Routes.delete_feature d fid) = d
  \/ fst (Routes.delete_feature d fid) = fst (Feature.delete d fid).
Proof.
  unfold Routes.delete_feature.
  destruct (Feature.get_by_id d fid) as [[o|]|]; try (left; reflexivity).
  right. destruct (Feature.delete d fid) as [d' []]; reflexivity.
Qed.

Lemma vote_for_feature_state (d : db) (now : Z) (fresh : str) (fid : Z)
    (data : option vote_payload) :
  fst (Routes.vote_for_feature d now fresh fid data)
  = fst (Vote.add_vote d now fresh fid (Some (Routes.voter_id fresh data))).
Proof.
  unfold Routes.vote_for_feature.
  destruct (Vote.add_vote d now fresh fid _) as [d' r].
  destruct (res_success r); reflexivity.
Qed.

Lemma remove_vote_from_feature_state (d : db) (fid : Z)
    (data : option vote_payload) :
  fst (Routes.remove_vote_from_feature d fid data) = d
  \/ exists uid, fst (Routes.remove_vote_from_feature d fid data)
                 = fst (Vote.remove_vote d fid uid).
Proof.
  unfold Routes.remove_vote_from_feature.
  destruct (negb _); [left; reflexivity|]. right.
  match goal with |- context [Vote.remove_vote d fid ?u] => exists u end.
  destruct (Vote.remove_vote d fid _) as [d' r].
  destruct (res_success r); reflexivity.
Qed.

Lemma get_feature_state (d : db) (fid : Z) :
  fst (Routes.get_feature d fid) = d.
Proof.
  unfold Routes.get_feature.
  destruct (Feature.get_by_id d fid) as [[o|]|]; reflexivity.
Qed.

Lemma get_feature_votes_state (d : db) (fid : Z) :
  fst (Routes.get_feature_votes d fid) = d.
Proof.
  unfold Routes.get_feature_votes.
  destruct (Feature.get_by_id d fid) as [[o|]|]; reflexivity.
Qed.

(** Every call preserves the four constraints. *)
Lemma exec_consistent (d : db) (c : call) :
  consistent d -> consistent (exec d c).
Proof.
  intros H. destruct c; simpl.
  - destruct (create_feature_state d now data) as [->|[self ->]];
      [assumption | apply save_consistent; assumption].
  - assumption.
  - rewrite get_feature_state; assumption.
  - destruct (delete_feature_state d feature_id) as [->| ->];
      [assumption | apply feature_delete_consistent; assumption].
  - rewrite vote_for_feature_state. apply add_vote_consistent; assumption.
  - destruct (remove_vote_from_feature_state d feature_id data)
      as [->|[uid ->]];
      [assumption | apply remove_vote_consistent; assumption].
  - assumption.
  - rewrite get_feature_votes_state; assumption.
  - apply save_consistent; assumption.
  - apply feature_delete_consistent; assumption.
  - apply add_vote_consistent; assumption.
  - apply remove_vote_consistent; assumption.
Qed.

Lemma run_consistent (cs : list call) (d : db) :
  consistent d -> consistent (run d cs).
Proof.
  revert d; induction cs as [|c cs IH]; intros d H; simpl; [assumption|].
  apply IH. apply exec_consistent. assumption.
Qed.

Lemma empty_db_consistent : consistent empty_db.
Proof.
  unfold consistent, empty_db; simpl.
  repeat split; try constructor. intros v [].
Qed.

Lemma sequential_consistent (d : db) : sequential d -> consistent d.
Proof.
  intros [cs ->]. apply run_consistent. apply empty_db_consistent.
Qed.

Lemma sequential_schema_ok (d : db) : sequential d -> schema_ok d = true.
Proof. intros H. apply schema_ok_iff, sequential_consistent, H. Qed.

(** ** No orphaned votes *)

(** Referential integrity alone is preserved by a call that keeps the
    feature ids and adds votes only for existing features. *)
Lemma no_orphans_kept (d d' : db) :
  (forall i, In i (map f_id (features d)) -> In i (map f_id (features d'))) ->
  (forall v, In v (votes d') ->
     In v (votes d) \/ In (v_feature_id v) (map f_id (features d))) ->
  no_orphans d = true -> no_orphans d' = true.
Proof.
  intros Hf Hv H. rewrite no_orphans_iff in *. intros v Hin.
  assert (Hid : In (v_feature_id v) (map f_id (features d'))).
  { apply Hf. destruct (Hv v Hin) as [Hold|Hnew]; [|assumption].
    destruct (H v Hold) as [f [Hf' E]]. rewrite <- E. apply in_map; assumption. }
  apply in_map_iff in Hid. destruct Hid as [f [E Hf']].
  exists f. split; assumption.
Qed.

Lemma save_no_orphans (d : db) (now : Z) (self : feature_obj) :
  no_orphans d = true -> no_orphans (fst (fst (Feature.save d now self))) = true.
Proof.
  unfold Feature.save. destruct (o_id self) as [id|].
  - destruct (Sql.update_feature d now id _ _) as [d'|] eqn:E; simpl; [|auto].
    apply update_feature_inv in E. destruct E as [_ [_ [_ E]]]. revert E.
    destruct (o_title self) as [t|]; [|intros [-> _]; auto].
    intros ->. apply no_orphans_kept; simpl.
    + intros i Hi. rewrite update_feature_ids. assumption.
    + auto.
  - destruct (Sql.insert_feature d now _ _) as [[d' id]|] eqn:E; simpl;
      [|auto].
    apply insert_feature_inv in E. destruct E as [t0 [_ [_ [_ [-> ->]]]]].
    apply no_orphans_kept; simpl.
    + intros i Hi. rewrite map_app. apply in_or_app. left; assumption.
    + auto.
Qed.

Lemma add_vote_no_orphans (d : db) (now : Z) (fresh : str) (fid : Z)
    (uid : option str) :
  no_orphans d = true ->
  no_orphans (fst (Vote.add_vote d now fresh fid uid)) = true.
Proof.
  destruct (add_vote_state d now fresh fid uid) as [->|[u [Hf Ei]]]; [auto|].
  apply insert_vote_inv in Ei. destruct Ei as [_ [_ [_ ->]]].
  apply no_orphans_kept; simpl; [auto|].
  intros v Hin. apply in_app_or in Hin. destruct Hin as [Hin|[<-|[]]];
    [left; assumption | right; simpl].
  destruct Hf as [f [Hin E]]. rewrite <- E. apply in_map; assumption.
Qed.

Lemma remove_vote_no_orphans (d : db) (fid : Z) (uid : str) :
  no_orphans d = true -> no_orphans (fst (Vote.remove_vote d fid uid)) = true.
Proof.
  rewrite remove_vote_state. destruct (int_ok fid && text_ok uid); [|auto].
  apply no_orphans_kept; simpl; [auto|].
  intros v Hin. apply filter_In in Hin. tauto.
Qed.

Lemma feature_delete_no_orphans (d : db) (fid : Z) :
  no_orphans d = true -> no_orphans (fst (Feature.delete d fid)) = true.
Proof.
  rewrite !no_orphans_iff. simpl. intros H v Hin.
  apply filter_In in Hin. destruct Hin as [Hin Hne].
  destruct (H v Hin) as [f [Hf E]]. exists f. split; [|assumption].
  apply filter_In. split; [assumption|].
  unfold vote_of_feature in Hne. unfold feature_has_id. rewrite E. exact Hne.
Qed.

Lemma exec_no_orphans (d : db) (c : call) :
  no_orphans d = true -> no_orphans (exec d c) = true.
Proof.
  intros H. destruct c; simpl.
  - destruct (create_feature_state d now data) as [->|[self ->]];
      [assumption | apply save_no_orphans; assumption].
  - assumption.
  - rewrite get_feature_state; assumption.
  - destruct (delete_feature_state d feature_id) as [->| ->];
      [assumption | apply feature_delete_no_orphans; assumption].
  - rewrite vote_for_feature_state. apply add_vote_no_orphans; assumption.
  - destruct (remove_vote_from_feature_state d feature_id data)
      as [->|[uid ->]];
      [assumption | apply remove_vote_no_orphans; assumption].
  - assumption.
  - rewrite get_feature_votes_state; assumption.
  - apply save_no_orphans; assumption.
  - apply feature_delete_no_orphans; assumption.
  - apply add_vote_no_orphans; assumption.
  - apply remove_vote_no_orphans; assumption.
Qed.

(** After [Feature.delete], no vote row references the feature and no
    feature row has the id, whatever the state was. *)
Lemma feature_delete_sweeps (d : db) (fid : Z) :
  let d' := fst (Feature.delete d fid) in
  Vote.get_votes_by_feature d' fid = []
  /\ (forall v, In v (votes d') -> v_feature_id v <> fid)
  /\ ~ feature_exists d' fid.
Proof.
  simpl.
  assert (Hv : forall v,
             In v (filter (fun v => negb (vote_of_feature fid v)) (votes d)) ->
             v_feature_id v <> fid).
  { intros v Hin. apply filter_In in Hin. destruct Hin as [_ Hne].
    unfold vote_of_feature in Hne. apply negb_true_iff, Z.eqb_neq in Hne.
    exact Hne. }
  split; [|split].
  - unfold Vote.get_votes_by_feature; simpl.
    destruct (filter (vote_of_feature fid) _) as [|v l] eqn:E; [reflexivity|].
    assert (Hin : In v (v :: l)) by (left; reflexivity).
    rewrite <- E in Hin. apply filter_In in Hin. destruct Hin as [Hin Hm].
    apply Hv in Hin. unfold vote_of_feature in Hm. apply Z.eqb_eq in Hm.
    contradiction.
  - exact Hv.
  - intros [f [Hin E]]. simpl in Hin. apply filter_In in Hin.
    destruct Hin as [_ Hne]. unfold feature_has_id in Hne.
    apply negb_true_iff, Z.eqb_neq in Hne. contradiction.
Qed.

(** [Feature.get_by_id], case by case. *)
Lemma get_by_id_cases (d : db) (fid : Z) :
  (int_ok fid = false /\ Feature.get_by_id d fid = Raise)
  \/ (int_ok fid = true /\ ~ feature_exists d fid
      /\ Feature.get_by_id d fid = Done None)
  \/ (int_ok fid = true /\ feature_exists d fid
      /\ exists o, Feature.get_by_id d fid = Done (Some o)).
Proof.
  unfold Feature.get_by_id. destruct (int_ok fid); [right|left; auto].
  cbn [negb]. destruct (Sql.select_feature d fid) as [f|] eqn:E.
  - right. repeat split; [|eexists; reflexivity].
    apply feature_exists_iff, find_some_iff.
    unfold Sql.select_feature in E. congruence.
  - left. apply select_feature_none in E. auto.
Qed.

Lemma get_by_id_none (d : db) (fid : Z) :
  int_ok fid = true -> ~ feature_exists d fid ->
  Feature.get_by_id d fid = Done None.
Proof.
  intros Hi Hf.
  destruct (get_by_id_cases d fid) as [[E _]|[[_ [_ E]]|[_ [Hx _]]]];
    [congruence | exact E | contradiction].
Qed.

Lemma get_by_id_raise (d : db) (fid : Z) :
  int_ok fid = false -> Feature.get_by_id d fid = Raise.
Proof.
  intros Hi.
  destruct (get_by_id_cases d fid) as [[_ E]|[[E _]|[E _]]];
    [exact E | congruence | congruence].
Qed.

Lemma get_by_id_some (d : db) (fid : Z) :
  int_ok fid = true -> feature_exists d fid ->
  exists o, Feature.get_by_id d fid = Done (Some o).
Proof.
  intros Hi Hf.
  destruct (get_by_id_cases d fid) as [[E _]|[[_ [Hn _]]|[_ [_ E]]]];
    [congruence | contradiction | exact E].
Qed.

(** Served one call at a time, the backend keeps every vote row on an
    existing feature: every call (the handlers that create a feature, cast
    or retract a vote, delete a feature, and the model methods under them)
    preserves that; and once a delete has run, through [Feature.delete] in
    any state or through the [delete_feature] handler in a state without
    orphans, the votes of the feature are an empty list, no vote row
    references it and no feature row has its id. *)
Lemma sequential_no_orphans :
  (forall d, sequential d ->
     forall v, In v (votes d) -> feature_exists d (v_feature_id v))
  /\ (forall d c, no_orphans d = true -> no_orphans (exec d c) = true)
  /\ (forall d fid,
        let d' := fst (Feature.delete d fid) in
        Vote.get_votes_by_feature d' fid = []
        /\ (forall v, In v (votes d') -> v_feature_id v <> fid)
        /\ ~ feature_exists d' fid)
  /\ (forall d fid, no_orphans d = true -> int_ok fid = true ->
        let d' := fst (Routes.delete_feature d fid) in
        Vote.get_votes_by_feature d' fid = []
        /\ (forall v, In v (votes d') -> v_feature_id v <> fid)
        /\ ~ feature_exists d' fid
        /\ no_orphans d' = true).
Proof.
  split; [|split; [|split]].
  - intros d Hr v Hin. apply sequential_consistent in Hr.
    destruct Hr as [_ [_ [_ Ho]]]. apply Ho; assumption.
  - exact exec_no_orphans.
  - exact feature_delete_sweeps.
  - intros d fid Hno Hi d'.
    assert (Hno' : no_orphans d' = true)
      by (apply (exec_no_orphans d (DeleteFeature fid)); assumption).
    subst d'. unfold Routes.delete_feature in *.
    destruct (get_by_id_cases d fid) as [[E _]|[[_ [E Eg]]|[_ [_ [o Eg]]]]];
      [congruence| |]; rewrite Eg in *.
    + simpl.
      assert (Hv : forall v, In v (votes d) -> v_feature_id v <> fid).
      { intros v Hin Heq. apply E. rewrite <- Heq.
        rewrite no_orphans_iff in Hno. destruct (Hno v Hin) as [f [Hf Ef]].
        exists f. split; assumption. }
      repeat split; auto.
      unfold Vote.get_votes_by_feature.
      destruct (filter (vote_of_feature fid) (votes d)) as [|v l] eqn:Ef;
        [reflexivity|].
      assert (Hin : In v (v :: l)) by (left; reflexivity).
      rewrite <- Ef in Hin. apply filter_In in Hin. destruct Hin as [Hin Hm].
      apply Hv in Hin. unfold vote_of_feature in Hm. apply Z.eqb_eq in Hm.
      contradiction.
    + destruct (feature_delete_sweeps d fid) as [H1 [H2 H3]].
      destruct (Feature.delete d fid) as [d1 []]; simpl in *; auto.
Qed.

(** ** A vote cast while its feature is deleted *)

Lemma run_running (cs : list call) (d : db) (ts : list thread) :
  running d ts -> running (run d cs) ts.
Proof.
  revert d; induction cs as [|c cs IH]; intros d H; simpl; [exact H|].
  apply IH. apply running_call. exact H.
Qed.

(** A state the backend reaches when it serves one call at a time is a
    state the running backend reaches. *)
Lemma sequential_reachable (d : db) : sequential d -> reachable d.
Proof.
  intros [cs ->]. exists []. apply run_running. apply running_init.
Qed.

Lemma delete_race_running : running (fst delete_race) (snd delete_race).
Proof.
  pose proof (running_call (CreateFeature 100 (new_feature "Dark Mode"))
                           running_init) as H0.
  pose proof (running_start 101 1 (lit "u1") H0) as H1.
  pose proof (running_step 0 (running_step 0 H1)) as H3.
  exact (running_step 0 (running_call (DeleteFeature 1) H3)).
Qed.

(** C2 (the code leaves an orphaned vote).  Served one call at a time, the
    backend keeps every vote row on an existing feature.  The running
    backend does not: an [add_vote] call for the one feature runs its two
    SELECTs, the [delete_feature] request for the feature is served and
    answers 200, and the call runs its INSERT.  The state is one the
    backend reaches; it holds no feature and one vote row, which references
    the deleted feature; the call has answered 201. *)
Theorem delete_race_leaves_orphan :
  (forall d, sequential d -> no_orphans d = true)
  /\ reachable (fst delete_race)
  /\ features (fst delete_race) = []
  /\ votes (fst delete_race) = [mk_vote_row 1 1 (lit "u1") 101]
  /\ ~ feature_exists (fst delete_race) 1
  /\ no_orphans (fst delete_race) = false
  /\ map thread_status (snd delete_race) = [Some 201].
Proof.
  split.
  - intros d Hs. apply sequential_schema_ok in Hs. unfold schema_ok in Hs.
    apply andb_true_iff in Hs. tauto.
  - split; [exists (snd delete_race); exact delete_race_running|].
    split; [reflexivity|]. split; [reflexivity|].
    split; [|split; reflexivity].
    intros [f [Hin _]]. exact Hin.
Qed.

(** ** Retracting a vote *)

Lemma filter_all {A} (p : A -> bool) (l : list A) :
  existsb (fun x => negb (p x)) l = false -> filter p l = l.
Proof.
  induction l as [|x l IH]; simpl; [reflexivity|].
  rewrite orb_false_iff, negb_false_iff. intros [-> H].
  rewrite IH by assumption. reflexivity.
Qed.

Lemma filter_none {A} (p : A -> bool) (l : list A) :
  existsb p l = false -> filter p l = [].
Proof.
  induction l as [|x l IH]; simpl; [reflexivity|].
  rewrite orb_false_iff. intros [-> H]. auto.
Qed.

Lemma existsb_negb_negb {A} (p : A -> bool) (l : list A) :
  existsb (fun x => negb (negb (p x))) l = existsb p l.
Proof.
  induction l as [|x l IH]; simpl; [reflexivity|].
  rewrite negb_involutive, IH. reflexivity.
Qed.

Lemma db_eta (d : db) :
  mk_db (features d) (votes d) (features_seq d) (votes_seq d) = d.
Proof. destruct d; reflexivity. Qed.

Lemma remove_vote_found (d : db) (fid : Z) (uid : str) :
  int_ok fid = true -> text_ok uid = true ->
  vote_exists d fid uid ->
  Vote.remove_vote d fid uid =
  (without_vote d fid uid, mk_vote_result true msg_vote_removed None).
Proof.
  intros Hi Ht H. unfold Vote.remove_vote, Sql.delete_vote.
  rewrite Hi, Ht. cbn [negb andb].
  apply vote_exists_iff, existsb_exists in H. destruct H as [v [Hin Hm]].
  assert (Hf : In v (filter (vote_matches fid uid) (votes d)))
    by (apply filter_In; split; assumption).
  destruct (filter (vote_matches fid uid) (votes d)); [destruct Hf|].
  reflexivity.
Qed.

Lemma remove_vote_missing (d : db) (fid : Z) (uid : str) :
  int_ok fid = true -> text_ok uid = true ->
  ~ vote_exists d fid uid ->
  Vote.remove_vote d fid uid =
  (d, mk_vote_result false msg_vote_not_found None).
Proof.
  intros Hi Ht H. rewrite vote_exists_iff, not_true_iff_false in H.
  unfold Vote.remove_vote, Sql.delete_vote.
  rewrite Hi, Ht. cbn [negb andb].
  rewrite (filter_none _ _ H). simpl.
  rewrite filter_all by (rewrite existsb_negb_negb; exact H).
  rewrite db_eta. reflexivity.
Qed.

Lemma remove_vote_raises (d : db) (fid : Z) (uid : str) :
  int_ok fid && text_ok uid = false ->
  Vote.remove_vote d fid uid =
  (d, mk_vote_result false msg_error_removing_vote None).
Proof. intros H. unfold Vote.remove_vote. rewrite H. reflexivity. Qed.

(** The pair of a vote row of a storable state can be bound. *)
Lemma storable_vote (d : db) (fid : Z) (uid : str) :
  storable d = true -> vote_exists d fid uid ->
  int_ok fid = true /\ text_ok uid = true.
Proof.
  unfold storable. rewrite andb_true_iff, !forallb_forall.
  intros [_ H] [v [Hin [<- <-]]]. apply andb_true_iff. exact (H v Hin).
Qed.

Lemma without_vote_gone (d : db) (fid : Z) (uid : str) :
  ~ vote_exists (without_vote d fid uid) fid uid.
Proof.
  intros [v [Hin [Hf Hu]]]. simpl in Hin. apply filter_In in Hin.
  destruct Hin as [_ Hn]. apply negb_true_iff in Hn.
  assert (vote_matches fid uid v = true) by (apply vote_matches_iff; auto).
  congruence.
Qed.

Lemma without_vote_rows (d : db) (fid : Z) (uid : str) (v : vote_row) :
  In v (votes (without_vote d fid uid)) <->
  In v (votes d) /\ ~ (v_feature_id v = fid /\ v_user_id v = uid).
Proof.
  simpl. rewrite filter_In, negb_true_iff, <- not_true_iff_false,
    vote_matches_iff. tauto.
Qed.

(** Splitting the votes of a feature into those of one user and the rest. *)
Lemma count_split (fid : Z) (uid : str) (l : list vote_row) :
  length (filter (vote_of_feature fid) l) =
  (length (filter (vote_of_feature fid)
                  (filter (fun v => negb (vote_matches fid uid v)) l))
   + length (filter (vote_matches fid uid) l))%nat.
Proof.
  induction l as [|v l IH]; simpl; [reflexivity|].
  destruct (vote_matches fid uid v) eqn:Em; simpl.
  - rewrite (vote_matches_feature _ _ _ Em). simpl. lia.
  - destruct (vote_of_feature fid v); simpl; lia.
Qed.

Lemma unique_match_count (fid : Z) (uid : str) (l : list vote_row) :
  unique_pairs l = true -> existsb (vote_matches fid uid) l = true ->
  length (filter (vote_matches fid uid) l) = 1%nat.
Proof.
  induction l as [|v l IH]; simpl; [discriminate|].
  rewrite andb_true_iff, negb_true_iff. intros [Hn Hu].
  destruct (vote_matches fid uid v) eqn:Ev; simpl.
  - intros _. apply vote_matches_iff in Ev. destruct Ev as [<- <-].
    rewrite (filter_none _ _ Hn). reflexivity.
  - intros H. apply IH; assumption.
Qed.

Lemma count_without_vote (d : db) (fid : Z) (uid : str) :
  unique_pairs (votes d) = true -> vote_exists d fid uid ->
  S (Vote.get_vote_count (without_vote d fid uid) fid)
  = Vote.get_vote_count d fid.
Proof.
  intros Hu Hv. apply vote_exists_iff in Hv.
  unfold Vote.get_vote_count; simpl.
  rewrite (count_split fid uid (votes d)).
  rewrite (unique_match_count _ _ _ Hu Hv). lia.
Qed.

Lemma remove_vote_route (d : db) (fid : Z) (uid : str) :
  uid <> [] ->
  Routes.remove_vote_from_feature d fid (Some (mk_vote_payload (Some uid)))
  = let (d', result) := Vote.remove_vote d fid uid in
    if res_success result
    then (d', (VoteCountJson (res_message result)
                             (Vote.get_vote_count d' fid), 200))
    else (d', (Error (res_message result), 404)).
Proof.
  intros H. unfold Routes.remove_vote_from_feature; simpl.
  destruct uid; [congruence | reflexivity].
Qed.

(** C7 (amended). [retractVote] ([remove_vote_from_feature] over
    [Vote.remove_vote]).  When a vote row [(feature_id, user_id)] exists in
    a state whose rows hold bound values, [Vote.remove_vote] succeeds and
    the handler answers 200 with the vote count of the feature in the new
    state; the new state differs from the old one only in that the rows
    matching the pair are gone, and under the UNIQUE constraint the count
    is one less than before.  When no such row exists and the pair can be
    bound, [Vote.remove_vote] reports "Vote not found", the handler answers
    404, and the state is the same as before.  When the feature id is
    outside the 64-bit range or the user id is not encodable,
    [Vote.remove_vote] reports "Error removing vote", which the handler
    answers with 404 as well, and the state is the same as before.  The
    handler is reached with the user id of the request when that id is not
    empty. *)
Theorem retract_vote_spec (d : db) (fid : Z) (uid : str) :
  let req := Some (mk_vote_payload (Some uid)) in
  (storable d = true -> vote_exists d fid uid ->
   let d' := without_vote d fid uid in
   Vote.remove_vote d fid uid =
   (d', mk_vote_result true msg_vote_removed None)
   /\ (uid <> [] ->
       Routes.remove_vote_from_feature d fid req =
       (d', (VoteCountJson msg_vote_removed (Vote.get_vote_count d' fid),
             200)))
   /\ features d' = features d
   /\ ~ vote_exists d' fid uid
   /\ (forall v, In v (votes d') <->
                 In v (votes d) /\ ~ (v_feature_id v = fid /\ v_user_id v = uid))
   /\ (unique_pairs (votes d) = true ->
       S (Vote.get_vote_count d' fid) = Vote.get_vote_count d fid))
  /\ (int_ok fid = true -> text_ok uid = true -> ~ vote_exists d fid uid ->
      Vote.remove_vote d fid uid =
      (d, mk_vote_result false msg_vote_not_found None)
      /\ (uid <> [] ->
          Routes.remove_vote_from_feature d fid req =
          (d, (Error msg_vote_not_found, 404))))
  /\ (int_ok fid && text_ok uid = false ->
      Vote.remove_vote d fid uid =
      (d, mk_vote_result false msg_error_removing_vote None)
      /\ (uid <> [] ->
          Routes.remove_vote_from_feature d fid req =
          (d, (Error msg_error_removing_vote, 404)))).
Proof.
  intros req. split; [|split].
  - intros Hs Hv d'. destruct (storable_vote Hs Hv) as [Hi Ht].
    split; [apply remove_vote_found; assumption|].
    split; [|split; [reflexivity|split; [apply without_vote_gone|split]]].
    + intros Hu. unfold req. rewrite (remove_vote_route d fid Hu).
      rewrite (remove_vote_found Hi Ht Hv). reflexivity.
    + apply without_vote_rows.
    + intros Hu. apply count_without_vote; assumption.
  - intros Hi Ht Hv. split; [apply remove_vote_missing; assumption|].
    intros Hu. unfold req. rewrite (remove_vote_route d fid Hu).
    rewrite (remove_vote_missing Hi Ht Hv). reflexivity.
  - intros Hb. split; [apply remove_vote_raises; exact Hb|].
    intros Hu. unfold req. rewrite (remove_vote_route d fid Hu).
    rewrite (@remove_vote_raises d fid uid Hb). reflexivity.
Qed.

(** C7 as the claim has it fails at a feature id that cannot be bound: the
    state holds no vote row of the pair, and [Vote.remove_vote] does not
    report "Vote not found" but "Error removing vote". *)
Lemma retract_vote_counterexample :
  ~ vote_exists one_feature 9223372036854775808 (lit "u1")
  /\ Vote.remove_vote one_feature 9223372036854775808 (lit "u1")
     = (one_feature, mk_vote_result false msg_error_removing_vote None)
  /\ msg_error_removing_vote <> msg_vote_not_found.
Proof.
  split; [|split].
  - intros [v [Hin _]]. exact Hin.
  - reflexivity.
  - discriminate.
Qed.

(** ** Retracting and casting again *)

Lemma recast_state (d : db) (now : Z) (fresh : str) (fid : Z) (uid : str) :
  int_ok fid = true -> text_ok uid = true ->
  unique_pairs (votes d) = true ->
  feature_exists d fid -> vote_exists d fid uid ->
  exists d2,
    Vote.add_vote (without_vote d fid uid) now fresh fid (Some uid)
    = (d2, mk_vote_result true msg_vote_added (Some uid))
    /\ Vote.get_vote_count d2 fid = Vote.get_vote_count d fid.
Proof.
  intros Hi Ht Hu Hf Hv.
  destruct (add_vote_cases (without_vote d fid uid) now fresh fid uid)
    as [_ [_ [_ [_ Hok]]]].
  eexists. split.
  - apply Hok; [exact Hi | exact Ht | exact Hf | apply without_vote_gone].
  - rewrite (count_after_insert (without_vote d fid uid)).
    apply count_without_vote; assumption.
Qed.

(** C8. In a state that satisfies the UNIQUE constraint, whose rows hold
    bound values, and that holds a vote [(feature_id, user_id)] on an
    existing feature with vote count [c]: retracting the vote succeeds,
    casting it again with the same user id right afterwards succeeds, and
    the count the second call returns is [c].  This holds for
    [Vote.remove_vote] followed by [Vote.add_vote] and
    [Vote.get_vote_count], and for the two handlers when the user id of the
    requests is not empty. *)
Theorem retract_then_recast (d : db) (now : Z) (fresh : str) (fid : Z)
    (uid : str) :
  unique_pairs (votes d) = true -> storable d = true ->
  feature_exists d fid -> vote_exists d fid uid ->
  let c := Vote.get_vote_count d fid in
  let req := Some (mk_vote_payload (Some uid)) in
  exists d1 d2,
    Vote.remove_vote d fid uid =
    (d1, mk_vote_result true msg_vote_removed None)
    /\ Vote.add_vote d1 now fresh fid (Some uid) =
       (d2, mk_vote_result true msg_vote_added (Some uid))
    /\ Vote.get_vote_count d2 fid = c
    /\ (uid <> [] ->
        Routes.remove_vote_from_feature d fid req =
        (d1, (VoteCountJson msg_vote_removed (Nat.pred c), 200))
        /\ Routes.vote_for_feature d1 now fresh fid req =
           (d2, (VoteJson msg_vote_added (Some uid) c, 201))).
Proof.
  intros Hu Hs Hf Hv c req. destruct (storable_vote Hs Hv) as [Hi Ht].
  destruct (recast_state now fresh Hi Ht Hu Hf Hv) as [d2 [Hadd Hc]].
  exists (without_vote d fid uid), d2.
  split; [apply remove_vote_found; assumption|].
  split; [exact Hadd|]. split; [exact Hc|].
  intros Hne. split.
  - unfold req. rewrite (remove_vote_route d fid Hne).
    rewrite (remove_vote_found Hi Ht Hv). cbn [res_success res_message].
    subst c. rewrite <- (count_without_vote Hu Hv). reflexivity.
  - unfold Routes.vote_for_feature, req.
    rewrite (voter_id_given fresh Hne), Hadd.
    cbn [res_success res_message res_user_id]. rewrite Hc. reflexivity.
Qed.

(** ** The ranking query *)

Section OrderByFacts.
Variable A : Type.
Variable le : A -> A -> bool.
Hypothesis le_total : forall x y, le x y = false -> le y x = true.
Hypothesis le_trans :
  forall x y z, le x y = true -> le y z = true -> le x z = true.

Lemma insert_by_perm (x : A) (l : list A) :
  Permutation (x :: l) (insert_by le x l).
Proof.
  induction l as [|y l IH]; simpl; [apply Permutation_refl|].
  destruct (le x y); [apply Permutation_refl|].
  eapply perm_trans; [apply perm_swap|]. apply perm_skip. exact IH.
Qed.

Lemma order_by_perm (l : list A) : Permutation l (order_by le l).
Proof.
  induction l as [|x l IH]; simpl; [constructor|].
  eapply perm_trans; [apply perm_skip; exact IH | apply insert_by_perm].
Qed.

Lemma insert_by_sorted (x : A) (l : list A) :
  StronglySorted (fun a b => le a b = true) l ->
  StronglySorted (fun a b => le a b = true) (insert_by le x l).
Proof.
  induction l as [|y l IH]; simpl; intros H.
  - constructor; constructor.
  - inversion H as [|? ? Hs Hall]; subst.
    destruct (le x y) eqn:E.
    + constructor; [exact H|]. constructor; [exact E|].
      eapply Forall_impl; [|exact Hall].
      intros z Hz. eapply le_trans; eassumption.
    + constructor; [apply IH; exact Hs|].
      eapply Permutation_Forall; [apply insert_by_perm|].
      constructor; [apply le_total; exact E | exact Hall].
Qed.

Lemma order_by_sorted (l : list A) :
  StronglySorted (fun a b => le a b = true) (order_by le l).
Proof.
  induction l as [|x l IH]; simpl; [constructor|].
  apply insert_by_sorted; exact IH.
Qed.

End OrderByFacts.

Lemma rank_leb_iff (r1 r2 : ranked) :
  rank_leb r1 r2 = true <-> ranks_before r1 r2.
Proof.
  unfold rank_leb, ranks_before.
  rewrite orb_true_iff, andb_true_iff, Nat.ltb_lt, Nat.eqb_eq, Z.leb_le.
  tauto.
Qed.

Lemma rank_leb_total (r1 r2 : ranked) :
  rank_leb r1 r2 = false -> rank_leb r2 r1 = true.
Proof.
  intros H. apply rank_leb_iff. apply not_true_iff_false in H.
  rewrite rank_leb_iff in H. unfold ranks_before in *. lia.
Qed.

Lemma rank_leb_trans (r1 r2 r3 : ranked) :
  rank_leb r1 r2 = true -> rank_leb r2 r3 = true -> rank_leb r1 r3 = true.
Proof. rewrite !rank_leb_iff. unfold ranks_before. lia. Qed.

Lemma StronglySorted_weaken {A} (P Q : A -> A -> Prop) (l : list A) :
  (forall x y, P x y -> Q x y) -> StronglySorted P l -> StronglySorted Q l.
Proof.
  intros HPQ H. induction H as [|x l Hs IH Hall]; constructor; [exact IH|].
  eapply Forall_impl; [|exact Hall]. intros y. apply HPQ.
Qed.

Lemma ranking_sorted (d : db) :
  StronglySorted ranks_before (Feature.get_all_with_votes d).
Proof.
  unfold Feature.get_all_with_votes.
  eapply StronglySorted_weaken;
    [|apply (@order_by_sorted _ rank_leb rank_leb_total rank_leb_trans)].
  intros r1 r2 H. apply rank_leb_iff. exact H.
Qed.

Lemma ranking_perm (d : db) :
  Permutation (Feature.with_votes d) (Feature.get_all_with_votes d).
Proof. apply order_by_perm. Qed.

Lemma with_votes_features (d : db) :
  map rk_feature (Feature.with_votes d) = features d.
Proof.
  unfold Feature.with_votes. rewrite map_map. simpl. apply map_id.
Qed.

Lemma ranking_rows (d : db) (r : ranked) :
  In r (Feature.get_all_with_votes d) ->
  In (rk_feature r) (features d)
  /\ rk_vote_count r = Vote.get_vote_count d (f_id (rk_feature r)).
Proof.
  intros H. apply (Permutation_in _ (Permutation_sym (ranking_perm d))) in H.
  unfold Feature.with_votes in H. apply in_map_iff in H.
  destruct H as [f [<- Hin]]. simpl. split; [assumption | reflexivity].
Qed.

(** C4. [listFeatures] ([get_features] over [Feature.get_all_with_votes]):
    the rows are the features of the state, each once and with its vote
    count, in an order in which every row has more votes than the rows
    after it or equally many and a creation time not earlier; a listing
    does not change the state, so a second call without a mutation in
    between answers with the same rows in the same order. *)
Theorem list_features_ranked (d : db) :
  StronglySorted ranks_before (Feature.get_all_with_votes d)
  /\ Permutation (Feature.with_votes d) (Feature.get_all_with_votes d)
  /\ map rk_feature (Feature.with_votes d) = features d
  /\ (forall r, In r (Feature.get_all_with_votes d) ->
        In (rk_feature r) (features d)
        /\ rk_vote_count r = Vote.get_vote_count d (f_id (rk_feature r)))
  /\ Routes.get_features d None None =
     (d, (FeatureList (Feature.get_all_with_votes d)
                      (length (features d)) (length (features d)), 200))
  /\ (forall limit offset,
        fst (Routes.get_features d limit offset) = d
        /\ Routes.get_features (fst (Routes.get_features d limit offset))
                               limit offset
           = Routes.get_features d limit offset).
Proof.
  split; [apply ranking_sorted|]. split; [apply ranking_perm|].
  split; [apply with_votes_features|]. split; [apply ranking_rows|].
  assert (Hlen : length (Feature.get_all_with_votes d) = length (features d)).
  { rewrite <- (Permutation_length (ranking_perm d)).
    unfold Feature.with_votes. apply length_map. }
  split.
  - unfold Routes.get_features; simpl. rewrite Hlen. reflexivity.
  - intros limit offset. split; reflexivity.
Qed.

(** ** Pagination *)

Lemma py_slice_window {A} (l : list A) (o k : Z) :
  0 <= o -> 0 <= k ->
  py_slice l o (o + k) = firstn (Z.to_nat k) (skipn (Z.to_nat o) l).
Proof.
  intros Ho Hk. unfold py_slice, slice_index.
  destruct (o <? 0) eqn:E1; [apply Z.ltb_lt in E1; lia|].
  destruct (o + k <? 0) eqn:E2; [apply Z.ltb_lt in E2; lia|].
  destruct (Z_le_gt_dec (Z.of_nat (length l)) o) as [Hlen|Hlen].
  - rewrite Z.min_r by lia. rewrite !skipn_all2 by lia.
    rewrite !firstn_nil. reflexivity.
  - rewrite (Z.min_l o) by lia.
    destruct (Z_le_gt_dec (o + k) (Z.of_nat (length l))) as [Hk'|Hk'].
    + rewrite Z.min_l by lia. f_equal. lia.
    + rewrite Z.min_r by lia.
      rewrite !firstn_all2; [reflexivity| |]; rewrite length_skipn; lia.
Qed.

(** With a limit other than zero, the page is the window [[o, o+k)] of the
    ranking. *)
Lemma get_features_window (d : db) (k o : Z) :
  0 < k -> 0 <= o ->
  Routes.get_features d (Some k) (Some o) =
  (d, (FeatureList
         (firstn (Z.to_nat k) (skipn (Z.to_nat o) (Feature.get_all_with_votes d)))
         (length (Feature.get_all_with_votes d))
         (length (firstn (Z.to_nat k)
                         (skipn (Z.to_nat o) (Feature.get_all_with_votes d)))),
       200)).
Proof.
  intros Hk Ho. unfold Routes.get_features, truthy_int.
  destruct (k =? 0) eqn:E; [apply Z.eqb_eq in E; lia|]. simpl.
  rewrite py_slice_window by lia. reflexivity.
Qed.

(** With a limit of zero the handler does not slice: the answer is the one
    for a request without limit, whatever the offset. *)
Lemma get_features_zero_limit (d : db) (offset : option Z) :
  Routes.get_features d (Some 0) offset =
  (d, (FeatureList (Feature.get_all_with_votes d)
                   (length (Feature.get_all_with_votes d))
                   (length (Feature.get_all_with_votes d)), 200)).
Proof. reflexivity. Qed.

(** C5. The page for [limit=0]: [get_features] skips the slicing when the
    limit is zero, and answers with the whole ranking where the window
    [[o, o+0)] is empty.  Evaluated on a state with two features. *)
Theorem get_features_limit_zero :
  Routes.get_features two_features (Some 0) (Some 0) =
  (two_features,
   (FeatureList (Feature.get_all_with_votes two_features) 2 2, 200))
  /\ length (Feature.get_all_with_votes two_features) = 2%nat
  /\ firstn 0 (skipn 0 (Feature.get_all_with_votes two_features)) = [].
Proof. vm_compute. repeat split. Qed.

(** ** Validation of a new feature *)

Lemma truthy_false (s : str) : truthy s = false <-> s = [].
Proof. destruct s; simpl; split; congruence. Qed.

Lemma lstrip_length (s : str) : (length (lstrip s) <= length s)%nat.
Proof.
  induction s as [|c s IH]; simpl; [lia|].
  destruct (is_space c); simpl; lia.
Qed.

Lemma strip_length (s : str) : (length (strip s) <= length s)%nat.
Proof.
  unfold strip, rstrip. rewrite length_rev.
  eapply Nat.le_trans; [apply lstrip_length|]. rewrite length_rev.
  apply lstrip_length.
Qed.

Lemma trimmed_rule_implies_raw (title description : str) :
  trimmed_title_rule title description -> raw_title_rule title description.
Proof.
  unfold trimmed_title_rule, raw_title_rule.
  pose proof (strip_length title). intuition lia.
Qed.

(** The checks of [create_feature], in the order the handler makes them. *)
Lemma create_feature_rejects (d : db) (now : Z)
    (data : option feature_payload) :
  raw_title_rule (title_of data) (description_of data) ->
  exists e, Routes.create_feature d now data = (d, (Error e, 400)).
Proof.
  unfold raw_title_rule, title_of, description_of, Routes.create_feature.
  intros H.
  destruct (negb (feature_payload_truthy data)); [eexists; reflexivity|].
  destruct (negb (truthy_opt _)); [eexists; reflexivity|].
  destruct (negb (truthy (strip _))) eqn:E1; [eexists; reflexivity|].
  destruct (200 <? _)%nat eqn:E2; [eexists; reflexivity|].
  destruct (1000 <? _)%nat eqn:E3; [eexists; reflexivity|].
  exfalso. apply negb_false_iff in E1.
  apply Nat.ltb_ge in E2. apply Nat.ltb_ge in E3.
  destruct H as [H|[H|H]]; [|lia|lia].
  rewrite H in E1. discriminate.
Qed.

(** A request that passes the checks is answered by what [Feature.save]
    returns: the INSERT binds the trimmed title and description. *)
Lemma create_feature_accepts (d : db) (now : Z)
    (data : option feature_payload) :
  ~ raw_title_rule (title_of data) (description_of data) ->
  let id := next_rowid (features_seq d) (map f_id (features d)) in
  Routes.create_feature d now data =
  if text_ok (strip (title_of data)) && text_ok (strip (description_of data))
  then
    (mk_db (features d ++
              [mk_feature_row id (strip (title_of data))
                              (Some (strip (description_of data))) now now])
           (votes d) id (votes_seq d),
     (FeatureJson (Some id) (Some (strip (title_of data)))
                  (Some (strip (description_of data))) None None 0, 201))
  else (d, (Error msg_create_failed, 500)).
Proof.
  unfold raw_title_rule, title_of, description_of. intros H.
  assert (Hs : truthy (strip (get_or_empty
             match data with Some p => p_title p | None => None end)) = true).
  { destruct (truthy _) eqn:E; [reflexivity|].
    apply truthy_false in E. tauto. }
  assert (Ht : truthy_opt
             match data with Some p => p_title p | None => None end = true).
  { destruct data as [[[t|] de]|]; simpl in *; try discriminate.
    destruct t; [discriminate | reflexivity]. }
  assert (Hd : feature_payload_truthy data = true).
  { destruct data as [[[t|] de]|]; simpl in *; try discriminate.
    reflexivity. }
  unfold Routes.create_feature. rewrite Hd, Ht, Hs. cbn [negb].
  destruct (200 <? _)%nat eqn:E2; [apply Nat.ltb_lt in E2; tauto|].
  destruct (1000 <? _)%nat eqn:E3; [apply Nat.ltb_lt in E3; tauto|].
  unfold Feature.save, Sql.insert_feature.
  cbn [o_id o_title o_description opt_text_ok].
  destruct (text_ok _ && text_ok _); reflexivity.
Qed.

Lemma raw_title_rule_dec (title description : str) :
  raw_title_rule title description \/ ~ raw_title_rule title description.
Proof.
  unfold raw_title_rule.
  destruct (strip title) as [|c s]; [left; left; reflexivity|].
  destruct (Nat.lt_ge_cases 200 (length title)); [tauto|].
  destruct (Nat.lt_ge_cases 1000 (length description)); [tauto|].
  right. intros [H'|[H'|H']]; [discriminate | lia | lia].
Qed.

Lemma validate_feature_data_rule (data : option feature_payload) :
  fst (validate_feature_data data) = false <->
  raw_title_rule (title_of data) (description_of data).
Proof.
  destruct (raw_title_rule_dec (title_of data) (description_of data))
    as [H|H].
  - split; [intros _; exact H | intros _].
    unfold raw_title_rule, title_of, description_of in H.
    unfold validate_feature_data.
    destruct (negb (feature_payload_truthy data)); [reflexivity|].
    destruct (negb (truthy_opt _)); [reflexivity|]. cbn [orb].
    destruct (negb (truthy (strip _))) eqn:E1; [reflexivity|].
    destruct (200 <? _)%nat eqn:E2; [reflexivity|].
    destruct (1000 <? _)%nat eqn:E3; [reflexivity|].
    exfalso. apply negb_false_iff in E1.
    apply Nat.ltb_ge in E2. apply Nat.ltb_ge in E3.
    destruct H as [H|[H|H]]; [|lia|lia].
    rewrite H in E1. discriminate.
  - split; [|tauto]. intros E. exfalso. revert E.
    unfold raw_title_rule, title_of, description_of in H.
    assert (Hs : truthy (strip (get_or_empty
               match data with Some p => p_title p | None => None end)) = true).
    { destruct (truthy _) eqn:E; [reflexivity|].
      apply truthy_false in E. tauto. }
    assert (Ht : truthy_opt
               match data with Some p => p_title p | None => None end = true).
    { destruct data as [[[t|] de]|]; simpl in *; try discriminate.
      destruct t; [discriminate | reflexivity]. }
    assert (Hd : feature_payload_truthy data = true).
    { destruct data as [[[t|] de]|]; simpl in *; try discriminate.
      reflexivity. }
    unfold validate_feature_data. rewrite Hd, Ht, Hs. cbn [negb orb].
    destruct (200 <? _)%nat eqn:E2; [apply Nat.ltb_lt in E2; tauto|].
    destruct (1000 <? _)%nat eqn:E3; [apply Nat.ltb_lt in E3; tauto|].
    discriminate.
Qed.

(** C6, as the handler decides it.  [createFeature] ([create_feature])
    answers with a validation error (status 400) if and only if the title
    is missing, empty or only whitespace, the title as sent, before
    trimming, is longer than 200, or the description is longer than 1000;
    a rejected request leaves the state as it was.  Otherwise, when the
    trimmed title and description can be bound, it stores a new row with
    them and answers 201 with the feature and a vote count of 0; when one
    of them cannot, it stores nothing and answers 500 "Failed to create
    feature".  [validate_feature_data] rejects the same requests, and
    every request the rule on the trimmed title rejects is rejected. *)
Theorem create_feature_validation (d : db) (now : Z)
    (data : option feature_payload) :
  let title := title_of data in
  let description := description_of data in
  (validation_error (snd (Routes.create_feature d now data))
   <-> raw_title_rule title description)
  /\ (raw_title_rule title description ->
      fst (Routes.create_feature d now data) = d)
  /\ (~ raw_title_rule title description ->
      text_ok (strip title) = true -> text_ok (strip description) = true ->
      let id := next_rowid (features_seq d) (map f_id (features d)) in
      Routes.create_feature d now data =
      (mk_db (features d ++
                [mk_feature_row id (strip title) (Some (strip description))
                                now now])
             (votes d) id (votes_seq d),
       (FeatureJson (Some id) (Some (strip title)) (Some (strip description))
                    None None 0, 201)))
  /\ (~ raw_title_rule title description ->
      text_ok (strip title) && text_ok (strip description) = false ->
      Routes.create_feature d now data =
      (d, (Error msg_create_failed, 500)))
  /\ (fst (validate_feature_data data) = false
      <-> raw_title_rule title description)
  /\ (trimmed_title_rule title description -> raw_title_rule title description).
Proof.
  intros title description.
  split; [|split; [|split; [|split; [|split]]]].
  - destruct (raw_title_rule_dec title description) as [H|H].
    + split; [intros _; exact H | intros _].
      destruct (create_feature_rejects d now data H) as [e ->]. reflexivity.
    + split; [|tauto]. rewrite (create_feature_accepts d now data H).
      unfold validation_error.
      destruct (text_ok _ && text_ok _); simpl; discriminate.
  - intros H. destruct (create_feature_rejects d now data H) as [e ->].
    reflexivity.
  - intros H Ht Hd. rewrite (create_feature_accepts d now data H).
    fold title description. rewrite Ht, Hd. reflexivity.
  - intros H Hb. rewrite (create_feature_accepts d now data H).
    fold title description. rewrite Hb. reflexivity.
  - apply validate_feature_data_rule.
  - apply trimmed_rule_implies_raw.
Qed.

(** C6, as stated, at a title of one letter followed by 200 spaces and no
    description: the trimmed title has length 1, so the rule on the trimmed
    title accepts the request, and the handler rejects it with "Title too
    long". *)
Lemma create_feature_trimmed_counterexample :
  let data := Some (mk_feature_payload (Some padded_title) None) in
  Routes.create_feature empty_db 0 data =
  (empty_db, (Error msg_title_too_long, 400))
  /\ strip padded_title = lit "a"
  /\ ~ (validation_error (snd (Routes.create_feature empty_db 0 data))
        <-> trimmed_title_rule padded_title []).
Proof.
  split; [vm_compute; reflexivity|]. split; [vm_compute; reflexivity|].
  intros [H _].
  assert (E : validation_error
                (snd (Routes.create_feature empty_db 0
                        (Some (mk_feature_payload (Some padded_title) None)))))
    by (vm_compute; reflexivity).
  specialize (H E). unfold trimmed_title_rule in H.
  assert (Es : strip padded_title = [97%N]) by (vm_compute; reflexivity).
  rewrite Es in H. simpl in H.
  destruct H as [H|[H|H]]; [discriminate | lia | lia].
Qed.

(** ** Deleting a feature that does not exist *)

(** [Feature.delete] alone answers an absent id with [False], and changes
    nothing when no vote references the id. *)
Lemma feature_delete_absent (d : db) (fid : Z) :
  ~ feature_exists d fid ->
  snd (Feature.delete d fid) = false
  /\ (no_orphans d = true -> fst (Feature.delete d fid) = d).
Proof.
  intros H. pose proof H as Hf.
  rewrite feature_exists_iff, not_true_iff_false in Hf. split.
  - simpl. rewrite (filter_none _ _ Hf). reflexivity.
  - intros Hno. simpl.
    rewrite (filter_all (fun f => negb (feature_has_id fid f)))
      by (rewrite existsb_negb_negb; exact Hf).
    rewrite (filter_all (fun v => negb (vote_of_feature fid v))).
    + apply db_eta.
    + rewrite existsb_negb_negb. apply not_true_iff_false. intros E.
      apply existsb_exists in E. destruct E as [v [Hin Hm]].
      unfold vote_of_feature in Hm. apply Z.eqb_eq in Hm.
      rewrite no_orphans_iff in Hno. destruct (Hno v Hin) as [f [Hf' Ef]].
      apply H. exists f. split; [assumption | congruence].
Qed.

(** C9 (amended). [deleteFeature] ([delete_feature], which looks the
    feature up before it calls [Feature.delete]) answers an id in the
    64-bit range that no feature has with status 404 and the error "Feature
    not found", and gives that answer for no other request.  An id outside
    the 64-bit range, which no feature has either, makes the lookup raise:
    the answer is the one for an exception, status 500 and "Internal server
    error".  Both leave the state as it was.  An id in the range that a
    feature has is answered 200, unless the feature has gone when the
    delete runs: then the answer is the one for a failed delete, status 500
    and "Failed to delete feature".  The answer 404 differs, in status and
    in message, from the answers for a failed delete and for an
    exception. *)
Theorem delete_feature_not_found (d : db) (fid : Z) :
  (int_ok fid = true -> ~ feature_exists d fid ->
   Routes.delete_feature d fid = (d, not_found_response))
  /\ (int_ok fid = false ->
      Routes.delete_feature d fid = (d, internal_error_response))
  /\ (int_ok fid = true -> feature_exists d fid ->
      snd (Routes.delete_feature d fid) = (Message msg_feature_deleted, 200))
  /\ (snd (Routes.delete_feature d fid) = not_found_response
      <-> int_ok fid = true /\ ~ feature_exists d fid)
  /\ (snd (snd (Routes.delete_feature d fid)) = 404
      <-> int_ok fid = true /\ ~ feature_exists d fid)
  /\ delete_feature_between d d fid = Routes.delete_feature d fid
  /\ (forall d', int_ok fid = true -> feature_exists d fid ->
                 ~ feature_exists d' fid ->
                 snd (delete_feature_between d d' fid)
                 = delete_failed_response)
  /\ snd not_found_response <> snd delete_failed_response
  /\ snd not_found_response <> snd internal_error_response
  /\ fst not_found_response <> fst delete_failed_response
  /\ fst not_found_response <> fst internal_error_response.
Proof.
  assert (Hnf : int_ok fid = true -> ~ feature_exists d fid ->
                Routes.delete_feature d fid = (d, not_found_response)).
  { intros Hi H. unfold Routes.delete_feature.
    rewrite (@get_by_id_none d fid Hi H). reflexivity. }
  assert (Hbig : int_ok fid = false ->
                 Routes.delete_feature d fid = (d, internal_error_response)).
  { intros Hi. unfold Routes.delete_feature.
    rewrite (@get_by_id_raise d fid Hi). reflexivity. }
  assert (Hex : int_ok fid = true -> feature_exists d fid ->
                snd (Routes.delete_feature d fid)
                = (Message msg_feature_deleted, 200)).
  { intros Hi H. unfold Routes.delete_feature.
    destruct (@get_by_id_some d fid Hi H) as [o ->].
    pose proof H as Hb. apply feature_exists_iff, existsb_exists in Hb.
    destruct Hb as [f [Hin Hm]].
    assert (Hf : In f (filter (feature_has_id fid) (features d)))
      by (apply filter_In; split; assumption).
    unfold Feature.delete, Sql.delete_votes_of_feature,
      Sql.delete_feature_row. cbn [features votes].
    destruct (filter (feature_has_id fid) (features d)); [destruct Hf|].
    reflexivity. }
  assert (Hdec : feature_exists d fid \/ ~ feature_exists d fid).
  { rewrite feature_exists_iff.
    destruct (existsb (feature_has_id fid) (features d));
      [left; reflexivity | right; discriminate]. }
  assert (Hcases : forall r : response,
             snd (Routes.delete_feature d fid) = r ->
             r <> (Message msg_feature_deleted, 200) ->
             r <> internal_error_response ->
             int_ok fid = true /\ ~ feature_exists d fid).
  { intros r Hr H200 H500. destruct (int_ok fid) eqn:Hi.
    - split; [reflexivity|]. intros Hf. apply H200. rewrite <- Hr.
      apply Hex; [reflexivity | exact Hf].
    - exfalso. apply H500. rewrite <- Hr, Hbig; reflexivity. }
  split; [exact Hnf|]. split; [exact Hbig|]. split; [exact Hex|].
  split; [|split; [|split; [reflexivity|split]]].
  - split; [|intros [Hi H]; rewrite (Hnf Hi H); reflexivity].
    intros E. apply (Hcases _ E); discriminate.
  - split; [|intros [Hi H]; rewrite (Hnf Hi H); reflexivity].
    intros E. destruct (snd (Routes.delete_feature d fid)) as [b st] eqn:Er.
    apply (Hcases _ eq_refl); intros E'; injection E' as _ E';
      simpl in E; lia.
  - intros d' Hi Hf Hgone. unfold delete_feature_between.
    destruct (@get_by_id_some d fid Hi Hf) as [o ->].
    destruct (@feature_delete_absent d' fid Hgone) as [Hfalse _].
    destruct (Feature.delete d' fid) as [d2 b]. simpl in Hfalse.
    rewrite Hfalse. reflexivity.
  - repeat split; discriminate.
Qed.

(** C9 as the claim has it fails at an id that cannot be bound: no feature
    has the id, and the handler answers with the generic failure of its
    [except] branch, not with "Feature not found". *)
Lemma delete_feature_counterexample :
  ~ feature_exists one_feature 9223372036854775808
  /\ Routes.delete_feature one_feature 9223372036854775808
     = (one_feature, internal_error_response)
  /\ internal_error_response <> not_found_response.
Proof.
  split; [|split; [reflexivity | discriminate]].
  intros [f [[<-|[]] E]]. discriminate.
Qed.

(** ** An empty user id in a vote request *)

Lemma empty_user_as_absent (d : db) (now : Z) (fresh : str) (fid : Z) :
  Routes.vote_for_feature d now fresh fid empty_user
  = Routes.vote_for_feature d now fresh fid None
  /\ Routes.vote_for_feature d now fresh fid empty_user
     = Routes.vote_for_feature d now fresh fid (Some (mk_vote_payload None))
  /\ Routes.voter_id fresh empty_user = fresh.
Proof. repeat split. Qed.

Lemma vote_for_feature_inserts (d : db) (now : Z) (fresh : str) (fid : Z)
    (data : option vote_payload) :
  int_ok fid = true -> text_ok (Routes.voter_id fresh data) = true ->
  feature_exists d fid -> ~ vote_exists d fid (Routes.voter_id fresh data) ->
  let uid := Routes.voter_id fresh data in
  let d' := mk_db (features d)
                  (votes d ++ [mk_vote_row (next_rowid (votes_seq d)
                                                       (map v_id (votes d)))
                                           fid uid now])
                  (features_seq d)
                  (next_rowid (votes_seq d) (map v_id (votes d))) in
  Routes.vote_for_feature d now fresh fid data =
  (d', (VoteJson msg_vote_added (Some uid) (S (Vote.get_vote_count d fid)),
        201)).
Proof.
  intros Hi Ht Hf Hv uid d'.
  destruct (add_vote_cases d now fresh fid uid) as [_ [_ [_ [_ Hok]]]].
  unfold Routes.vote_for_feature. fold uid. rewrite (Hok Hi Ht Hf Hv).
  cbn [res_success res_message res_user_id].
  rewrite count_after_insert. reflexivity.
Qed.






(** ** Concurrent votes for one pair *)

(** A call that runs alone executes its three statements in sequence and
    is [Vote.add_vote]. *)
Lemma add_vote_steps (d : db) (now : Z) (fresh : str) (fid : Z) (uid : str) :
  interleave d [start now fid uid] [0; 0; 0]%nat =
  (fst (Vote.add_vote d now fresh fid (Some uid)),
   [mk_thread now fid uid
              (Returned (snd (Vote.add_vote d now fresh fid (Some uid))))]).
Proof.
  unfold interleave, Vote.add_vote, start. cbn [fold_left].
  unfold sched_step at 3. cbn [nth_error]. unfold add_vote_step at 1.
  cbn [t_pc t_now t_feature_id t_user_id set_thread].
  destruct (negb (int_ok fid)); [reflexivity|].
  destruct (Sql.select_feature d fid) eqn:Ef; [|reflexivity].
  unfold sched_step at 2. cbn [nth_error]. unfold add_vote_step at 1.
  cbn [t_pc t_now t_feature_id t_user_id set_thread].
  destruct (negb (int_ok fid && text_ok uid)); [reflexivity|].
  destruct (Sql.select_vote d fid uid) eqn:Ev; [reflexivity|].
  unfold sched_step. cbn [nth_error]. unfold add_vote_step.
  cbn [t_pc t_now t_feature_id t_user_id set_thread].
  destruct (Sql.insert_vote d now fid uid); reflexivity.
Qed.

Lemma set_thread_succeeded (ts : list thread) (i : nat) (t t' : thread) :
  nth_error ts i = Some t ->
  (length (filter succeeded (set_thread ts i t'))
   + (if succeeded t then 1 else 0)
   = length (filter succeeded ts) + (if succeeded t' then 1 else 0))%nat.
Proof.
  revert i; induction ts as [|t0 ts IH]; intros [|i]; simpl;
    try discriminate.
  - intros E. injection E as ->.
    destruct (succeeded t), (succeeded t'); simpl; lia.
  - intros E. specialize (IH i E). destruct (succeeded t0); simpl; lia.
Qed.

Lemma set_thread_In (ts : list thread) (i : nat) (t' u : thread) :
  In u (set_thread ts i t') -> u = t' \/ In u ts.
Proof.
  revert i; induction ts as [|t0 ts IH]; intros [|i]; simpl; try tauto.
  - intros [<-|H]; auto.
  - intros [<-|H]; auto. destruct (IH i H); auto.
Qed.

(** What the schedule keeps true while calls for the pair [(fid, uid)]
    run: at most one of them has succeeded, and if one has, the vote row
    is in the table. *)
Lemma sched_step_invariant (fid : Z) (uid : str) (d : db) (ts : list thread)
    (i : nat) :
  (forall t, In t ts -> t_feature_id t = fid /\ t_user_id t = uid) ->
  (length (filter succeeded ts) <= 1)%nat ->
  (length (filter succeeded ts) = 1%nat -> vote_exists d fid uid) ->
  let d' := fst (sched_step (d, ts) i) in
  let ts' := snd (sched_step (d, ts) i) in
  (forall t, In t ts' -> t_feature_id t = fid /\ t_user_id t = uid)
  /\ (length (filter succeeded ts') <= 1)%nat
  /\ (length (filter succeeded ts') = 1%nat -> vote_exists d' fid uid).
Proof.
  intros Hkey Hle Hex. unfold sched_step.
  destruct (nth_error ts i) as [t|] eqn:E; [|simpl; auto].
  pose proof (nth_error_In _ _ E) as Hin. destruct (Hkey t Hin) as [Kf Ku].
  pose proof (set_thread_succeeded ts i) as Hcount.
  unfold add_vote_step. destruct t as [now f u p]. simpl in Kf, Ku. subst f u.
  cbn [t_pc t_now t_feature_id t_user_id].
  destruct p as [| | |r].
  - destruct (negb (int_ok fid)); [|destruct (Sql.select_feature d fid)];
      simpl;
      (split; [intros x Hx; apply set_thread_In in Hx;
               destruct Hx as [->|Hx]; [simpl; auto | auto]|]);
      match goal with
      | |- context [set_thread ts i ?t'] =>
          specialize (Hcount _ t' E); simpl in Hcount
      end; (split; [lia | intros H1; apply Hex; lia]).
  - destruct (negb (int_ok fid && text_ok uid));
      [|destruct (Sql.select_vote d fid uid)]; simpl;
      (split; [intros x Hx; apply set_thread_In in Hx;
               destruct Hx as [->|Hx]; [simpl; auto | auto]|]);
      match goal with
      | |- context [set_thread ts i ?t'] =>
          specialize (Hcount _ t' E); simpl in Hcount
      end; (split; [lia | intros H1; apply Hex; lia]).
  - unfold Sql.insert_vote.
    destruct (negb (int_ok fid && text_ok uid));
      [|destruct (existsb (vote_matches fid uid) (votes d)) eqn:Ev]; simpl;
      (split; [intros x Hx; apply set_thread_In in Hx;
               destruct Hx as [->|Hx]; [simpl; auto | auto]|]);
      match goal with
      | |- context [set_thread ts i ?t'] =>
          specialize (Hcount _ t' E); simpl in Hcount
      end.
    + split; [lia | intros H1; apply Hex; lia].
    + split; [lia | intros H1; apply Hex; lia].
    + assert (H0 : length (filter succeeded ts) = 0%nat).
      { destruct (length (filter succeeded ts)) as [|[|n]]; [reflexivity| |lia].
        exfalso. apply not_true_iff_false in Ev. apply Ev.
        apply vote_exists_iff. apply Hex. reflexivity. }
      split; [lia|]. intros _.
      eexists. split; [simpl; apply in_or_app; right; left; reflexivity|].
      split; reflexivity.
  - simpl. split; [intros x Hx; apply set_thread_In in Hx;
                   destruct Hx as [->|Hx]; [simpl; auto | auto]|].
    specialize (Hcount _ (mk_thread now fid uid (Returned r)) E).
    split; [lia | intros H1; apply Hex; lia].
Qed.

(** Under any schedule, of the calls for one pair at most one succeeds. *)
Lemma at_most_one_success (fid : Z) (uid : str) (schedule : list nat)
    (d : db) (ts : list thread) :
  (forall t, In t ts -> t_feature_id t = fid /\ t_user_id t = uid) ->
  (length (filter succeeded ts) <= 1)%nat ->
  (length (filter succeeded ts) = 1%nat -> vote_exists d fid uid) ->
  (length (filter succeeded (snd (interleave d ts schedule))) <= 1)%nat.
Proof.
  unfold interleave. revert d ts.
  induction schedule as [|i schedule IH]; intros d ts Hkey Hle Hex;
    cbn [fold_left]; [exact Hle|].
  destruct (@sched_step_invariant fid uid d ts i Hkey Hle Hex)
    as [H1 [H2 H3]].
  destruct (sched_step (d, ts) i) as [d' ts'].
  cbn [fst snd] in H1, H2, H3. apply IH; assumption.
Qed.

(** C3. Two concurrent [add_vote] calls for the same pair on a feature
    without votes, their statements alternating: both pass the two
    SELECTs, the first INSERT succeeds, and the second INSERT violates the
    UNIQUE constraint, which the call reports as "Error adding vote"; the
    endpoint answers it with status 400, not with the 409 of a duplicate
    vote.  One vote row results.  When the calls run one after the other
    the second is answered with 409. *)
Theorem concurrent_duplicate_vote :
  map thread_status
      (snd (interleave one_feature same_pair_calls [0; 1; 0; 1; 0; 1]%nat))
  = [Some 201; Some 400]
  /\ map t_pc
         (snd (interleave one_feature same_pair_calls [0; 1; 0; 1; 0; 1]%nat))
     = [Returned (mk_vote_result true msg_vote_added (Some (lit "u1")));
        Returned (mk_vote_result false msg_error_adding_vote None)]
  /\ Vote.get_vote_count
       (fst (interleave one_feature same_pair_calls [0; 1; 0; 1; 0; 1]%nat)) 1
     = 1%nat
  /\ map thread_status
         (snd (interleave one_feature same_pair_calls [0; 0; 0; 1; 1; 1]%nat))
     = [Some 201; Some 409].
Proof. vm_compute. repeat split. Qed.

(* ================================================================== *)
(** * The theorems at concrete states *)

Lemma one_feature_has_1 : feature_exists one_feature 1.
Proof. apply feature_exists_iff. vm_compute. reflexivity. Defined.

Lemma two_features_has_2 : feature_exists two_features 2.
Proof. apply feature_exists_iff. vm_compute. reflexivity. Defined.

Lemma two_features_vote_2_u1 : vote_exists two_features 2 (lit "u1").
Proof. apply vote_exists_iff. vm_compute. reflexivity. Defined.

Lemma two_features_reachable : reachable two_features.
Proof.
  apply sequential_reachable. unfold two_features. eexists. reflexivity.
Defined.

(** Casting the first vote on a new feature. *)
Lemma cast_vote_spec_witness :
  int_ok 1 = true
  /\ text_ok (Routes.voter_id some_uuid (by_user "u1")) = true
  /\ feature_exists one_feature 1
  /\ ~ vote_exists one_feature 1 (lit "u1")
  /\ exists id d',
       Routes.vote_for_feature one_feature 101 some_uuid 1 (by_user "u1") =
       (d', (VoteJson msg_vote_added (Some (lit "u1"))
                      (Vote.get_vote_count d' 1), 201))
       /\ features d' = features one_feature
       /\ votes d' = votes one_feature ++ [mk_vote_row id 1 (lit "u1") 101]
       /\ Vote.get_vote_count d' 1 = S (Vote.get_vote_count one_feature 1).
Proof.
  assert (Hv : ~ vote_exists one_feature 1 (lit "u1"))
    by (apply select_vote_none; vm_compute; reflexivity).
  assert (Hi : int_ok 1 = true) by (vm_compute; reflexivity).
  assert (Ht : text_ok (Routes.voter_id some_uuid (by_user "u1")) = true)
    by (vm_compute; reflexivity).
  split; [exact Hi|]. split; [exact Ht|].
  split; [exact one_feature_has_1|]. split; [exact Hv|].
  exact (proj1 (proj2 (proj2 (proj2
           (cast_vote_spec one_feature 101 some_uuid 1 (by_user "u1")))))
           Hi Ht one_feature_has_1 Hv).
Defined.

(** The first row of the ranking of [two_features]. *)
Lemma list_features_ranked_witness :
  let r := mk_ranked (mk_feature_row 2 (lit "Search") (Some []) 101 101) 2 in
  In r (Feature.get_all_with_votes two_features)
  /\ In (rk_feature r) (features two_features)
  /\ rk_vote_count r = Vote.get_vote_count two_features (f_id (rk_feature r)).
Proof.
  intros r.
  assert (Hin : In r (Feature.get_all_with_votes two_features))
    by (vm_compute; left; reflexivity).
  split; [exact Hin|].
  exact (proj1 (proj2 (proj2 (proj2 (list_features_ranked two_features))))
           r Hin).
Defined.

(** A request that passes validation, and one that does not. *)
Lemma create_feature_validation_witness :
  ~ raw_title_rule (title_of (new_feature "Dark Mode"))
                   (description_of (new_feature "Dark Mode"))
  /\ Routes.create_feature empty_db 100 (new_feature "Dark Mode") =
     (mk_db [mk_feature_row 1 (lit "Dark Mode") (Some []) 100 100] [] 1 0,
      (FeatureJson (Some 1) (Some (lit "Dark Mode")) (Some []) None None 0,
       201)).
Proof.
  assert (H : ~ raw_title_rule (title_of (new_feature "Dark Mode"))
                               (description_of (new_feature "Dark Mode"))).
  { intros [H|[H|H]]; vm_compute in H; [discriminate H | lia | lia]. }
  split; [exact H|].
  refine (proj1 (proj2 (proj2
            (create_feature_validation empty_db 100 (new_feature "Dark Mode"))))
            H _ _); vm_compute; reflexivity.
Defined.

(** Retracting the vote of "u1" on feature 2. *)
Lemma retract_vote_spec_witness :
  storable two_features = true
  /\ vote_exists two_features 2 (lit "u1")
  /\ Routes.remove_vote_from_feature two_features 2 (by_user "u1") =
     (without_vote two_features 2 (lit "u1"),
      (VoteCountJson msg_vote_removed 1, 200)).
Proof.
  assert (Hs : storable two_features = true) by (vm_compute; reflexivity).
  split; [exact Hs|]. split; [exact two_features_vote_2_u1|].
  assert (Hne : lit "u1" <> []) by (vm_compute; intros H; discriminate H).
  exact (proj1 (proj2 (proj1 (retract_vote_spec two_features 2 (lit "u1"))
                         Hs two_features_vote_2_u1)) Hne).
Defined.

(** Retracting and casting again the vote of "u1" on feature 2, which has
    two votes. *)
Lemma retract_then_recast_witness :
  unique_pairs (votes two_features) = true
  /\ storable two_features = true
  /\ Vote.get_vote_count two_features 2 = 2%nat
  /\ exists d1 d2,
       Vote.remove_vote two_features 2 (lit "u1") =
       (d1, mk_vote_result true msg_vote_removed None)
       /\ Vote.add_vote d1 105 some_uuid 2 (Some (lit "u1")) =
          (d2, mk_vote_result true msg_vote_added (Some (lit "u1")))
       /\ Vote.get_vote_count d2 2 = Vote.get_vote_count two_features 2
       /\ (lit "u1" <> [] ->
           Routes.remove_vote_from_feature two_features 2 (by_user "u1") =
           (d1, (VoteCountJson msg_vote_removed
                               (Nat.pred (Vote.get_vote_count two_features 2)),
                 200))
           /\ Routes.vote_for_feature d1 105 some_uuid 2 (by_user "u1") =
              (d2, (VoteJson msg_vote_added (Some (lit "u1"))
                             (Vote.get_vote_count two_features 2), 201))).
Proof.
  assert (Hu : unique_pairs (votes two_features) = true)
    by (vm_compute; reflexivity).
  assert (Hs : storable two_features = true) by (vm_compute; reflexivity).
  split; [exact Hu|]. split; [exact Hs|]. split; [vm_compute; reflexivity|].
  exact (@retract_then_recast two_features 105 some_uuid 2 (lit "u1") Hu Hs
           two_features_has_2 two_features_vote_2_u1).
Defined.

(** Deleting feature 999, which does not exist. *)
Lemma delete_feature_not_found_witness :
  int_ok 999 = true
  /\ ~ feature_exists one_feature 999
  /\ Routes.delete_feature one_feature 999 = (one_feature, not_found_response).
Proof.
  assert (H : ~ feature_exists one_feature 999)
    by (apply select_feature_none; vm_compute; reflexivity).
  assert (Hi : int_ok 999 = true) by (vm_compute; reflexivity).
  split; [exact Hi|]. split; [exact H|].
  exact (proj1 (delete_feature_not_found one_feature 999) Hi H).
Defined.


(* ================================================================== *)
(** * Further properties of the backend *)

(** ** Saving and fetching a feature *)

Lemma find_snoc_new {A} (p : A -> bool) (l : list A) (x : A) :
  existsb p l = false -> p x = true -> find p (l ++ [x]) = Some x.
Proof.
  intros Hl Hx. induction l as [|y l IH]; simpl in *.
  - rewrite Hx. reflexivity.
  - apply orb_false_iff in Hl. destruct Hl as [-> Hl]. exact (IH Hl).
Qed.

Lemma find_snoc_other {A} (p : A -> bool) (l : list A) (x : A) :
  p x = false -> find p (l ++ [x]) = find p l.
Proof.
  intros Hx. induction l as [|y l IH]; simpl.
  - rewrite Hx. reflexivity.
  - destruct (p y); [reflexivity | exact IH].
Qed.

Lemma next_rowid_above (seq : Z) (ids : list Z) (i : Z) :
  In i ids -> i < next_rowid seq ids.
Proof. intros H. apply le_fold_max in H. unfold next_rowid. lia. Qed.

Lemma next_rowid_unused (d : db) :
  existsb (feature_has_id (next_rowid (features_seq d) (map f_id (features d))))
          (features d) = false.
Proof.
  apply not_true_iff_false. intros E. apply existsb_exists in E.
  destruct E as [f [Hin E]]. unfold feature_has_id in E. apply Z.eqb_eq in E.
  apply (next_rowid_fresh (features_seq d) (map f_id (features d))).
  rewrite <- E. apply in_map. exact Hin.
Qed.

(** X1. [Feature.save] on an object without id whose title and
    description can be bound inserts the feature under an id larger than
    every id in the table and sets the id on the object;
    [Feature.get_by_id] of that id then returns the saved title and
    description with both timestamps at the time of the insert, every other
    id is answered as before, and the votes are untouched.  When the title
    or the description cannot be bound, and when there is no title, the
    call returns [False] and changes nothing. *)
Theorem save_new_then_get (d : db) (now : Z) (t : str) (de : option str)
    (ca ua : option Z) :
  let self := mk_feature_obj None (Some t) de ca ua in
  let id := next_rowid (features_seq d) (map f_id (features d)) in
  let d' := fst (fst (Feature.save d now self)) in
  (text_ok t = true -> opt_text_ok de = true ->
   Feature.save d now self = (d', Feature.with_id self id, true)
   /\ features d' = features d ++ [mk_feature_row id t de now now]
   /\ (int_ok id = true ->
       Feature.get_by_id d' id =
       Done (Some (mk_feature_obj (Some id) (Some t) de
                                  (Some now) (Some now))))
   /\ (forall id', id' <> id ->
         Feature.get_by_id d' id' = Feature.get_by_id d id')
   /\ votes d' = votes d)
  /\ (forall i, In i (map f_id (features d)) -> i < id)
  /\ (text_ok t && opt_text_ok de = false ->
      Feature.save d now self = (d, self, false))
  /\ Feature.save d now (mk_feature_obj None None de ca ua) =
     (d, mk_feature_obj None None de ca ua, false).
Proof.
  intros self id d'. subst d'. unfold Feature.save, self, Sql.insert_feature.
  cbn [o_id o_title o_description opt_text_ok].
  split; [|split; [|split]].
  - intros Ht Hd. rewrite Ht, Hd. cbn [negb andb fst snd features votes].
    split; [reflexivity|]. split; [reflexivity|]. split; [|split].
    + intros Hi. unfold Feature.get_by_id, Sql.select_feature. fold id.
      rewrite Hi. cbn [negb features].
      rewrite find_snoc_new.
      * reflexivity.
      * apply next_rowid_unused.
      * unfold feature_has_id. simpl. apply Z.eqb_refl.
    + intros id' Hne. unfold Feature.get_by_id, Sql.select_feature.
      cbn [features].
      rewrite find_snoc_other; [reflexivity|].
      unfold feature_has_id. simpl. apply Z.eqb_neq. fold id. congruence.
    + reflexivity.
  - intros i Hi. apply next_rowid_above. exact Hi.
  - intros Hb. rewrite Hb. reflexivity.
  - destruct (negb _); reflexivity.
Qed.

(** The row an UPDATE writes. *)
Lemma find_updated (fid now : Z) (t : str) (de : option str)
    (l : list feature_row) :
  find (feature_has_id fid)
       (map (fun f => if feature_has_id fid f
                      then mk_feature_row (f_id f) t de (f_created_at f) now
                      else f) l)
  = match find (feature_has_id fid) l with
    | Some f => Some (mk_feature_row (f_id f) t de (f_created_at f) now)
    | None => None
    end.
Proof.
  induction l as [|f l IH]; simpl; [reflexivity|].
  destruct (feature_has_id fid f) eqn:E.
  - unfold feature_has_id at 1. simpl. unfold feature_has_id in E.
    rewrite E. reflexivity.
  - rewrite E. exact IH.
Qed.

Lemma find_not_updated (fid fid' now : Z) (t : str) (de : option str)
    (l : list feature_row) :
  fid' <> fid ->
  find (feature_has_id fid')
       (map (fun f => if feature_has_id fid f
                      then mk_feature_row (f_id f) t de (f_created_at f) now
                      else f) l)
  = find (feature_has_id fid') l.
Proof.
  intros Hne. induction l as [|f l IH]; simpl; [reflexivity|].
  destruct (feature_has_id fid f) eqn:E.
  - unfold feature_has_id in *. simpl. apply Z.eqb_eq in E.
    assert (E' : (f_id f =? fid') = false) by (apply Z.eqb_neq; congruence).
    rewrite E'. exact IH.
  - destruct (feature_has_id fid' f); [reflexivity | exact IH].
Qed.

Lemma map_unchanged {A} (g : A -> A) (p : A -> bool) (l : list A) :
  existsb p l = false ->
  map (fun x => if p x then g x else x) l = l.
Proof.
  induction l as [|x l IH]; simpl; [reflexivity|].
  rewrite orb_false_iff. intros [-> H]. rewrite (IH H). reflexivity.
Qed.

(** X2. [Feature.save] on an object with an id in the 64-bit range and
    a title and description that can be bound returns [True] whether or
    not a feature has that id.  When one has, [get_by_id] then returns the
    new title and description, the creation time it had and the time of
    the update as [updated_at]; when none has, the state is unchanged.  In
    both cases the ids in the table, the answers for every other id and the
    votes stay as they were.  When the id, the title or the description
    cannot be bound, the call returns [False] and changes nothing, and so
    it does with no title when the feature exists. *)
Theorem save_update_then_get (d : db) (now id : Z) (t : str)
    (de : option str) (ca ua : option Z) :
  let self := mk_feature_obj (Some id) (Some t) de ca ua in
  let d' := fst (fst (Feature.save d now self)) in
  (text_ok t = true -> opt_text_ok de = true -> int_ok id = true ->
   Feature.save d now self = (d', self, true)
   /\ Feature.get_by_id d' id =
      match Sql.select_feature d id with
      | Some f => Done (Some (mk_feature_obj (Some id) (Some t) de
                                             (Some (f_created_at f))
                                             (Some now)))
      | None => Done None
      end
   /\ (~ feature_exists d id -> d' = d)
   /\ map f_id (features d') = map f_id (features d)
   /\ (forall id', id' <> id ->
         Feature.get_by_id d' id' = Feature.get_by_id d id')
   /\ votes d' = votes d)
  /\ (text_ok t && opt_text_ok de && int_ok id = false ->
      Feature.save d now self = (d, self, false))
  /\ (feature_exists d id ->
      Feature.save d now (mk_feature_obj (Some id) None de ca ua) =
      (d, mk_feature_obj (Some id) None de ca ua, false)).
Proof.
  intros self d'. subst d'. unfold Feature.save, self, Sql.update_feature.
  cbn [o_id o_title o_description opt_text_ok].
  split; [|split].
  - intros Ht Hd Hi. rewrite Ht, Hd, Hi.
    cbn [negb andb fst snd features votes].
    split; [reflexivity|]. split; [|split; [|split; [|split]]].
    + unfold Feature.get_by_id, Sql.select_feature. rewrite Hi.
      cbn [negb features]. rewrite find_updated.
      destruct (find (feature_has_id id) (features d)) as [f|] eqn:E;
        [|reflexivity].
      apply find_some in E. destruct E as [_ E]. unfold feature_has_id in E.
      apply Z.eqb_eq in E. simpl. rewrite E. reflexivity.
    + intros H. rewrite feature_exists_iff, not_true_iff_false in H.
      rewrite (map_unchanged _ _ _ H). apply db_eta.
    + apply update_feature_ids.
    + intros id' Hne. unfold Feature.get_by_id, Sql.select_feature.
      cbn [features]. rewrite find_not_updated by assumption. reflexivity.
    + reflexivity.
  - intros Hb. rewrite Hb. reflexivity.
  - intros H. apply feature_exists_iff in H. rewrite H.
    destruct (negb _); reflexivity.
Qed.

Section OrderByMap.
Variables A B : Type.
Variable le : A -> A -> bool.
Variable le' : B -> B -> bool.
Variable g : A -> B.
Hypothesis le_g : forall x y, le' (g x) (g y) = le x y.

Lemma insert_by_map (x : A) (l : list A) :
  insert_by le' (g x) (map g l) = map g (insert_by le x l).
Proof.
  induction l as [|y l IH]; simpl; [reflexivity|].
  rewrite le_g. destruct (le x y); simpl; [reflexivity|].
  rewrite IH. reflexivity.
Qed.

Lemma order_by_map (l : list A) :
  order_by le' (map g l) = map g (order_by le l).
Proof.
  induction l as [|x l IH]; simpl; [reflexivity|].
  rewrite IH. apply insert_by_map.
Qed.

End OrderByMap.

(** X3. An update through [Feature.save] does not move any feature in the
    ranking: the ids and vote counts of [get_all_with_votes] come in the
    same order before and after, since the update changes neither a vote
    count nor a creation time. *)
Theorem save_update_keeps_ranking (d : db) (now id : Z) (self : feature_obj) :
  o_id self = Some id ->
  let d' := fst (fst (Feature.save d now self)) in
  map (fun r => (f_id (rk_feature r), rk_vote_count r))
      (Feature.get_all_with_votes d')
  = map (fun r => (f_id (rk_feature r), rk_vote_count r))
        (Feature.get_all_with_votes d)
  /\ map (fun r => f_created_at (rk_feature r)) (Feature.get_all_with_votes d')
     = map (fun r => f_created_at (rk_feature r))
           (Feature.get_all_with_votes d).
Proof.
  intros Hid d'. subst d'. unfold Feature.save. rewrite Hid.
  destruct (Sql.update_feature d now id _ _) as [d'|] eqn:Eu;
    cbn [fst]; [|split; reflexivity].
  apply update_feature_inv in Eu. destruct Eu as [_ [_ [_ Eu]]].
  destruct (o_title self) as [t|].
  - subst d'.
    set (upd := fun f => if feature_has_id id f
                         then mk_feature_row (f_id f) t (o_description self)
                                             (f_created_at f) now
                         else f).
    set (updr := fun r => mk_ranked (upd (rk_feature r)) (rk_vote_count r)).
    assert (Hid' : forall f, f_id (upd f) = f_id f)
      by (intros f; unfold upd; destruct (feature_has_id id f); reflexivity).
    assert (Hca : forall f, f_created_at (upd f) = f_created_at f)
      by (intros f; unfold upd; destruct (feature_has_id id f); reflexivity).
    assert (Hw : Feature.with_votes
                   (mk_db (map upd (features d)) (votes d) (features_seq d)
                          (votes_seq d))
                 = map updr (Feature.with_votes d)).
    { unfold Feature.with_votes. simpl. rewrite !map_map.
      apply map_ext. intros f. unfold updr. simpl. rewrite Hid'.
      reflexivity. }
    unfold Feature.get_all_with_votes. rewrite Hw.
    rewrite (@order_by_map _ _ rank_leb rank_leb updr).
    + rewrite !map_map. split; apply map_ext; intros r; unfold updr; simpl;
        rewrite ?Hid', ?Hca; reflexivity.
    + intros x y. unfold rank_leb, updr. simpl. rewrite !Hca. reflexivity.
  - destruct Eu as [-> _]. split; reflexivity.
Qed.

(** ** What a call can do to the tables *)

Lemma filter_true {A} (l : list A) : filter (fun _ => true) l = l.
Proof. induction l as [|x l IH]; simpl; [|rewrite IH]; reflexivity. Qed.

Lemma votes_step_same (d d' : db) :
  votes d' = votes d -> votes_seq d' = votes_seq d -> votes_step d d'.
Proof.
  intros Hv Hs. left. exists (fun _ => true). rewrite filter_true. auto.
Qed.

Lemma features_step_same (d d' : db) :
  features d' = features d -> features_seq d' = features_seq d ->
  features_step d d'.
Proof.
  intros Hf Hs. left. exists (fun _ => true). rewrite filter_true. auto.
Qed.

Lemma same_state_step (d : db) : features_step d d /\ votes_step d d.
Proof.
  split; [apply features_step_same | apply votes_step_same]; reflexivity.
Qed.

Lemma save_step (d : db) (now : Z) (self : feature_obj) :
  features_step d (fst (fst (Feature.save d now self)))
  /\ votes_step d (fst (fst (Feature.save d now self))).
Proof.
  unfold Feature.save. destruct (o_id self) as [id|].
  - destruct (Sql.update_feature d now id _ _) as [d'|] eqn:E; cbn [fst];
      [|apply same_state_step].
    apply update_feature_inv in E. destruct E as [_ [Ht [Hd E]]].
    destruct (o_title self) as [t|]; [|destruct E as [-> _];
                                       apply same_state_step].
    subst d'. split; [|apply votes_step_same; reflexivity].
    right; right. exists id, t, (o_description self), now.
    simpl in Ht. rewrite Ht, Hd. auto.
  - destruct (Sql.insert_feature d now _ _) as [[d' id]|] eqn:E; cbn [fst];
      [|apply same_state_step].
    apply insert_feature_inv in E.
    destruct E as [t [Et [Ht [Hd [-> ->]]]]].
    split; [|apply votes_step_same; reflexivity].
    right; left. exists t, (o_description self), now.
    unfold feature_row_ok. simpl. rewrite Ht, Hd. auto.
Qed.

Lemma feature_delete_step (d : db) (fid : Z) :
  features_step d (fst (Feature.delete d fid))
  /\ votes_step d (fst (Feature.delete d fid)).
Proof.
  simpl. split; left; eexists; simpl; split; reflexivity.
Qed.

Lemma insert_vote_step (d d' : db) (now fid : Z) (uid : str) :
  Sql.insert_vote d now fid uid = Done d' ->
  features_step d d' /\ votes_step d d'.
Proof.
  intros E. apply insert_vote_inv in E. destruct E as [Hi [Ht [Ex ->]]].
  split; [apply features_step_same; reflexivity|].
  right. exists now, fid, uid. unfold vote_row_ok. simpl.
  rewrite Hi, Ht. auto.
Qed.

Lemma add_vote_step_tables (d : db) (now : Z) (fresh : str) (fid : Z)
    (uid : option str) :
  features_step d (fst (Vote.add_vote d now fresh fid uid))
  /\ votes_step d (fst (Vote.add_vote d now fresh fid uid)).
Proof.
  destruct (add_vote_state d now fresh fid uid) as [->|[u [_ E]]];
    [apply same_state_step | eapply insert_vote_step; exact E].
Qed.

Lemma remove_vote_step (d : db) (fid : Z) (uid : str) :
  features_step d (fst (Vote.remove_vote d fid uid))
  /\ votes_step d (fst (Vote.remove_vote d fid uid)).
Proof.
  rewrite remove_vote_state.
  destruct (int_ok fid && text_ok uid); [|apply same_state_step]. simpl.
  split; [apply features_step_same; reflexivity|].
  left. eexists. simpl. split; reflexivity.
Qed.

(** The state one statement of an [add_vote] call leaves is the old one,
    or the one its INSERT leaves. *)
Lemma add_vote_step_state (d : db) (t : thread) :
  fst (add_vote_step d t) = d
  \/ Sql.insert_vote d (t_now t) (t_feature_id t) (t_user_id t)
     = Done (fst (add_vote_step d t)).
Proof.
  unfold add_vote_step. destruct (t_pc t).
  - destruct (negb _); [left; reflexivity|].
    destruct (Sql.select_feature _ _); left; reflexivity.
  - destruct (negb _); [left; reflexivity|].
    destruct (Sql.select_vote _ _ _); left; reflexivity.
  - destruct (Sql.insert_vote _ _ _ _); [right | left]; reflexivity.
  - left; reflexivity.
Qed.

Lemma sched_step_state (d : db) (ts : list thread) (i : nat) :
  fst (sched_step (d, ts) i) = d
  \/ exists now fid uid,
       Sql.insert_vote d now fid uid = Done (fst (sched_step (d, ts) i)).
Proof.
  unfold sched_step. destruct (nth_error ts i) as [t|]; [|left; reflexivity].
  destruct (add_vote_step_state d t) as [E|E];
    destruct (add_vote_step d t) as [d' t']; cbn [fst] in *; [left | right];
    eauto.
Qed.

Lemma sched_step_tables (d : db) (ts : list thread) (i : nat) :
  features_step d (fst (sched_step (d, ts) i))
  /\ votes_step d (fst (sched_step (d, ts) i)).
Proof.
  destruct (sched_step_state d ts i) as [->|[now [fid [uid E]]]];
    [apply same_state_step | eapply insert_vote_step; exact E].
Qed.

(** Whatever the call (a request or a model method), the votes table
    afterwards is the old one with some rows deleted or with one row
    appended under the next rowid, and the features table is the old one
    with some rows deleted, with one row appended under the next rowid, or
    with the title, description and [updated_at] of the rows of one id
    rewritten. *)
Lemma exec_tables (d : db) (c : call) :
  features_step d (exec d c) /\ votes_step d (exec d c).
Proof.
  destruct c; simpl.
  - destruct (create_feature_state d now data) as [->|[self ->]];
      [apply same_state_step | apply save_step].
  - apply same_state_step.
  - rewrite get_feature_state. apply same_state_step.
  - destruct (delete_feature_state d feature_id) as [->| ->];
      [apply same_state_step | apply feature_delete_step].
  - rewrite vote_for_feature_state. apply add_vote_step_tables.
  - destruct (remove_vote_from_feature_state d feature_id data)
      as [->|[uid ->]];
      [apply same_state_step | apply remove_vote_step].
  - apply same_state_step.
  - rewrite get_feature_votes_state. apply same_state_step.
  - apply save_step.
  - apply feature_delete_step.
  - apply add_vote_step_tables.
  - apply remove_vote_step.
Qed.

Lemma next_rowid_gt_seq (seq : Z) (ids : list Z) : seq < next_rowid seq ids.
Proof. unfold next_rowid. lia. Qed.

Lemma features_step_seq (d d' : db) :
  features_step d d' -> features_seq d <= features_seq d'.
Proof.
  intros [[p [_ ->]]|[[t [de [now [_ [-> _]]]]]
                      |[fid [t [de [now [_ [-> _]]]]]]]];
    try lia.
  pose proof (next_rowid_gt_seq (features_seq d) (map f_id (features d))). lia.
Qed.

Lemma votes_step_seq (d d' : db) :
  votes_step d d' -> votes_seq d <= votes_seq d'.
Proof.
  intros [[p [_ ->]]|[now [fid [uid [_ [-> _]]]]]]; try lia.
  pose proof (next_rowid_gt_seq (votes_seq d) (map v_id (votes d))). lia.
Qed.

Lemma features_step_origin (d d' : db) (f' : feature_row) :
  features_step d d' -> In f' (features d') ->
  (exists f, In f (features d) /\ f_id f = f_id f'
             /\ f_created_at f = f_created_at f')
  \/ features_seq d < f_id f' <= features_seq d'.
Proof.
  intros [[p [E Es]]|[[t [de [now [E [Es _]]]]]
                      |[fid [t [de [now [E [Es _]]]]]]]] Hin;
    rewrite E in Hin.
  - apply filter_In in Hin. left. exists f'. tauto.
  - apply in_app_or in Hin. destruct Hin as [Hin|[<-|[]]].
    + left. exists f'. auto.
    + right. simpl. rewrite Es.
      pose proof (next_rowid_gt_seq (features_seq d) (map f_id (features d))).
      lia.
  - apply in_map_iff in Hin. destruct Hin as [f [<- Hin]].
    left. exists f. destruct (feature_has_id fid f); auto.
Qed.

Lemma votes_step_origin (d d' : db) (v : vote_row) :
  votes_step d d' -> In v (votes d') ->
  In v (votes d) \/ votes_seq d < v_id v <= votes_seq d'.
Proof.
  intros [[p [E Es]]|[now [fid [uid [E [Es _]]]]]] Hin; rewrite E in Hin.
  - apply filter_In in Hin. tauto.
  - apply in_app_or in Hin. destruct Hin as [Hin|[<-|[]]]; [auto|].
    right. simpl. rewrite Es.
    pose proof (next_rowid_gt_seq (votes_seq d) (map v_id (votes d))). lia.
Qed.

Lemma step_bounded (d d' : db) :
  features_step d d' -> votes_step d d' -> ids_bounded d -> ids_bounded d'.
Proof.
  intros Hf Hv [Hsf [Hsv [Hbf Hbv]]].
  pose proof (features_step_seq Hf). pose proof (votes_step_seq Hv).
  split; [lia|]. split; [lia|]. split.
  - intros f' Hin.
    destruct (@features_step_origin _ _ _ Hf Hin) as [[f [Hin' [E _]]]|Hnew]; [|lia].
    specialize (Hbf f Hin'). lia.
  - intros v Hin.
    destruct (@votes_step_origin _ _ _ Hv Hin) as [Hin'|Hnew]; [|lia].
    specialize (Hbv v Hin'). lia.
Qed.

Lemma run_bounded (cs : list call) (d : db) :
  ids_bounded d -> ids_bounded (run d cs).
Proof.
  revert d; induction cs as [|c cs IH]; intros d H; simpl; [exact H|].
  apply IH. destruct (exec_tables d c) as [Hf Hv].
  exact (step_bounded Hf Hv H).
Qed.

(** What the empty database satisfies and every change of the tables
    preserves holds in every state the running backend reaches. *)
Lemma reachable_invariant (P : db -> Prop) :
  P empty_db ->
  (forall d d', features_step d d' -> votes_step d d' -> P d -> P d') ->
  forall d, reachable d -> P d.
Proof.
  intros H0 Hstep d [ts Hr].
  induction Hr as [|d ts c Hr IH|d ts now fid uid Hr IH|d ts i Hr IH].
  - exact H0.
  - destruct (exec_tables d c). eapply Hstep; eassumption.
  - exact IH.
  - destruct (sched_step_tables d ts i). eapply Hstep; eassumption.
Qed.

Lemma reachable_bounded (d : db) : reachable d -> ids_bounded d.
Proof.
  apply reachable_invariant.
  - unfold ids_bounded, empty_db; simpl.
    repeat split; try lia; intros x [].
  - intros d1 d2 Hf Hv. exact (step_bounded Hf Hv).
Qed.

Lemma run_seq (cs : list call) (d : db) :
  features_seq d <= features_seq (run d cs)
  /\ votes_seq d <= votes_seq (run d cs).
Proof.
  revert d; induction cs as [|c cs IH]; intros d; simpl; [lia|].
  destruct (exec_tables d c) as [Hf Hv].
  pose proof (features_step_seq Hf). pose proof (votes_step_seq Hv).
  destruct (IH (exec d c)). lia.
Qed.

Lemma run_origin (cs : list call) (d : db) :
  (forall f', In f' (features (run d cs)) ->
     (exists f, In f (features d) /\ f_id f = f_id f'
                /\ f_created_at f = f_created_at f')
     \/ features_seq d < f_id f')
  /\ (forall v, In v (votes (run d cs)) ->
        In v (votes d) \/ votes_seq d < v_id v).
Proof.
  revert d; induction cs as [|c cs IH]; intros d; simpl.
  - split; [intros f' H; left; exists f'; auto | auto].
  - destruct (IH (exec d c)) as [IHf IHv].
    destruct (exec_tables d c) as [Hf Hv].
    pose proof (features_step_seq Hf). pose proof (votes_step_seq Hv).
    split.
    + intros f' Hin. destruct (IHf f' Hin) as [[f1 [Hin1 [E1 E2]]]|Hnew];
        [|right; lia].
      destruct (@features_step_origin _ _ _ Hf Hin1) as [[f [Hin0 [E3 E4]]]|Hnew].
      * left. exists f. repeat split; [assumption | congruence | congruence].
      * right. rewrite <- E1. lia.
    + intros v Hin. destruct (IHv v Hin) as [Hin1|Hnew]; [|right; lia].
      destruct (@votes_step_origin _ _ _ Hv Hin1) as [Hin0|Hnew]; [auto | right; lia].
Qed.

(** X4. Rows are never rewritten in what identifies them, and rowids are
    never reused.  Over any sequence of calls from any state: a feature row
    present at the end either has the id and creation time of a row of the
    start state or an id above the start state's counter, and a vote row
    present at the end is a row of the start state, unchanged, or has an id
    above the counter.  From a reachable state, a feature id (vote id) that
    was in use and has disappeared never comes back. *)
Theorem rowids_never_reused (d : db) (cs1 cs2 : list call) :
  (forall f', In f' (features (run d cs1)) ->
     (exists f, In f (features d) /\ f_id f = f_id f'
                /\ f_created_at f = f_created_at f')
     \/ features_seq d < f_id f')
  /\ (forall v, In v (votes (run d cs1)) ->
        In v (votes d) \/ votes_seq d < v_id v)
  /\ (reachable d ->
      forall i, feature_exists d i -> ~ feature_exists (run d cs1) i ->
                ~ feature_exists (run (run d cs1) cs2) i)
  /\ (reachable d ->
      forall i, In i (map v_id (votes d)) ->
                ~ In i (map v_id (votes (run d cs1))) ->
                ~ In i (map v_id (votes (run (run d cs1) cs2)))).
Proof.
  destruct (run_origin cs1 d) as [Hf Hv].
  split; [exact Hf|]. split; [exact Hv|].
  destruct (run_origin cs2 (run d cs1)) as [Hf2 Hv2].
  destruct (run_seq cs1 d) as [Hsf Hsv].
  split.
  - intros Hr i [f [Hin Ei]] Hgone [f2 [Hin2 E2]].
    apply reachable_bounded in Hr. destruct Hr as [_ [_ [Hb _]]].
    specialize (Hb f Hin).
    destruct (Hf2 f2 Hin2) as [[f1 [Hin1 [E1 _]]]|Hnew]; [|lia].
    apply Hgone. exists f1. split; [assumption | congruence].
  - intros Hr i Hi Hgone Hback.
    apply reachable_bounded in Hr. destruct Hr as [_ [_ [_ Hb]]].
    apply in_map_iff in Hi. destruct Hi as [v [Ev Hin]].
    specialize (Hb v Hin).
    apply in_map_iff in Hback. destruct Hback as [v2 [E2 Hin2]].
    destruct (Hv2 v2 Hin2) as [Hin1|Hnew]; [|lia].
    apply Hgone. rewrite <- E2. apply in_map. exact Hin1.
Qed.

(** ** Rows come in insertion order *)

Lemma sorted_snoc (l : list Z) (x : Z) :
  StronglySorted Z.lt l -> (forall y, In y l -> y < x) ->
  StronglySorted Z.lt (l ++ [x]).
Proof.
  induction 1 as [|y l Hs IH Hall]; intros Hlt; simpl.
  - constructor; constructor.
  - constructor.
    + apply IH. intros z Hz. apply Hlt. right; exact Hz.
    + apply Forall_app. split; [exact Hall|].
      constructor; [|constructor]. apply Hlt. left; reflexivity.
Qed.

Lemma sorted_map_filter {Row} (key : Row -> Z) (keep : Row -> bool)
    (rows : list Row) :
  StronglySorted Z.lt (map key rows) ->
  StronglySorted Z.lt (map key (filter keep rows)).
Proof.
  induction rows as [|r rows IH]; simpl; [auto|].
  intros H. inversion H as [|? ? Hs Hall]; subst.
  destruct (keep r); simpl; [|auto].
  constructor; [auto|]. rewrite Forall_forall in *.
  intros k Hk. apply Hall. apply in_map_iff in Hk.
  destruct Hk as [y [<- Hy]]. apply filter_In in Hy.
  apply in_map. tauto.
Qed.

Lemma votes_step_sorted (d d' : db) :
  votes_step d d' -> StronglySorted Z.lt (map v_id (votes d)) ->
  StronglySorted Z.lt (map v_id (votes d')).
Proof.
  intros [[p [-> _]]|[now [fid [uid [-> _]]]]] H.
  - apply sorted_map_filter. exact H.
  - rewrite map_app. simpl. apply sorted_snoc; [exact H|].
    apply next_rowid_above.
Qed.

Lemma features_step_sorted (d d' : db) :
  features_step d d' -> StronglySorted Z.lt (map f_id (features d)) ->
  StronglySorted Z.lt (map f_id (features d')).
Proof.
  intros [[p [-> _]]|[[t [de [now [-> _]]]]|[fid [t [de [now [-> _]]]]]]] H.
  - apply sorted_map_filter. exact H.
  - rewrite map_app. simpl. apply sorted_snoc; [exact H|].
    apply next_rowid_above.
  - rewrite update_feature_ids. exact H.
Qed.

Lemma run_sorted (cs : list call) (d : db) :
  StronglySorted Z.lt (map f_id (features d)) ->
  StronglySorted Z.lt (map v_id (votes d)) ->
  StronglySorted Z.lt (map f_id (features (run d cs)))
  /\ StronglySorted Z.lt (map v_id (votes (run d cs))).
Proof.
  revert d; induction cs as [|c cs IH]; intros d Hf Hv; simpl; [auto|].
  destruct (exec_tables d c) as [Sf Sv].
  apply IH; [exact (features_step_sorted Sf Hf) | exact (votes_step_sorted Sv Hv)].
Qed.

Lemma reachable_sorted (d : db) :
  reachable d ->
  StronglySorted Z.lt (map f_id (features d))
  /\ StronglySorted Z.lt (map v_id (votes d)).
Proof.
  apply (@reachable_invariant
           (fun d => StronglySorted Z.lt (map f_id (features d))
                     /\ StronglySorted Z.lt (map v_id (votes d)))).
  - split; constructor.
  - intros d1 d2 Sf Sv [Hf Hv].
    split; [exact (features_step_sorted Sf Hf)
           | exact (votes_step_sorted Sv Hv)].
Qed.

Lemma sorted_NoDup (l : list Z) : StronglySorted Z.lt l -> NoDup l.
Proof.
  induction 1 as [|x l Hs IH Hall]; constructor; [|exact IH].
  intros Hin. rewrite Forall_forall in Hall. specialize (Hall x Hin). lia.
Qed.

Lemma votes_step_unique (d d' : db) :
  votes_step d d' -> unique_pairs (votes d) = true ->
  unique_pairs (votes d') = true.
Proof.
  rewrite !unique_pairs_NoDup.
  intros [[p [-> _]]|[now [fid [uid [-> [_ [Ex _]]]]]]] H.
  - apply NoDup_map_filter. exact H.
  - apply NoDup_map_snoc; [exact H|]. simpl. intros Hin.
    apply in_map_iff in Hin. destruct Hin as [w [Hw Hin]].
    assert (existsb (vote_matches fid uid) (votes d) = true); [|congruence].
    apply existsb_exists. exists w. split; [assumption|].
    apply vote_matches_iff. unfold vote_key in Hw. simpl in Hw.
    injection Hw; auto.
Qed.

Lemma forallb_filter {A} (p keep : A -> bool) (l : list A) :
  forallb p l = true -> forallb p (filter keep l) = true.
Proof.
  rewrite !forallb_forall. intros H x Hin. apply filter_In in Hin.
  apply H. tauto.
Qed.

Lemma step_storable (d d' : db) :
  features_step d d' -> votes_step d d' -> storable d = true ->
  storable d' = true.
Proof.
  unfold storable. rewrite !andb_true_iff. intros Sf Sv [Hf Hv]. split.
  - destruct Sf as [[p [-> _]]|[[t [de [now [-> [_ Hok]]]]]
                               |[fid [t [de [now [-> [_ Hok]]]]]]]].
    + apply forallb_filter. exact Hf.
    + rewrite forallb_app, Hf. simpl. rewrite Hok. reflexivity.
    + rewrite forallb_forall in *. intros f Hin.
      apply in_map_iff in Hin. destruct Hin as [g [<- Hin]].
      destruct (feature_has_id fid g); [exact Hok | exact (Hf g Hin)].
  - destruct Sv as [[p [-> _]]|[now [fid [uid [-> [_ [_ Hok]]]]]]].
    + apply forallb_filter. exact Hv.
    + rewrite forallb_app, Hv. simpl. rewrite Hok. reflexivity.
Qed.

(** The constraints the engine enforces hold in every state the running
    backend reaches: the two primary keys and the UNIQUE constraint, and
    the rows hold bound values. *)
Lemma reachable_keys (d : db) :
  reachable d ->
  NoDup (map f_id (features d)) /\ NoDup (map v_id (votes d))
  /\ unique_pairs (votes d) = true /\ storable d = true.
Proof.
  intros Hr. destruct (reachable_sorted Hr) as [Hf Hv].
  split; [apply sorted_NoDup; exact Hf|].
  split; [apply sorted_NoDup; exact Hv|]. clear Hf Hv. split.
  - revert d Hr.
    apply (@reachable_invariant (fun d => unique_pairs (votes d) = true));
      [reflexivity|].
    intros d1 d2 _ Sv. exact (votes_step_unique Sv).
  - revert d Hr.
    apply (@reachable_invariant (fun d => storable d = true));
      [reflexivity|].
    intros d1 d2 Sf Sv. exact (step_storable Sf Sv).
Qed.

(** X5. Rowids grow with insertion: in every state the running backend
    reaches, the rows of each table, taken in the order in which they were
    inserted, have strictly increasing ids.  [get_votes_by_feature]
    returns the vote rows of the feature and nothing else, each once, and
    their number is [get_vote_count]; the [get_feature_votes] handler
    answers with them for an existing feature, with 404 for a missing one
    whose id is in the 64-bit range, and with 500 for an id outside that
    range. *)
Theorem rowids_grow_with_insertion (d : db) (fid : Z) :
  reachable d ->
  StronglySorted Z.lt (map f_id (features d))
  /\ StronglySorted Z.lt (map v_id (votes d))
  /\ NoDup (Vote.get_votes_by_feature d fid)
  /\ (forall v, In v (Vote.get_votes_by_feature d fid) <->
                In v (votes d) /\ v_feature_id v = fid)
  /\ length (Vote.get_votes_by_feature d fid) = Vote.get_vote_count d fid
  /\ (int_ok fid = true -> feature_exists d fid ->
      Routes.get_feature_votes d fid =
      (d, (FeatureVotes fid (Vote.get_votes_by_feature d fid)
                        (Vote.get_vote_count d fid), 200)))
  /\ (int_ok fid = true -> ~ feature_exists d fid ->
      Routes.get_feature_votes d fid = (d, (Error msg_feature_not_found, 404)))
  /\ (int_ok fid = false ->
      Routes.get_feature_votes d fid = (d, (Error msg_internal_error, 500))).
Proof.
  intros Hr. destruct (reachable_sorted Hr) as [Hf Hv].
  destruct (reachable_keys Hr) as [_ [Hpk _]].
  split; [exact Hf|]. split; [exact Hv|].
  split; [|split; [|split; [|split; [|split]]]].
  - unfold Vote.get_votes_by_feature.
    apply (NoDup_map_inv v_id). apply NoDup_map_filter. exact Hpk.
  - intros v. unfold Vote.get_votes_by_feature, vote_of_feature.
    rewrite filter_In, Z.eqb_eq. tauto.
  - reflexivity.
  - intros Hi H. unfold Routes.get_feature_votes.
    destruct (@get_by_id_some d fid Hi H) as [o ->]. reflexivity.
  - intros Hi H. unfold Routes.get_feature_votes.
    rewrite (@get_by_id_none d fid Hi H). reflexivity.
  - intros Hi. unfold Routes.get_feature_votes.
    rewrite (@get_by_id_raise d fid Hi). reflexivity.
Qed.

(** ** The constraints of the schema *)

Lemma unique_match_at_most_one (fid : Z) (uid : str) (l : list vote_row) :
  unique_pairs l = true ->
  (length (filter (vote_matches fid uid) l) <= 1)%nat.
Proof.
  intros Hu. destruct (existsb (vote_matches fid uid) l) eqn:E.
  - rewrite (unique_match_count _ _ _ Hu E). lia.
  - rewrite (filter_none _ _ E). simpl. lia.
Qed.

(** X6. In every state the running backend reaches, the constraints the
    engine enforces hold: feature ids are pairwise different, vote ids are
    pairwise different, there is at most one vote row per pair of feature
    and user, and the rows hold values that a statement has bound.  The
    foreign key, which the engine is not asked to enforce, holds in every
    state the backend reaches when it serves one call at a time, and every
    call issued in such a state leaves one in which the four constraints
    hold again. *)
Theorem schema_constraints_hold (d : db) :
  (reachable d ->
   NoDup (map f_id (features d))
   /\ NoDup (map v_id (votes d))
   /\ unique_pairs (votes d) = true
   /\ (forall fid uid,
         (length (filter (vote_matches fid uid) (votes d)) <= 1)%nat)
   /\ storable d = true)
  /\ (sequential d ->
      schema_ok d = true /\ (forall c, schema_ok (exec d c) = true)).
Proof.
  split.
  - intros Hr. destruct (reachable_keys Hr) as [Hf [Hv [Hu Hs]]].
    split; [exact Hf|]. split; [exact Hv|]. split; [exact Hu|].
    split; [|exact Hs].
    intros fid uid. apply unique_match_at_most_one. exact Hu.
  - intros Hs. pose proof (sequential_consistent Hs) as Hc. split.
    + apply schema_ok_iff. exact Hc.
    + intros c. apply schema_ok_iff. apply exec_consistent. exact Hc.
Qed.

(** ** Who has voted *)

Lemma has_voted_existsb (d : db) (fid : Z) (uid : str) :
  Vote.has_voted d fid uid
  = if int_ok fid && text_ok uid
    then Done (existsb (vote_matches fid uid) (votes d))
    else Raise.
Proof.
  unfold Vote.has_voted, Sql.select_vote.
  destruct (int_ok fid && text_ok uid); [|reflexivity]. cbn [negb].
  destruct (find _ _) eqn:E; f_equal.
  - symmetry. apply find_some_iff. congruence.
  - symmetry. apply find_none_iff. exact E.
Qed.

Lemma feature_exists_dec (d : db) (fid : Z) :
  feature_exists d fid \/ ~ feature_exists d fid.
Proof.
  rewrite feature_exists_iff.
  destruct (existsb (feature_has_id fid) (features d));
    [left; reflexivity | right; discriminate].
Qed.

Lemma vote_exists_dec (d : db) (fid : Z) (uid : str) :
  vote_exists d fid uid \/ ~ vote_exists d fid uid.
Proof.
  rewrite vote_exists_iff.
  destruct (existsb (vote_matches fid uid) (votes d));
    [left; reflexivity | right; discriminate].
Qed.

(** What a successful [add_vote] was given and has done. *)
Lemma add_vote_success (d : db) (now : Z) (fresh : str) (fid : Z)
    (uid : str) :
  res_success (snd (Vote.add_vote d now fresh fid (Some uid))) = true ->
  int_ok fid = true /\ text_ok uid = true
  /\ feature_exists d fid /\ ~ vote_exists d fid uid
  /\ Vote.add_vote d now fresh fid (Some uid) =
     (mk_db (features d)
            (votes d ++ [mk_vote_row (next_rowid (votes_seq d)
                                                 (map v_id (votes d)))
                                     fid uid now])
            (features_seq d)
            (next_rowid (votes_seq d) (map v_id (votes d))),
      mk_vote_result true msg_vote_added (Some uid)).
Proof.
  destruct (add_vote_cases d now fresh fid uid)
    as [Hbig [Htext [Hnf [Hdup Hok]]]].
  intros H. destruct (int_ok fid) eqn:Hi;
    [|rewrite (Hbig eq_refl) in H; discriminate].
  destruct (feature_exists_dec d fid) as [Hf|Hf];
    [|rewrite (Hnf eq_refl Hf) in H; discriminate].
  destruct (text_ok uid) eqn:Ht;
    [|rewrite (Htext eq_refl Hf eq_refl) in H; discriminate].
  destruct (vote_exists_dec d fid uid) as [Hv|Hv];
    [rewrite (Hdup eq_refl eq_refl Hf Hv) in H; discriminate|].
  repeat split; try assumption. exact (Hok eq_refl eq_refl Hf Hv).
Qed.

(** A failed [add_vote] leaves the state as it was. *)
Lemma add_vote_failure (d : db) (now : Z) (fresh : str) (fid : Z)
    (uid : option str) :
  res_success (snd (Vote.add_vote d now fresh fid uid)) = false ->
  fst (Vote.add_vote d now fresh fid uid) = d.
Proof.
  unfold Vote.add_vote.
  destruct (negb (int_ok fid)); [reflexivity|].
  destruct (Sql.select_feature d fid); [|reflexivity].
  destruct (negb _); [reflexivity|].
  destruct (Sql.select_vote d fid _); [reflexivity|].
  destruct (Sql.insert_vote d now fid _); [discriminate | reflexivity].
Qed.

(** The vote rows after [add_vote]: the old ones, and after a success the
    new row at the end. *)
Lemma add_vote_votes (d : db) (now : Z) (fresh : str) (fid : Z) (uid : str) :
  votes (fst (Vote.add_vote d now fresh fid (Some uid)))
  = if res_success (snd (Vote.add_vote d now fresh fid (Some uid)))
    then votes d ++ [mk_vote_row (next_rowid (votes_seq d)
                                             (map v_id (votes d)))
                                 fid uid now]
    else votes d.
Proof.
  destruct (res_success (snd (Vote.add_vote d now fresh fid (Some uid))))
    eqn:E.
  - apply add_vote_success in E. destruct E as [_ [_ [_ [_ ->]]]].
    reflexivity.
  - rewrite (add_vote_failure _ _ _ _ _ E). reflexivity.
Qed.

Lemma vote_matches_other (fid fid' : Z) (uid uid' : str) (v : vote_row) :
  (fid', uid') <> (fid, uid) -> vote_matches fid' uid' v = true ->
  vote_matches fid uid v = false.
Proof.
  intros Hne H. apply not_true_iff_false. intros H'.
  apply vote_matches_iff in H. apply vote_matches_iff in H'.
  destruct H as [<- <-]. destruct H' as [<- <-]. apply Hne. reflexivity.
Qed.

Lemma existsb_filter_other {A} (p q : A -> bool) (l : list A) :
  (forall x, q x = true -> p x = false) ->
  existsb q (filter (fun x => negb (p x)) l) = existsb q l.
Proof.
  intros H. induction l as [|x l IH]; simpl; [reflexivity|].
  destruct (p x) eqn:Ep; simpl.
  - rewrite IH. destruct (q x) eqn:Eq; [|reflexivity].
    rewrite (H x Eq) in Ep. discriminate.
  - rewrite IH. reflexivity.
Qed.

Lemma existsb_filter_same {A} (p : A -> bool) (l : list A) :
  existsb p (filter (fun x => negb (p x)) l) = false.
Proof.
  induction l as [|x l IH]; simpl; [reflexivity|].
  destruct (p x) eqn:Ep; simpl; [exact IH|]. rewrite Ep. exact IH.
Qed.

(** X7. [has_voted], for a pair that can be bound, answers whether a
    vote row for the pair exists.  It is false before and true after an
    [add_vote] that succeeds, false after a [remove_vote] for the pair.
    For a pair that cannot be bound it raises, and [add_vote] and
    [remove_vote] fail.  Neither call changes its answer for any other pair
    of feature and user. *)
Theorem has_voted_tracks_votes (d : db) (now : Z) (fresh : str) (fid : Z)
    (uid : str) :
  (int_ok fid = true -> text_ok uid = true ->
   (Vote.has_voted d fid uid = Done true <-> vote_exists d fid uid)
   /\ (Vote.has_voted d fid uid = Done false <-> ~ vote_exists d fid uid)
   /\ Vote.has_voted (fst (Vote.remove_vote d fid uid)) fid uid = Done false)
  /\ (res_success (snd (Vote.add_vote d now fresh fid (Some uid))) = true ->
      Vote.has_voted d fid uid = Done false
      /\ Vote.has_voted (fst (Vote.add_vote d now fresh fid (Some uid)))
                        fid uid = Done true)
  /\ (int_ok fid && text_ok uid = false ->
      Vote.has_voted d fid uid = Raise
      /\ res_success (snd (Vote.add_vote d now fresh fid (Some uid))) = false
      /\ res_success (snd (Vote.remove_vote d fid uid)) = false)
  /\ (forall fid' uid', (fid', uid') <> (fid, uid) ->
        Vote.has_voted (fst (Vote.add_vote d now fresh fid (Some uid)))
                       fid' uid'
        = Vote.has_voted d fid' uid'
        /\ Vote.has_voted (fst (Vote.remove_vote d fid uid)) fid' uid'
           = Vote.has_voted d fid' uid').
Proof.
  assert (Hnew : vote_matches fid uid
                   (mk_vote_row (next_rowid (votes_seq d) (map v_id (votes d)))
                                fid uid now) = true)
    by (apply vote_matches_iff; split; reflexivity).
  split; [|split; [|split]].
  - intros Hi Ht. rewrite remove_vote_state, !has_voted_existsb, Hi, Ht.
    cbn [andb]. rewrite vote_exists_iff. split; [|split].
    + split; [intros E; injection E; auto | intros ->; reflexivity].
    + rewrite not_true_iff_false.
      split; [intros E; injection E; auto | intros ->; reflexivity].
    + simpl. rewrite existsb_filter_same. reflexivity.
  - intros H. apply add_vote_success in H.
    destruct H as [Hi [Ht [_ [Hv ->]]]].
    rewrite !has_voted_existsb, Hi, Ht. cbn [andb fst votes].
    rewrite vote_exists_iff, not_true_iff_false in Hv. rewrite Hv.
    split; [reflexivity|]. rewrite existsb_app. simpl. rewrite Hnew.
    rewrite orb_true_r. reflexivity.
  - intros Hb. rewrite has_voted_existsb, Hb.
    split; [reflexivity|]. split.
    + destruct (res_success _) eqn:E; [|reflexivity].
      apply add_vote_success in E. destruct E as [Hi [Ht _]].
      rewrite Hi, Ht in Hb. discriminate.
    + rewrite (@remove_vote_raises d fid uid Hb). reflexivity.
  - intros fid' uid' Hne. rewrite !has_voted_existsb.
    destruct (int_ok fid' && text_ok uid'); [|split; reflexivity].
    split; f_equal.
    + rewrite add_vote_votes. destruct (res_success _); [|reflexivity].
      rewrite existsb_app. simpl.
      assert (Hm : vote_matches fid' uid'
                     (mk_vote_row (next_rowid (votes_seq d)
                                              (map v_id (votes d)))
                                  fid uid now) = false).
      { apply not_true_iff_false. intros H. apply vote_matches_iff in H.
        simpl in H. destruct H as [<- <-]. apply Hne. reflexivity. }
      rewrite Hm. rewrite !orb_false_r. reflexivity.
    + rewrite remove_vote_state.
      destruct (int_ok fid && text_ok uid); [|reflexivity]. simpl.
      apply existsb_filter_other. intros v Hv.
      eapply vote_matches_other; eassumption.
Qed.

(** ** The votes of a user *)

Lemma user_votes_in (d : db) (uid : str) (fid : Z) :
  In fid (Vote.get_user_votes d uid) <-> vote_exists d fid uid.
Proof.
  unfold Vote.get_user_votes, vote_exists, vote_of_user.
  rewrite in_map_iff. split.
  - intros [v [E Hin]]. apply filter_In in Hin. destruct Hin as [Hin Hu].
    apply str_eqb_eq in Hu. exists v. auto.
  - intros [v [Hin [Ef Eu]]]. exists v. split; [exact Ef|].
    apply filter_In. split; [exact Hin | apply str_eqb_eq; exact Eu].
Qed.

Lemma user_votes_nodup (uid : str) (l : list vote_row) :
  unique_pairs l = true ->
  NoDup (map v_feature_id (filter (vote_of_user uid) l)).
Proof.
  induction l as [|v l IH]; simpl; [constructor|].
  rewrite andb_true_iff, negb_true_iff. intros [Hn Hu].
  destruct (vote_of_user uid v) eqn:E; simpl; [|auto].
  constructor; [|auto]. intros Hin. apply in_map_iff in Hin.
  destruct Hin as [w [Ew Hw]]. apply filter_In in Hw. destruct Hw as [Hw Eu].
  assert (existsb (vote_matches (v_feature_id v) (v_user_id v)) l = true);
    [|congruence].
  apply existsb_exists. exists w. split; [exact Hw|].
  apply vote_matches_iff. split; [exact Ew|].
  unfold vote_of_user in *. apply str_eqb_eq in E. apply str_eqb_eq in Eu.
  congruence.
Qed.

(** X8. [get_user_votes] lists the features the user has a vote row for:
    a feature id is in the list exactly when a vote row of the user exists
    for it, which is when [has_voted] holds for it if the pair can be
    bound; under the UNIQUE constraint, and so in every state the running
    backend reaches, no id is listed twice; in a state the backend reaches
    when it serves one call at a time every listed id is the id of an
    existing feature; a successful [add_vote] appends the feature at the
    end of the voter's list; and the handler answers with the list and its
    length, leaving the state as it is. *)
Theorem user_votes_spec (d : db) (uid : str) :
  (forall fid, In fid (Vote.get_user_votes d uid) <-> vote_exists d fid uid)
  /\ (forall fid, int_ok fid = true -> text_ok uid = true ->
        (In fid (Vote.get_user_votes d uid) <->
         Vote.has_voted d fid uid = Done true))
  /\ (unique_pairs (votes d) = true -> NoDup (Vote.get_user_votes d uid))
  /\ (reachable d -> NoDup (Vote.get_user_votes d uid))
  /\ (sequential d ->
      forall fid, In fid (Vote.get_user_votes d uid) -> feature_exists d fid)
  /\ (forall now fresh fid,
        res_success (snd (Vote.add_vote d now fresh fid (Some uid))) = true ->
        Vote.get_user_votes (fst (Vote.add_vote d now fresh fid (Some uid))) uid
        = Vote.get_user_votes d uid ++ [fid])
  /\ Routes.get_user_votes d uid =
     (d, (UserVotes uid (Vote.get_user_votes d uid)
                    (length (Vote.get_user_votes d uid)), 200)).
Proof.
  split; [|split; [|split; [|split; [|split; [|split]]]]].
  - intros fid. apply user_votes_in.
  - intros fid Hi Ht. rewrite user_votes_in, has_voted_existsb, Hi, Ht.
    cbn [andb]. rewrite vote_exists_iff.
    split; [intros ->; reflexivity | intros E; injection E; auto].
  - apply user_votes_nodup.
  - intros Hr. apply user_votes_nodup. apply (reachable_keys Hr).
  - intros Hr fid Hin. apply user_votes_in in Hin.
    eapply no_orphans_feature_exists; [|exact Hin].
    apply no_orphans_iff. apply sequential_consistent in Hr. apply Hr.
  - intros now fresh fid H. unfold Vote.get_user_votes.
    rewrite add_vote_votes, H.
    rewrite filter_app, map_app. simpl. unfold vote_of_user at 2. simpl.
    rewrite str_eqb_refl. reflexivity.
  - reflexivity.
Qed.

(** ** One feature and the listing *)

Lemma find_distinct (l : list feature_row) (f : feature_row) :
  distinct (map f_id l) = true -> In f l ->
  find (feature_has_id (f_id f)) l = Some f.
Proof.
  induction l as [|g l IH]; simpl; [tauto|].
  rewrite andb_true_iff, negb_true_iff. intros [Hn Hd] [->|Hin].
  - unfold feature_has_id. rewrite Z.eqb_refl. reflexivity.
  - unfold feature_has_id at 1. destruct (f_id g =? f_id f) eqn:E.
    + exfalso. apply Z.eqb_eq in E.
      assert (existsb (Z.eqb (f_id g)) (map f_id l) = true); [|congruence].
      apply existsb_exists. exists (f_id f).
      split; [apply in_map; exact Hin | apply Z.eqb_eq; exact E].
    + apply IH; assumption.
Qed.

(** X9. With pairwise different feature ids, the [get_feature] handler
    answers for every row of the listing whose id is in the 64-bit range
    with the columns and the vote count that the listing shows for it; for
    an id in that range that no feature has it answers 404, and for an id
    outside the range 500 "Internal server error".  It never changes the
    state. *)
Theorem get_feature_matches_listing (d : db) :
  distinct (map f_id (features d)) = true ->
  (forall r, In r (Feature.get_all_with_votes d) ->
     let f := rk_feature r in
     int_ok (f_id f) = true ->
     Routes.get_feature d (f_id f) =
     (d, (FeatureJson (Some (f_id f)) (Some (f_title f)) (f_description f)
                      (Some (f_created_at f)) (Some (f_updated_at f))
                      (rk_vote_count r), 200)))
  /\ (forall fid, int_ok fid = true -> ~ feature_exists d fid ->
        Routes.get_feature d fid = (d, (Error msg_feature_not_found, 404)))
  /\ (forall fid, int_ok fid = false ->
        Routes.get_feature d fid = (d, (Error msg_internal_error, 500)))
  /\ (forall fid, fst (Routes.get_feature d fid) = d).
Proof.
  intros Hd. split; [|split; [|split]].
  - intros r Hin. destruct (ranking_rows d r Hin) as [Hf Hc]. cbv zeta.
    intros Hi.
    unfold Routes.get_feature, Feature.get_by_id, Sql.select_feature.
    rewrite Hi. cbn [negb].
    rewrite (find_distinct _ _ Hd Hf). simpl.
    rewrite Hc. reflexivity.
  - intros fid Hi H. unfold Routes.get_feature.
    rewrite (@get_by_id_none d fid Hi H). reflexivity.
  - intros fid Hi. unfold Routes.get_feature.
    rewrite (@get_by_id_raise d fid Hi). reflexivity.
  - intros fid. apply get_feature_state.
Qed.

(** ** Deleting an existing feature *)

Lemma filter_filter_implied {A} (p q : A -> bool) (l : list A) :
  (forall x, q x = true -> p x = true) ->
  filter q (filter p l) = filter q l.
Proof.
  intros H. induction l as [|x l IH]; simpl; [reflexivity|].
  destruct (p x) eqn:Ep; simpl.
  - rewrite IH. reflexivity.
  - destruct (q x) eqn:Eq; [|exact IH].
    rewrite (H x Eq) in Ep. discriminate.
Qed.

Lemma find_filter_implied {A} (p q : A -> bool) (l : list A) :
  (forall x, q x = true -> p x = true) ->
  find q (filter p l) = find q l.
Proof.
  intros H. induction l as [|x l IH]; simpl; [reflexivity|].
  destruct (p x) eqn:Ep; simpl.
  - rewrite IH. reflexivity.
  - destruct (q x) eqn:Eq; [|exact IH].
    rewrite (H x Eq) in Ep. discriminate.
Qed.

Lemma filter_split_length {A} (p : A -> bool) (l : list A) :
  (length (filter (fun x => negb (p x)) l) + length (filter p l)
   = length l)%nat.
Proof.
  induction l as [|x l IH]; simpl; [reflexivity|].
  destruct (p x); simpl; lia.
Qed.

Lemma user_votes_without_feature (fid : Z) (uid : str) (l : list vote_row) :
  map v_feature_id
      (filter (vote_of_user uid)
              (filter (fun v => negb (vote_of_feature fid v)) l))
  = filter (fun i => negb (i =? fid))
           (map v_feature_id (filter (vote_of_user uid) l)).
Proof.
  induction l as [|v l IH]; simpl; [reflexivity|].
  unfold vote_of_feature at 1.
  destruct (v_feature_id v =? fid) eqn:Ef; simpl;
    destruct (vote_of_user uid v); simpl; rewrite ?Ef; simpl; rewrite IH;
    reflexivity.
Qed.

(** X10. For a feature that exists and whose id is in the 64-bit range,
    the [delete_feature] handler answers 200 "Feature deleted
    successfully" and leaves the state of [Feature.delete]: the feature and
    its votes are gone, so the handlers that fetch it, list its votes, vote
    for it or delete it again answer 404, and it has left every user's list
    of votes; every other feature and the votes of every other feature are
    as before, and the votes table has shrunk by the vote count of the
    deleted feature. *)
Theorem delete_existing_feature (d : db) (fid : Z) :
  int_ok fid = true ->
  feature_exists d fid ->
  let d' := fst (Feature.delete d fid) in
  Routes.delete_feature d fid = (d', (Message msg_feature_deleted, 200))
  /\ Routes.get_feature d' fid = (d', (Error msg_feature_not_found, 404))
  /\ Routes.get_feature_votes d' fid =
     (d', (Error msg_feature_not_found, 404))
  /\ (forall now fresh data,
        Routes.vote_for_feature d' now fresh fid data =
        (d', (Error msg_feature_not_found, 404)))
  /\ Routes.delete_feature d' fid = (d', not_found_response)
  /\ (forall fid', fid' <> fid ->
        Feature.get_by_id d' fid' = Feature.get_by_id d fid'
        /\ Vote.get_votes_by_feature d' fid' = Vote.get_votes_by_feature d fid')
  /\ (forall uid,
        Vote.get_user_votes d' uid =
        filter (fun i => negb (i =? fid)) (Vote.get_user_votes d uid))
  /\ (length (votes d') + Vote.get_vote_count d fid = length (votes d))%nat.
Proof.
  intros Hi Hex d'.
  destruct (feature_delete_sweeps d fid) as [_ [_ Hgone]]. fold d' in Hgone.
  pose proof (@get_by_id_none d' fid Hi Hgone) as Hnone.
  split; [|split; [|split; [|split; [|split; [|split; [|split]]]]]].
  - unfold Routes.delete_feature.
    destruct (@get_by_id_some d fid Hi Hex) as [o ->].
    apply feature_exists_iff, existsb_exists in Hex.
    destruct Hex as [g [Hin Hm]].
    assert (Hf : In g (filter (feature_has_id fid) (features d)))
      by (apply filter_In; split; assumption).
    unfold d'. simpl.
    destruct (filter (feature_has_id fid) (features d)); [destruct Hf|].
    reflexivity.
  - unfold Routes.get_feature. rewrite Hnone. reflexivity.
  - unfold Routes.get_feature_votes. rewrite Hnone. reflexivity.
  - intros now fresh data. unfold Routes.vote_for_feature.
    destruct (add_vote_cases d' now fresh fid (Routes.voter_id fresh data))
      as [_ [_ [Hnf _]]].
    rewrite (Hnf Hi Hgone). reflexivity.
  - unfold Routes.delete_feature. rewrite Hnone. reflexivity.
  - intros fid' Hne. split.
    + unfold Feature.get_by_id, Sql.select_feature, d'. simpl.
      rewrite find_filter_implied; [reflexivity|].
      intros f Hf. unfold feature_has_id in *. apply Z.eqb_eq in Hf.
      apply negb_true_iff, Z.eqb_neq. congruence.
    + unfold Vote.get_votes_by_feature, d'. simpl.
      apply filter_filter_implied.
      intros v Hv. unfold vote_of_feature in *. apply Z.eqb_eq in Hv.
      apply negb_true_iff, Z.eqb_neq. congruence.
  - intros uid. unfold Vote.get_user_votes, d'. simpl.
    apply user_votes_without_feature.
  - unfold d', Vote.get_vote_count. simpl. apply filter_split_length.
Qed.

(** ** Statistics *)

Lemma count_leb_total (r1 r2 : ranked) :
  count_leb r1 r2 = false -> count_leb r2 r1 = true.
Proof.
  unfold count_leb. rewrite Nat.leb_gt, Nat.leb_le. lia.
Qed.

Lemma count_leb_trans (r1 r2 r3 : ranked) :
  count_leb r1 r2 = true -> count_leb r2 r3 = true -> count_leb r1 r3 = true.
Proof. unfold count_leb. rewrite !Nat.leb_le. lia. Qed.

Lemma sum_pointwise {A} (a b : A -> nat) (l : list A) :
  list_sum (map (fun x => a x + b x)%nat l)
  = (list_sum (map a l) + list_sum (map b l))%nat.
Proof. induction l as [|x l IH]; simpl; [reflexivity | rewrite IH; lia]. Qed.

Lemma one_feature_per_id (k : Z) (fs : list feature_row) :
  distinct (map f_id fs) = true ->
  existsb (feature_has_id k) fs = true ->
  list_sum (map (fun f => if k =? f_id f then 1%nat else 0%nat) fs) = 1%nat.
Proof.
  induction fs as [|f fs IH]; simpl; [discriminate|].
  rewrite andb_true_iff, negb_true_iff. intros [Hn Hd].
  unfold feature_has_id at 1. rewrite (Z.eqb_sym k).
  destruct (f_id f =? k) eqn:E; simpl.
  - intros _. apply Z.eqb_eq in E. subst k.
    assert (Hz : list_sum
                   (map (fun g => if f_id f =? f_id g then 1%nat else 0%nat)
                        fs) = 0%nat).
    { clear IH Hd. induction fs as [|g fs IH]; simpl in *; [reflexivity|].
      apply orb_false_iff in Hn. destruct Hn as [-> Hn]. apply IH. exact Hn. }
    rewrite Hz. reflexivity.
  - intros H. apply IH; assumption.
Qed.

Lemma votes_partition (fs : list feature_row) (vs : list vote_row) :
  distinct (map f_id fs) = true ->
  forallb (fun v => existsb (feature_has_id (v_feature_id v)) fs) vs = true ->
  list_sum (map (fun f => length (filter (vote_of_feature (f_id f)) vs)) fs)
  = length vs.
Proof.
  intros Hd. induction vs as [|v vs IH]; simpl.
  - intros _. induction fs as [|f fs IHf]; simpl; [reflexivity|].
    simpl in Hd. apply andb_true_iff in Hd. apply IHf. tauto.
  - rewrite andb_true_iff. intros [Hv Hvs].
    transitivity
      (list_sum
         (map (fun f =>
                 Nat.add (if v_feature_id v =? f_id f then 1%nat else 0%nat)
                         (length (filter (vote_of_feature (f_id f)) vs)))
              fs)).
    + f_equal. apply map_ext. intros f. unfold vote_of_feature at 1.
      destruct (v_feature_id v =? f_id f); reflexivity.
    + rewrite sum_pointwise, (IH Hvs), (one_feature_per_id _ _ Hd Hv).
      reflexivity.
Qed.

(** X11. [get_database_stats] reports the number of feature rows and of
    vote rows.  Its top feature is [None] exactly when there is no feature;
    otherwise it is the title and vote count of a feature whose count no
    other feature exceeds.  When the constraints of the schema hold, the
    total number of votes is the sum of the vote counts of the features.
    The [get_stats] handler answers with the same two totals. *)
Theorem stats_spec (d : db) :
  total_features (get_database_stats d) = length (features d)
  /\ total_votes (get_database_stats d) = length (votes d)
  /\ (top_feature (get_database_stats d) = None <-> features d = [])
  /\ (forall t c, top_feature (get_database_stats d) = Some (t, c) ->
        (exists f, In f (features d) /\ f_title f = t
                   /\ Vote.get_vote_count d (f_id f) = c)
        /\ (forall f, In f (features d) ->
                      (Vote.get_vote_count d (f_id f) <= c)%nat))
  /\ (schema_ok d = true ->
      total_votes (get_database_stats d)
      = list_sum (map rk_vote_count (Feature.get_all_with_votes d)))
  /\ get_stats d = ((total_features (get_database_stats d),
                     total_votes (get_database_stats d)), 200).
Proof.
  pose proof (order_by_perm count_leb (Feature.with_votes d)) as Hp.
  pose proof (@order_by_sorted _ count_leb count_leb_total count_leb_trans
                               (Feature.with_votes d)) as Hs.
  split; [reflexivity|]. split; [reflexivity|].
  split; [|split; [|split; [|reflexivity]]].
  - unfold get_database_stats. simpl.
    destruct (order_by count_leb (Feature.with_votes d)) as [|r l] eqn:E.
    + apply Permutation_sym, Permutation_nil in Hp.
      unfold Feature.with_votes in Hp. apply map_eq_nil in Hp.
      rewrite Hp. tauto.
    + split; [discriminate|]. intros Hf.
      unfold Feature.with_votes in Hp. rewrite Hf in Hp. simpl in Hp.
      apply Permutation_nil in Hp. discriminate.
  - intros t c. unfold get_database_stats. simpl.
    destruct (order_by count_leb (Feature.with_votes d)) as [|r l] eqn:E;
      [discriminate|].
    intros H. injection H as <- <-.
    assert (Hin : forall x, In x (Feature.with_votes d) <-> In x (r :: l)).
    { intros x. split; intros Hx.
      - eapply Permutation_in; [exact Hp | exact Hx].
      - eapply Permutation_in; [apply Permutation_sym; exact Hp | exact Hx]. }
    split.
    + assert (Hr : In r (Feature.with_votes d))
        by (apply Hin; left; reflexivity).
      unfold Feature.with_votes in Hr. apply in_map_iff in Hr.
      destruct Hr as [f [<- Hf]]. exists f. simpl. auto.
    + intros f Hf.
      assert (Hx : In (mk_ranked f (Vote.get_vote_count d (f_id f)))
                      (r :: l)).
      { apply Hin. unfold Feature.with_votes. apply in_map_iff.
        exists f. auto. }
      inversion Hs as [|? ? _ Hall]; subst.
      destruct Hx as [->|Hx]; [simpl; lia|].
      rewrite Forall_forall in Hall. specialize (Hall _ Hx).
      unfold count_leb in Hall. apply Nat.leb_le in Hall. exact Hall.
  - intros Hok. unfold schema_ok in Hok. rewrite !andb_true_iff in Hok.
    destruct Hok as [[[Hd _] _] Ho]. simpl.
    rewrite <- (Permutation_list_sum
                  (Permutation_map rk_vote_count (ranking_perm d))).
    unfold Feature.with_votes. rewrite map_map. simpl.
    symmetry. apply votes_partition; assumption.
Qed.

(** ** The answers of the vote endpoints *)

(** X12. The four answers of the vote endpoint.  The status is 201
    exactly when the pair can be bound, the feature exists and the voter
    has no vote on it; 404 exactly when the feature id is in the 64-bit
    range and no feature has it; 409 exactly when the pair can be bound,
    the feature exists and the voter has voted; and 400, with the message
    "Error adding vote", exactly when the feature id is outside the 64-bit
    range, or the feature exists and the voter identity cannot be bound.
    There is no other status, and unless it is 201 the state is
    unchanged. *)
Theorem vote_endpoint_status (d : db) (now : Z) (fresh : str) (fid : Z)
    (data : option vote_payload) :
  let uid := Routes.voter_id fresh data in
  let answer := Routes.vote_for_feature d now fresh fid data in
  let st := snd (snd answer) in
  (st = 201 <-> int_ok fid = true /\ text_ok uid = true
                /\ feature_exists d fid /\ ~ vote_exists d fid uid)
  /\ (st = 404 <-> int_ok fid = true /\ ~ feature_exists d fid)
  /\ (st = 409 <-> int_ok fid = true /\ text_ok uid = true
                   /\ feature_exists d fid /\ vote_exists d fid uid)
  /\ (st = 400 <-> int_ok fid = false
                   \/ (feature_exists d fid /\ text_ok uid = false))
  /\ (st = 400 -> fst (snd answer) = Error msg_error_adding_vote)
  /\ (st = 201 \/ st = 404 \/ st = 409 \/ st = 400)
  /\ (st <> 201 -> fst answer = d).
Proof.
  intros uid answer st. subst st answer.
  destruct (add_vote_cases d now fresh fid uid)
    as [Hbig [Htext [Hnf [Hdup Hok]]]].
  unfold Routes.vote_for_feature. fold uid.
  destruct (int_ok fid) eqn:Hi.
  - destruct (feature_exists_dec d fid) as [Hf|Hf].
    + destruct (text_ok uid) eqn:Ht.
      * destruct (vote_exists_dec d fid uid) as [Hv|Hv].
        -- rewrite (Hdup eq_refl eq_refl Hf Hv). simpl.
           repeat split; try discriminate; try tauto; intros;
             try discriminate; try tauto.
           destruct H as [H|[_ H]]; discriminate.
        -- rewrite (Hok eq_refl eq_refl Hf Hv). simpl.
           repeat split; try discriminate; try tauto; intros;
             try discriminate; try tauto; try congruence.
           destruct H as [H|[_ H]]; discriminate.
      * rewrite (Htext eq_refl Hf eq_refl). simpl.
        repeat split; try discriminate; try tauto; intros;
          try discriminate; try tauto.
        -- destruct H as [_ [H _]]; discriminate.
        -- destruct H as [_ [H _]]; discriminate.
    + rewrite (Hnf eq_refl Hf). simpl.
      repeat split; try discriminate; try tauto; intros;
        try discriminate; try tauto.
      destruct H as [H|[H _]]; [discriminate | contradiction].
  - rewrite (Hbig eq_refl). simpl.
    repeat split; try discriminate; try tauto; intros;
      try discriminate; try tauto.
    + destruct H as [H _]; discriminate.
    + destruct H as [H _]; discriminate.
    + destruct H as [H _]; discriminate.
Qed.

(** X13. The retract endpoint needs a user id: for a request without body,
    without [user_id] or with an empty one it answers 400 "User ID is
    required" and changes nothing, whatever votes exist, so a vote row with
    an empty user id (which [Vote.add_vote] accepts) can be removed by
    [Vote.remove_vote] and not through the endpoint.  With a user id, in a
    state whose rows hold bound values, the status is 200 exactly when the
    vote exists and 404 otherwise. *)
Theorem retract_endpoint_status (d : db) (fid : Z) :
  Routes.remove_vote_from_feature d fid None =
  (d, (Error msg_user_id_required, 400))
  /\ Routes.remove_vote_from_feature d fid (Some (mk_vote_payload None)) =
     (d, (Error msg_user_id_required, 400))
  /\ Routes.remove_vote_from_feature d fid empty_user =
     (d, (Error msg_user_id_required, 400))
  /\ (storable d = true -> vote_exists d fid [] ->
      res_success (snd (Vote.remove_vote d fid [])) = true
      /\ ~ vote_exists (fst (Vote.remove_vote d fid [])) fid [])
  /\ (storable d = true -> forall uid : str, uid <> [] ->
        let st := snd (snd (Routes.remove_vote_from_feature
                              d fid (Some (mk_vote_payload (Some uid))))) in
        (st = 200 <-> vote_exists d fid uid)
        /\ (st = 404 <-> ~ vote_exists d fid uid)).
Proof.
  split; [reflexivity|]. split; [reflexivity|]. split; [reflexivity|]. split.
  - intros Hs H. destruct (storable_vote Hs H) as [Hi Ht].
    rewrite (remove_vote_found Hi Ht H). simpl.
    split; [reflexivity | apply without_vote_gone].
  - intros Hs uid Hne. cbv zeta. rewrite (remove_vote_route d fid Hne).
    destruct (vote_exists_dec d fid uid) as [Hv|Hv].
    + destruct (storable_vote Hs Hv) as [Hi Ht].
      rewrite (remove_vote_found Hi Ht Hv). simpl.
      split; split; try tauto; try discriminate.
    + destruct (int_ok fid && text_ok uid) eqn:Hb.
      * apply andb_true_iff in Hb. destruct Hb as [Hi Ht].
        rewrite (remove_vote_missing Hi Ht Hv). simpl.
        split; split; try tauto; try discriminate.
      * rewrite (@remove_vote_raises d fid uid Hb). simpl.
        split; split; try tauto; try discriminate.
Qed.

(** ** Pages of the listing *)

Lemma page_window (d : db) (o k : Z) :
  0 < k -> 0 <= o ->
  page d o k
  = firstn (Z.to_nat k) (skipn (Z.to_nat o) (Feature.get_all_with_votes d)).
Proof.
  intros Hk Ho. unfold page. rewrite get_features_window by assumption.
  reflexivity.
Qed.

Lemma firstn_add {A} (n m : nat) (l : list A) :
  firstn n l ++ firstn m (skipn n l) = firstn (n + m) l.
Proof.
  revert l; induction n as [|n IH]; intros [|x l]; simpl;
    rewrite ?firstn_nil; try reflexivity.
  rewrite IH. reflexivity.
Qed.

(** X14. For a positive limit [k] and an offset [o >= 0], the page is the
    ranking without its first [o] rows, cut after [k] rows.  It holds
    [min k (total - o)] rows, none when the offset is at or beyond the
    total; the page at offset [o + k] continues it, so consecutive pages
    put together are the ranking in order, without a row repeated or left
    out. *)
Theorem pages_tile_ranking (d : db) (o k k' : Z) :
  0 < k -> 0 < k' -> 0 <= o ->
  let total := length (Feature.get_all_with_votes d) in
  page d o k
  = firstn (Z.to_nat k) (skipn (Z.to_nat o) (Feature.get_all_with_votes d))
  /\ length (page d o k) = Nat.min (Z.to_nat k) (total - Z.to_nat o)
  /\ (Z.of_nat total <= o -> page d o k = [])
  /\ page d o k ++ page d (o + k) k' = page d o (k + k')
  /\ page d 0 (Z.of_nat total + k) = Feature.get_all_with_votes d.
Proof.
  intros Hk Hk' Ho total.
  rewrite !page_window by lia.
  split; [reflexivity|]. split; [|split; [|split]].
  - rewrite length_firstn, length_skipn. reflexivity.
  - intros H. rewrite skipn_all2 by (subst total; lia). apply firstn_nil.
  - replace (Z.to_nat (o + k)) with (Z.to_nat k + Z.to_nat o)%nat by lia.
    rewrite <- skipn_skipn.
    replace (Z.to_nat (k + k')) with (Z.to_nat k + Z.to_nat k')%nat by lia.
    apply firstn_add.
  - simpl. apply firstn_all2. subst total. lia.
Qed.

(** ** Votes of several users *)

Lemma cast_all_cons (d : db) (now : Z) (fresh : str) (fid : Z) (u : str)
    (us : list str) :
  cast_all d now fresh fid (u :: us)
  = cast_all (fst (Routes.vote_for_feature
                     d now fresh fid (Some (mk_vote_payload (Some u)))))
             now fresh fid us.
Proof. reflexivity. Qed.

Lemma vote_kept_by_vote (d : db) (now : Z) (fresh : str) (fid : Z)
    (data : option vote_payload) (fid' : Z) (uid' : str) :
  vote_exists d fid' uid' ->
  vote_exists (fst (Routes.vote_for_feature d now fresh fid data)) fid' uid'.
Proof.
  rewrite vote_for_feature_state. intros [v [Hin Hk]]. exists v.
  split; [|exact Hk].
  destruct (add_vote_state d now fresh fid
              (Some (Routes.voter_id fresh data))) as [->|[u [_ E]]];
    [exact Hin|].
  apply insert_vote_inv in E. destruct E as [_ [_ [_ ->]]]. simpl.
  apply in_or_app. left. exact Hin.
Qed.

Lemma vote_kept_by_cast_all (now : Z) (fresh : str) (fid : Z)
    (us : list str) (d : db) (fid' : Z) (uid' : str) :
  vote_exists d fid' uid' ->
  vote_exists (cast_all d now fresh fid us) fid' uid'.
Proof.
  revert d; induction us as [|u us IH]; intros d H; [exact H|].
  rewrite cast_all_cons. apply IH. apply vote_kept_by_vote. exact H.
Qed.

Lemma cast_all_counts (now : Z) (fresh : str) (fid : Z) (us : list str)
    (d : db) :
  int_ok fid = true -> feature_exists d fid -> NoDup us ->
  (forall u, In u us ->
     u <> [] /\ text_ok u = true /\ ~ vote_exists d fid u) ->
  Vote.get_vote_count (cast_all d now fresh fid us) fid
  = (Vote.get_vote_count d fid + length us)%nat
  /\ features (cast_all d now fresh fid us) = features d
  /\ (forall u, In u us -> vote_exists (cast_all d now fresh fid us) fid u).
Proof.
  intros Hi. revert d; induction us as [|u us IH]; intros d Hf Hnd Hus.
  - simpl. split; [lia|]. split; [reflexivity|]. intros u [].
  - rewrite cast_all_cons.
    destruct (Hus u (or_introl eq_refl)) as [Hne [Ht Hnv]].
    inversion Hnd as [|? ? Hnotin Hnd']; subst.
    pose proof (@vote_for_feature_inserts d now fresh fid
                  (Some (mk_vote_payload (Some u))) Hi) as Hins.
    rewrite (voter_id_given fresh Hne) in Hins.
    specialize (Hins Ht Hf Hnv). cbv zeta in Hins. rewrite Hins. cbn [fst].
    set (d1 := mk_db (features d)
                     (votes d ++ [mk_vote_row (next_rowid (votes_seq d)
                                                          (map v_id (votes d)))
                                              fid u now])
                     (features_seq d)
                     (next_rowid (votes_seq d) (map v_id (votes d)))).
    assert (Hu1 : vote_exists d1 fid u).
    { eexists. split; [simpl; apply in_or_app; right; left; reflexivity|].
      split; reflexivity. }
    destruct (IH d1) as [Hc [Hfe Hall]].
    + exact Hf.
    + exact Hnd'.
    + intros w Hw. destruct (Hus w (or_intror Hw)) as [Hwne [Hwt Hwnv]].
      split; [exact Hwne|]. split; [exact Hwt|].
      intros [v [Hin [Ev Eu]]]. simpl in Hin.
      apply in_app_or in Hin. destruct Hin as [Hin|[<-|[]]].
      * apply Hwnv. exists v. auto.
      * simpl in Eu. subst w. contradiction.
    + split; [|split].
      * rewrite Hc. unfold d1. rewrite count_after_insert. simpl. lia.
      * rewrite Hfe. reflexivity.
      * intros w [<-|Hw]; [|apply Hall; exact Hw].
        apply vote_kept_by_cast_all. exact Hu1.
Qed.

(** X15. When users with pairwise different, non-empty ids that can be
    bound, who have not voted for an existing feature with an id in the
    64-bit range, each send one vote request, the vote count of the
    feature grows by the number of users and the features are untouched;
    afterwards each of them has a vote on the feature, and a further vote
    request of any of them is answered 409 and changes nothing. *)
Theorem votes_of_distinct_users (d : db) (now : Z) (fresh : str) (fid : Z)
    (us : list str) :
  int_ok fid = true -> feature_exists d fid -> NoDup us ->
  (forall u, In u us ->
     u <> [] /\ text_ok u = true /\ ~ vote_exists d fid u) ->
  let d' := cast_all d now fresh fid us in
  Vote.get_vote_count d' fid = (Vote.get_vote_count d fid + length us)%nat
  /\ features d' = features d
  /\ (forall u, In u us ->
        Vote.has_voted d' fid u = Done true
        /\ forall now' fresh',
             Routes.vote_for_feature d' now' fresh' fid
                                     (Some (mk_vote_payload (Some u)))
             = (d', (Error msg_already_voted, 409))).
Proof.
  intros Hi Hf Hnd Hus d'.
  destruct (@cast_all_counts now fresh fid us d Hi Hf Hnd Hus)
    as [Hc [Hfe Hall]].
  split; [exact Hc|]. split; [exact Hfe|].
  intros u Hu. specialize (Hall u Hu). fold d' in Hall.
  destruct (Hus u Hu) as [Hne [Ht _]].
  split.
  { rewrite has_voted_existsb, Hi, Ht. cbn [andb]. f_equal.
    apply vote_exists_iff. exact Hall. }
  intros now' fresh'.
  assert (Hf' : feature_exists d' fid).
  { destruct Hf as [f [Hin E]]. exists f. split; [|exact E].
    unfold d'. rewrite Hfe. exact Hin. }
  destruct (add_vote_cases d' now' fresh' fid u) as [_ [_ [_ [Hdup _]]]].
  unfold Routes.vote_for_feature. rewrite (voter_id_given fresh' Hne).
  rewrite (Hdup Hi Ht Hf' Hall). reflexivity.
Qed.

(** ** Concurrent votes for one pair: exactly one winner *)

Lemma existsb_count {A} (p : A -> bool) (l : list A) :
  existsb p l = true -> (1 <= length (filter p l))%nat.
Proof.
  induction l as [|x l IH]; simpl; [discriminate|].
  destruct (p x); simpl; [lia | exact IH].
Qed.

Lemma set_thread_all (P : thread -> Prop) (ts : list thread) (i : nat)
    (t' : thread) :
  (forall u, In u ts -> P u) -> P t' ->
  forall u, In u (set_thread ts i t') -> P u.
Proof.
  intros Hall Ht u Hu. apply set_thread_In in Hu.
  destruct Hu as [->|Hu]; auto.
Qed.

Ltac by_set_thread :=
  match goal with
  | |- forall u, In u (set_thread ?ts ?i ?t') -> @?P u =>
      apply (@set_thread_all P ts i t')
  end.

Lemma race_step (fid : Z) (uid : str) (d0 d : db) (ts : list thread)
    (i : nat) :
  int_ok fid = true -> text_ok uid = true ->
  feature_exists d0 fid ->
  race_invariant fid uid d0 d ts ->
  race_invariant fid uid d0 (fst (sched_step (d, ts) i))
                 (snd (sched_step (d, ts) i)).
Proof.
  intros Hi Ht Hex [Hfe [Hkey [Hc [Hle Hret]]]]. unfold sched_step.
  destruct (nth_error ts i) as [t|] eqn:E;
    [|exact (conj Hfe (conj Hkey (conj Hc (conj Hle Hret))))].
  pose proof (nth_error_In _ _ E) as Hin. destruct (Hkey t Hin) as [Kf Ku].
  pose proof (set_thread_succeeded ts i) as Hcount.
  assert (Hfd : feature_exists d fid).
  { destruct Hex as [f [Hf Ef]]. exists f. rewrite Hfe. auto. }
  unfold add_vote_step. destruct t as [now f u p]. simpl in Kf, Ku. subst f u.
  cbn [t_pc t_now t_feature_id t_user_id].
  destruct p as [| | |r].
  - rewrite Hi. cbn [negb].
    destruct (Sql.select_feature d fid) eqn:Es;
      [|apply select_feature_none in Es; contradiction].
    cbn [fst snd].
    specialize (Hcount _ (mk_thread now fid uid AtSelectVote) E).
    simpl in Hcount.
    split; [exact Hfe|]. split; [|split; [|split]].
    + by_set_thread; [exact Hkey | simpl; auto].
    + lia.
    + lia.
    + by_set_thread; [exact Hret | simpl; discriminate].
  - rewrite Hi, Ht. cbn [negb andb].
    destruct (Sql.select_vote d fid uid) eqn:Es; cbn [fst snd].
    + assert (Hv : existsb (vote_matches fid uid) (votes d) = true).
      { apply find_some_iff. unfold Sql.select_vote in Es. congruence. }
      specialize (Hcount _ (mk_thread now fid uid
                              (Returned (mk_vote_result
                                           false msg_already_voted None))) E).
      simpl in Hcount.
      split; [exact Hfe|]. split; [|split; [|split]].
      * by_set_thread; [exact Hkey | simpl; auto].
      * lia.
      * lia.
      * by_set_thread; [exact Hret|]. intros _.
        split; [right; reflexivity | exact Hv].
    + specialize (Hcount _ (mk_thread now fid uid AtInsert) E).
      simpl in Hcount.
      split; [exact Hfe|]. split; [|split; [|split]].
      * by_set_thread; [exact Hkey | simpl; auto].
      * lia.
      * lia.
      * by_set_thread; [exact Hret | simpl; discriminate].
  - unfold Sql.insert_vote. rewrite Hi, Ht. cbn [negb andb].
    destruct (existsb (vote_matches fid uid) (votes d)) eqn:Ev; cbn [fst snd].
    + specialize (Hcount _ (mk_thread now fid uid
                              (Returned (mk_vote_result
                                           false msg_error_adding_vote None)))
                         E).
      simpl in Hcount.
      split; [exact Hfe|]. split; [|split; [|split]].
      * by_set_thread; [exact Hkey | simpl; auto].
      * lia.
      * lia.
      * rewrite ?Ev. by_set_thread; [exact Hret|]. intros _.
        split; [right; reflexivity | reflexivity].
    + specialize (Hcount _ (mk_thread now fid uid
                              (Returned (mk_vote_result
                                           true msg_vote_added (Some uid))))
                         E).
      simpl in Hcount.
      assert (H0 : length (filter succeeded ts) = 0%nat).
      { rewrite <- Hc. rewrite (filter_none _ _ Ev). reflexivity. }
      assert (Hm : vote_matches fid uid
                     (mk_vote_row (next_rowid (votes_seq d)
                                              (map v_id (votes d)))
                                  fid uid now) = true)
        by (apply vote_matches_iff; split; reflexivity).
      split; [exact Hfe|]. split; [|split; [|split]].
      * by_set_thread; [exact Hkey | simpl; auto].
      * cbn [votes]. rewrite count_snoc, Hm. lia.
      * lia.
      * intros x Hx Hr. cbn [votes]. rewrite existsb_app. simpl. rewrite Hm.
        split; [|apply orb_true_iff; right; reflexivity].
        apply set_thread_In in Hx. destruct Hx as [->|Hx];
          [left; reflexivity | apply (Hret x Hx Hr)].
  - cbn [fst snd].
    specialize (Hcount _ (mk_thread now fid uid (Returned r)) E).
    split; [exact Hfe|]. split; [|split; [|split]].
    + by_set_thread; [exact Hkey | simpl; auto].
    + lia.
    + lia.
    + by_set_thread; [exact Hret|]. apply (Hret _ Hin).
Qed.

Lemma race_run (fid : Z) (uid : str) (d0 : db) (schedule : list nat)
    (d : db) (ts : list thread) :
  int_ok fid = true -> text_ok uid = true ->
  feature_exists d0 fid ->
  race_invariant fid uid d0 d ts ->
  race_invariant fid uid d0 (fst (interleave d ts schedule))
                 (snd (interleave d ts schedule)).
Proof.
  intros Hi Ht Hex. unfold interleave. revert d ts.
  induction schedule as [|i schedule IH]; intros d ts H; cbn [fold_left].
  - exact H.
  - pose proof (@race_step fid uid d0 d ts i Hi Ht Hex H) as H1.
    destruct (sched_step (d, ts) i) as [d1 ts1]. apply IH. exact H1.
Qed.

Lemma race_start (fid : Z) (uid : str) (d : db) (ts : list thread) :
  ~ vote_exists d fid uid -> all_start fid uid ts ->
  race_invariant fid uid d d ts.
Proof.
  intros Hv Hs.
  assert (Hn : forall p, (forall t, In t ts -> p t = false) ->
                         filter p ts = []).
  { intros p Hp. apply filter_none. apply not_true_iff_false. intros E.
    apply existsb_exists in E. destruct E as [t [Hin Ht]].
    rewrite (Hp t Hin) in Ht. discriminate. }
  assert (Hsucc : filter succeeded ts = []).
  { apply Hn. intros t Hin. destruct (Hs t Hin) as [_ [_ Hpc]].
    unfold succeeded. rewrite Hpc. reflexivity. }
  rewrite vote_exists_iff, not_true_iff_false in Hv.
  split; [reflexivity|]. split; [|split; [|split]].
  - intros t Hin. destruct (Hs t Hin) as [Kf [Ku _]]. auto.
  - rewrite Hsucc, (filter_none _ _ Hv). reflexivity.
  - rewrite Hsucc. simpl. lia.
  - intros t Hin Hr. destruct (Hs t Hin) as [_ [_ Hpc]].
    unfold returned in Hr. rewrite Hpc in Hr. discriminate.
Qed.

(** X16. Concurrent [add_vote] calls for one pair that can be bound, on
    an existing feature that has no vote of the user, under any
    interleaving of their statements: at every moment the number of vote rows for the pair
    equals the number of calls that have succeeded, which is at most one;
    as soon as any call has returned, exactly one call has succeeded and
    the vote row exists; every returned call has either succeeded or
    failed with "User has already voted for this feature" or "Error adding
    vote", never with "Feature not found"; the features are untouched. *)
Theorem one_winner (fid : Z) (uid : str) (schedule : list nat) (d : db)
    (ts : list thread) :
  int_ok fid = true -> text_ok uid = true ->
  feature_exists d fid -> ~ vote_exists d fid uid -> all_start fid uid ts ->
  let d' := fst (interleave d ts schedule) in
  let ts' := snd (interleave d ts schedule) in
  length (filter (vote_matches fid uid) (votes d'))
  = length (filter succeeded ts')
  /\ (length (filter succeeded ts') <= 1)%nat
  /\ (existsb returned ts' = true ->
      length (filter succeeded ts') = 1%nat /\ vote_exists d' fid uid)
  /\ (forall t, In t ts' -> returned t = true ->
                succeeded t = true \/ lost_to_duplicate t = true)
  /\ features d' = features d.
Proof.
  intros Hi Ht Hf Hv Hs d' ts'.
  destruct (@race_run fid uid d schedule d ts Hi Ht Hf (race_start Hv Hs))
    as [Hfe [_ [Hc [Hle Hret]]]].
  fold d' in Hfe, Hc, Hret. fold ts' in Hc, Hle, Hret.
  split; [exact Hc|]. split; [exact Hle|]. split; [|split].
  - intros E. apply existsb_exists in E. destruct E as [t [Hin Hr]].
    destruct (Hret t Hin Hr) as [_ Hex].
    pose proof (existsb_count _ _ Hex). split; [lia|].
    apply vote_exists_iff. exact Hex.
  - intros t Hin Hr. apply (Hret t Hin Hr).
  - exact Hfe.
Qed.

(** ** A vote racing with the deletion of its feature *)

(** X17. An [add_vote] call with a pair that can be bound, for an
    existing feature, that has run its two SELECTs when [Feature.delete] removes the feature, and runs its INSERT
    afterwards, succeeds: no connection enables foreign keys, so nothing
    rejects the row.  The state then holds a vote row that references no
    feature, and the vote count of the deleted id is 1. *)
Theorem vote_after_delete_is_orphaned (d : db) (now fid : Z) (uid : str) :
  int_ok fid = true -> text_ok uid = true ->
  feature_exists d fid -> ~ vote_exists d fid uid ->
  let d' := fst (vote_around_delete d (start now fid uid)) in
  let t' := snd (vote_around_delete d (start now fid uid)) in
  succeeded t' = true
  /\ thread_status t' = Some 201
  /\ ~ feature_exists d' fid
  /\ vote_exists d' fid uid
  /\ no_orphans d' = false
  /\ Vote.get_vote_count d' fid = 1%nat.
Proof.
  intros Hi Ht Hf Hv d' t'. subst d' t'.
  unfold vote_around_delete, start, add_vote_step.
  cbn [t_pc t_now t_feature_id t_user_id]. rewrite Hi. cbn [negb].
  destruct (Sql.select_feature d fid) eqn:Ef;
    [|apply select_feature_none in Ef; contradiction].
  cbn [t_pc t_now t_feature_id t_user_id]. rewrite Hi, Ht. cbn [negb andb].
  pose proof Hv as Ev. apply select_vote_none in Ev. rewrite Ev.
  cbn [t_pc t_now t_feature_id t_user_id].
  destruct (feature_delete_sweeps d fid) as [Hempty [Hnone Hgone]].
  destruct (Feature.delete d fid) as [d3 b] eqn:Ed. cbn [fst] in *.
  assert (Hv3 : ~ vote_exists d3 fid uid).
  { intros [v [Hin [E _]]]. exact (Hnone v Hin E). }
  rewrite (@insert_vote_done d3 now fid uid Hi Ht Hv3). cbn [fst snd].
  set (row := mk_vote_row (next_rowid (votes_seq d3) (map v_id (votes d3)))
                          fid uid now).
  split; [reflexivity|]. split; [reflexivity|]. split; [exact Hgone|].
  split; [|split].
  - exists row. split; [simpl; apply in_or_app; right; left; reflexivity|].
    split; reflexivity.
  - apply not_true_iff_false. intros Hno. rewrite no_orphans_iff in Hno.
    destruct (Hno row) as [g [Hin E]].
    + simpl. apply in_or_app. right. left. reflexivity.
    + apply Hgone. exists g. split; [exact Hin | exact E].
  - unfold Vote.get_vote_count. cbn [votes]. rewrite count_snoc.
    unfold Vote.get_votes_by_feature in Hempty. rewrite Hempty.
    unfold vote_of_feature, row. simpl. rewrite Z.eqb_refl. reflexivity.
Qed.

(** ** What the create endpoint stores *)

Lemma lstrip_head (s : str) (c : N) (t : str) :
  lstrip s = c :: t -> is_space c = false.
Proof.
  induction s as [|x s IH]; simpl; [discriminate|].
  destruct (is_space x) eqn:E; [exact IH|].
  intros H. injection H as <- _. exact E.
Qed.

Lemma lstrip_suffix (s : str) : exists pre, s = pre ++ lstrip s.
Proof.
  induction s as [|x s [pre IH]]; simpl; [exists []; reflexivity|].
  destruct (is_space x).
  - exists (x :: pre). simpl. rewrite <- IH. reflexivity.
  - exists []. reflexivity.
Qed.

Lemma lstrip_keeps_last (l : str) (c : N) :
  is_space c = false -> lstrip (l ++ [c]) <> [].
Proof.
  intros Hc. induction l as [|x l IH]; simpl.
  - rewrite Hc. discriminate.
  - destruct (is_space x); [exact IH | discriminate].
Qed.

Lemma strip_trimmed (s : str) : trimmed (strip s) = true.
Proof.
  unfold strip, rstrip.
  destruct (lstrip s) as [|c u] eqn:Eu; [reflexivity|].
  pose proof (lstrip_head _ Eu) as Hc.
  destruct (lstrip (rev (c :: u))) as [|x w] eqn:Ew.
  - exfalso. simpl in Ew. exact (@lstrip_keeps_last (rev u) c Hc Ew).
  - pose proof (lstrip_head _ Ew) as Hx.
    destruct (lstrip_suffix (rev (c :: u))) as [pre Hpre].
    rewrite Ew in Hpre.
    assert (Hcu : c :: u = rev (x :: w) ++ rev pre).
    { rewrite <- rev_app_distr, <- Hpre, rev_involutive. reflexivity. }
    destruct (rev (x :: w)) as [|y z] eqn:Er.
    + apply (f_equal (@length N)) in Er. rewrite length_rev in Er.
      discriminate.
    + simpl in Hcu. injection Hcu as <- _. unfold trimmed.
      rewrite Hc. simpl negb at 1. rewrite andb_true_l.
      rewrite <- Er. simpl rev. rewrite last_last. rewrite Hx. reflexivity.
Qed.

Lemma request_keeps_stored (d : db) (c : call) :
  is_request c = true ->
  (forall f, In f (features d) -> stored_ok f = true) ->
  forall f, In f (features (exec d c)) -> stored_ok f = true.
Proof.
  intros Hreq H. destruct c; simpl in Hreq; try discriminate; simpl.
  - destruct (raw_title_rule_dec (title_of data) (description_of data))
      as [Hr|Hr].
    + destruct (create_feature_rejects d now data Hr) as [e ->]. exact H.
    + rewrite (create_feature_accepts d now data Hr).
      destruct (text_ok _ && text_ok _); [|exact H]. simpl.
      intros f Hin. apply in_app_or in Hin. destruct Hin as [Hin|[<-|[]]];
        [apply H; exact Hin|].
      unfold stored_ok. simpl. rewrite !strip_trimmed.
      unfold raw_title_rule in Hr.
      pose proof (strip_length (title_of data)).
      pose proof (strip_length (description_of data)).
      assert (Ht : truthy (strip (title_of data)) = true).
      { destruct (truthy _) eqn:E; [reflexivity|].
        apply truthy_false in E. tauto. }
      rewrite Ht. simpl.
      apply andb_true_iff. split; apply Nat.leb_le; lia.
  - exact H.
  - rewrite get_feature_state. exact H.
  - destruct (delete_feature_state d feature_id) as [->| ->]; [exact H|].
    simpl. intros f Hin. apply filter_In in Hin. apply H. tauto.
  - rewrite vote_for_feature_state.
    assert (E : features (fst (Vote.add_vote d now fresh feature_id
                                 (Some (Routes.voter_id fresh data))))
                = features d).
    { destruct (add_vote_state d now fresh feature_id
                  (Some (Routes.voter_id fresh data))) as [->|[u [_ Ei]]];
        [reflexivity|].
      apply insert_vote_inv in Ei. destruct Ei as [_ [_ [_ ->]]].
      reflexivity. }
    rewrite E. exact H.
  - destruct (remove_vote_from_feature_state d feature_id data)
      as [->|[uid ->]]; [exact H|].
    rewrite remove_vote_state.
    destruct (int_ok feature_id && text_ok uid); exact H.
  - exact H.
  - rewrite get_feature_votes_state. exact H.
Qed.

(** X18. In every state produced through the HTTP interface alone, each
    stored feature has a title that is not empty, has no leading or
    trailing whitespace and is at most 200 code points long, and a
    description without leading or trailing whitespace of at most 1000
    code points: [create_feature] stores the trimmed values of a request it
    accepted, and no other request writes a feature. *)
Theorem served_features_are_valid (d : db) :
  served d ->
  forall f, In f (features d) ->
    stored_ok f = true
    /\ f_title f <> []
    /\ strip (f_title f) = f_title f
    /\ (length (f_title f) <= 200)%nat.
Proof.
  intros [cs [Hreq ->]].
  assert (Hall : forall f, In f (features (run empty_db cs)) ->
                           stored_ok f = true).
  { assert (H0 : forall f, In f (features empty_db) -> stored_ok f = true)
      by (intros f []).
    revert H0. generalize empty_db. induction cs as [|c cs IH];
      intros d0 H0; simpl; [exact H0|].
    simpl in Hreq. apply andb_true_iff in Hreq. destruct Hreq as [Hc Hcs].
    apply (IH Hcs). apply request_keeps_stored; assumption. }
  intros f Hin. specialize (Hall f Hin). split; [exact Hall|].
  unfold stored_ok in Hall. rewrite !andb_true_iff in Hall.
  destruct Hall as [[[Ht Htr] Hlen] _].
  split; [intros E; rewrite E in Ht; discriminate|].
  split; [|apply Nat.leb_le; exact Hlen].
  clear Hin Ht Hlen. revert Htr. generalize (f_title f). clear.
  intros s Htr. destruct s as [|c s]; [reflexivity|].
  unfold trimmed in Htr. apply andb_true_iff in Htr.
  destruct Htr as [Hc Hl]. apply negb_true_iff in Hc, Hl.
  unfold strip. replace (lstrip (c :: s)) with (c :: s)
    by (simpl; rewrite Hc; reflexivity).
  unfold rstrip.
  assert (Hrev : exists w, rev (c :: s) = last (c :: s) c :: w).
  { destruct (@exists_last _ (c :: s)) as [l' [a Ea]]; [discriminate|].
    rewrite Ea, last_last, rev_app_distr. simpl. eexists. reflexivity. }
  destruct Hrev as [w Hw]. rewrite Hw. cbn [lstrip]. rewrite Hl.
  rewrite <- Hw. apply rev_involutive.
Qed.

(** ** The result of [Feature.delete] *)

(** X19. [Feature.delete] returns [True] exactly when a feature had the
    id.  Called on its own for an id that no feature has, it returns
    [False] and still deletes the vote rows that reference the id; when no
    vote references the id either, the state is unchanged.  A second call
    for the same id returns [False] and changes nothing. *)
Theorem feature_delete_result (d : db) (fid : Z) :
  (snd (Feature.delete d fid) = true <-> feature_exists d fid)
  /\ votes (fst (Feature.delete d fid))
     = filter (fun v => negb (vote_of_feature fid v)) (votes d)
  /\ features (fst (Feature.delete d fid))
     = filter (fun f => negb (feature_has_id fid f)) (features d)
  /\ (~ feature_exists d fid -> Vote.get_vote_count d fid = 0%nat ->
      Feature.delete d fid = (d, false))
  /\ Feature.delete (fst (Feature.delete d fid)) fid
     = (fst (Feature.delete d fid), false).
Proof.
  assert (Habsent : forall d0, ~ feature_exists d0 fid ->
                      Vote.get_vote_count d0 fid = 0%nat ->
                      Feature.delete d0 fid = (d0, false)).
  { intros d0 Hf Hc.
    rewrite feature_exists_iff, not_true_iff_false in Hf.
    unfold Vote.get_vote_count in Hc. apply length_zero_iff_nil in Hc.
    assert (Hv : existsb (vote_of_feature fid) (votes d0) = false).
    { apply not_true_iff_false. intros E. apply existsb_exists in E.
      destruct E as [v [Hin Hm]].
      assert (Hx : In v (filter (vote_of_feature fid) (votes d0)))
        by (apply filter_In; split; assumption).
      rewrite Hc in Hx. destruct Hx. }
    unfold Feature.delete, Sql.delete_votes_of_feature, Sql.delete_feature_row.
    simpl. rewrite (filter_none _ _ Hf). simpl.
    rewrite (filter_all (fun f => negb (feature_has_id fid f)))
      by (rewrite existsb_negb_negb; exact Hf).
    rewrite (filter_all (fun v => negb (vote_of_feature fid v)))
      by (rewrite existsb_negb_negb; exact Hv).
    rewrite db_eta. reflexivity. }
  split; [|split; [reflexivity|split; [reflexivity|split; [exact (Habsent d)|]]]].
  - simpl. rewrite feature_exists_iff.
    destruct (existsb (feature_has_id fid) (features d)) eqn:E.
    + apply existsb_exists in E. destruct E as [f [Hin Hm]].
      assert (Hx : In f (filter (feature_has_id fid) (features d)))
        by (apply filter_In; split; assumption).
      destruct (filter (feature_has_id fid) (features d)); [destruct Hx|].
      simpl. tauto.
    + rewrite (filter_none _ _ E). simpl. split; discriminate.
  - destruct (feature_delete_sweeps d fid) as [Hempty [_ Hgone]].
    apply Habsent; [exact Hgone|].
    unfold Vote.get_vote_count. unfold Vote.get_votes_by_feature in Hempty.
    rewrite Hempty. reflexivity.
Qed.

(** ** A vote moves only the feature it is for *)

Section FilterSorted.
Variable A : Type.
Variable le : A -> A -> bool.
Variable keep : A -> bool.
Hypothesis le_total : forall x y, le x y = false -> le y x = true.
Hypothesis le_trans :
  forall x y z, le x y = true -> le y z = true -> le x z = true.

Lemma insert_by_front (x : A) (l : list A) :
  (forall z, In z l -> le x z = true) -> insert_by le x l = x :: l.
Proof.
  destruct l as [|y l]; simpl; [reflexivity|].
  intros H. rewrite (H y (or_introl eq_refl)). reflexivity.
Qed.

Lemma filter_insert_by (x : A) (l : list A) :
  StronglySorted (fun a b => le a b = true) l ->
  filter keep (insert_by le x l)
  = if keep x then insert_by le x (filter keep l) else filter keep l.
Proof.
  induction 1 as [|y l Hs IH Hall]; simpl.
  - destruct (keep x); reflexivity.
  - destruct (le x y) eqn:E; simpl.
    + destruct (keep x); [|reflexivity].
      symmetry. apply insert_by_front.
      intros z Hz.
      assert (Hz' : In z (y :: l)).
      { destruct (keep y); [destruct Hz as [<-|Hz]; [left; reflexivity|]|];
          right; apply filter_In in Hz; tauto. }
      destruct Hz' as [<-|Hz']; [exact E|].
      rewrite Forall_forall in Hall. eapply le_trans; [exact E|].
      apply Hall. exact Hz'.
    + rewrite IH. destruct (keep y), (keep x); simpl; rewrite ?E; reflexivity.
Qed.

Lemma filter_order_by (l : list A) :
  filter keep (order_by le l) = order_by le (filter keep l).
Proof.
  induction l as [|x l IH]; simpl; [reflexivity|].
  rewrite filter_insert_by
    by (apply (@order_by_sorted _ le le_total le_trans)).
  rewrite IH. destruct (keep x); reflexivity.
Qed.

End FilterSorted.

Lemma other_rows_same (fid : Z) (d d' : db) :
  features d' = features d ->
  (forall k, k <> fid ->
     Vote.get_vote_count d' k = Vote.get_vote_count d k) ->
  filter (fun r => negb (f_id (rk_feature r) =? fid))
         (Feature.get_all_with_votes d')
  = filter (fun r => negb (f_id (rk_feature r) =? fid))
           (Feature.get_all_with_votes d).
Proof.
  intros Hf Hc. unfold Feature.get_all_with_votes.
  rewrite !(@filter_order_by _ rank_leb _ rank_leb_total rank_leb_trans).
  f_equal. unfold Feature.with_votes. rewrite Hf. clear Hf.
  induction (features d) as [|f l IH]; simpl; [reflexivity|].
  destruct (f_id f =? fid) eqn:E; simpl; [exact IH|].
  rewrite IH. f_equal. f_equal. apply Z.eqb_neq in E. apply (Hc _ E).
Qed.

Lemma add_vote_other_counts (d : db) (now : Z) (fresh : str) (fid : Z)
    (uid : option str) (k : Z) :
  k <> fid ->
  Vote.get_vote_count (fst (Vote.add_vote d now fresh fid uid)) k
  = Vote.get_vote_count d k.
Proof.
  intros Hne.
  destruct (add_vote_state d now fresh fid uid) as [->|[u [_ Ei]]];
    [reflexivity|].
  apply insert_vote_inv in Ei. destruct Ei as [_ [_ [_ ->]]].
  unfold Vote.get_vote_count. simpl. rewrite count_snoc.
  unfold vote_of_feature at 2. simpl.
  destruct (fid =? k) eqn:E; [apply Z.eqb_eq in E; congruence | lia].
Qed.

Lemma add_vote_features (d : db) (now : Z) (fresh : str) (fid : Z)
    (uid : option str) :
  features (fst (Vote.add_vote d now fresh fid uid)) = features d.
Proof.
  destruct (add_vote_state d now fresh fid uid) as [->|[u [_ Ei]]];
    [reflexivity|].
  apply insert_vote_inv in Ei. destruct Ei as [_ [_ [_ ->]]]. reflexivity.
Qed.

Lemma remove_vote_other_counts (d : db) (fid : Z) (uid : str) (k : Z) :
  k <> fid ->
  Vote.get_vote_count (fst (Vote.remove_vote d fid uid)) k
  = Vote.get_vote_count d k.
Proof.
  intros Hne. rewrite remove_vote_state.
  destruct (int_ok fid && text_ok uid); [|reflexivity].
  unfold Vote.get_vote_count. simpl.
  f_equal. apply filter_filter_implied.
  intros v Hv. apply negb_true_iff, not_true_iff_false. intros Hm.
  apply vote_matches_feature in Hm. unfold vote_of_feature in *.
  apply Z.eqb_eq in Hv. apply Z.eqb_eq in Hm. congruence.
Qed.

(** X20. Casting or retracting a vote moves at most the feature it is
    for: with that feature left out, the listing after the request shows
    the same rows, with the same vote counts, in the same order as
    before. *)
Theorem vote_moves_only_its_feature (d : db) (now : Z) (fresh : str)
    (fid : Z) (data : option vote_payload) :
  let others := filter (fun r => negb (f_id (rk_feature r) =? fid)) in
  others (Feature.get_all_with_votes
            (fst (Routes.vote_for_feature d now fresh fid data)))
  = others (Feature.get_all_with_votes d)
  /\ others (Feature.get_all_with_votes
               (fst (Routes.remove_vote_from_feature d fid data)))
     = others (Feature.get_all_with_votes d).
Proof.
  intros others. subst others. split.
  - rewrite vote_for_feature_state. apply other_rows_same.
    + apply add_vote_features.
    + intros k Hk. apply add_vote_other_counts. exact Hk.
  - destruct (remove_vote_from_feature_state d fid data) as [->|[uid ->]];
      [reflexivity|].
    apply other_rows_same.
    + rewrite remove_vote_state.
      destruct (int_ok fid && text_ok uid); reflexivity.
    + intros k Hk. apply remove_vote_other_counts. exact Hk.
Qed.

(* ================================================================== *)
(** * The further properties at concrete states *)

Lemma two_features_schema_ok : schema_ok two_features = true.
Proof. vm_compute. reflexivity. Defined.

Lemma one_feature_no_vote_u1 : ~ vote_exists one_feature 1 (lit "u1").
Proof. apply select_vote_none. vm_compute. reflexivity. Defined.

Lemma one_feature_lacks_9 : ~ feature_exists one_feature 9.
Proof. apply select_feature_none. vm_compute. reflexivity. Defined.

(** A feature saved into [two_features] gets the id 3 and is fetched
    under it. *)
Lemma save_new_then_get_witness :
  let self := mk_feature_obj None (Some (lit "Export")) None None None in
  text_ok (lit "Export") = true
  /\ Feature.get_by_id (fst (fst (Feature.save two_features 105 self))) 3
     = Done (Some (mk_feature_obj (Some 3) (Some (lit "Export")) None
                                  (Some 105) (Some 105))).
Proof.
  intros self.
  assert (Ht : text_ok (lit "Export") = true) by (vm_compute; reflexivity).
  split; [exact Ht|].
  exact (proj1 (proj2 (proj2
           (proj1 (save_new_then_get two_features 105 (lit "Export") None
                                     None None)
                  Ht eq_refl)))
           eq_refl).
Defined.

(** Renaming feature 1 of [two_features], created at 100, at 105. *)
Lemma save_update_then_get_witness :
  let self := mk_feature_obj (Some 1) (Some (lit "Night Mode")) None None
                             None in
  text_ok (lit "Night Mode") = true
  /\ int_ok 1 = true
  /\ feature_exists two_features 1
  /\ Feature.get_by_id (fst (fst (Feature.save two_features 105 self))) 1
     = Done (Some (mk_feature_obj (Some 1) (Some (lit "Night Mode")) None
                                  (Some 100) (Some 105))).
Proof.
  intros self.
  assert (Ht : text_ok (lit "Night Mode") = true)
    by (vm_compute; reflexivity).
  assert (Hi : int_ok 1 = true) by (vm_compute; reflexivity).
  split; [exact Ht|]. split; [exact Hi|].
  split; [apply feature_exists_iff; vm_compute; reflexivity|].
  exact (proj1 (proj2
           (proj1 (save_update_then_get two_features 105 1 (lit "Night Mode")
                                        None None None)
                  Ht eq_refl Hi))).
Defined.

(** Renaming feature 1 of [two_features]. *)
Lemma save_update_keeps_ranking_witness :
  map (fun r => (f_id (rk_feature r), rk_vote_count r))
      (Feature.get_all_with_votes
         (fst (fst (Feature.save two_features 105
                      (mk_feature_obj (Some 1) (Some (lit "Night Mode"))
                                      None None None)))))
  = map (fun r => (f_id (rk_feature r), rk_vote_count r))
        (Feature.get_all_with_votes two_features).
Proof.
  exact (proj1 (@save_update_keeps_ranking two_features 105 1
                  (mk_feature_obj (Some 1) (Some (lit "Night Mode"))
                                  None None None)
                  eq_refl)).
Defined.

(** Feature 2 is deleted; a feature created afterwards does not get id 2. *)
Lemma rowids_never_reused_witness :
  feature_exists two_features 2
  /\ Sql.select_feature (run two_features [DeleteFeature 2]) 2 = None
  /\ ~ feature_exists
         (run (run two_features [DeleteFeature 2])
              [CreateFeature 110 (new_feature "Export")]) 2.
Proof.
  assert (Hgone : ~ feature_exists (run two_features [DeleteFeature 2]) 2)
    by (apply select_feature_none; vm_compute; reflexivity).
  split; [exact two_features_has_2|]. split; [vm_compute; reflexivity|].
  exact (proj1 (proj2 (proj2
           (rowids_never_reused two_features [DeleteFeature 2]
              [CreateFeature 110 (new_feature "Export")])))
           two_features_reachable 2 two_features_has_2 Hgone).
Defined.

(** The vote ids of the state the race with a delete leaves, and of
    [two_features]. *)
Lemma rowids_grow_with_insertion_witness :
  reachable (fst delete_race)
  /\ StronglySorted Z.lt (map v_id (votes (fst delete_race)))
  /\ reachable two_features
  /\ StronglySorted Z.lt (map v_id (votes two_features)).
Proof.
  assert (Hr : reachable (fst delete_race))
    by (exists (snd delete_race); exact delete_race_running).
  split; [exact Hr|]. split.
  - exact (proj1 (proj2 (rowids_grow_with_insertion 1 Hr))).
  - split; [exact two_features_reachable|].
    exact (proj1 (proj2
             (rowids_grow_with_insertion 2 two_features_reachable))).
Defined.

Lemma schema_constraints_hold_witness :
  reachable (fst delete_race)
  /\ unique_pairs (votes (fst delete_race)) = true
  /\ sequential two_features
  /\ schema_ok two_features = true.
Proof.
  assert (Hr : reachable (fst delete_race))
    by (exists (snd delete_race); exact delete_race_running).
  assert (Hs : sequential two_features)
    by (unfold two_features; eexists; reflexivity).
  split; [exact Hr|]. split.
  - exact (proj1 (proj2 (proj2
             (proj1 (schema_constraints_hold (fst delete_race)) Hr)))).
  - split; [exact Hs|].
    exact (proj1 (proj2 (schema_constraints_hold two_features) Hs)).
Defined.

(** The first vote on [one_feature]. *)
Lemma has_voted_tracks_votes_witness :
  res_success (snd (Vote.add_vote one_feature 101 some_uuid 1
                                  (Some (lit "u1")))) = true
  /\ Vote.has_voted one_feature 1 (lit "u1") = Done false
  /\ Vote.has_voted
       (fst (Vote.add_vote one_feature 101 some_uuid 1 (Some (lit "u1"))))
       1 (lit "u1") = Done true.
Proof.
  assert (H : res_success (snd (Vote.add_vote one_feature 101 some_uuid 1
                                              (Some (lit "u1")))) = true)
    by (vm_compute; reflexivity).
  split; [exact H|].
  exact (proj1 (proj2
           (has_voted_tracks_votes one_feature 101 some_uuid 1 (lit "u1")))
           H).
Defined.

Lemma user_votes_spec_witness :
  reachable two_features
  /\ NoDup (Vote.get_user_votes two_features (lit "u1"))
  /\ sequential two_features
  /\ (forall fid, In fid (Vote.get_user_votes two_features (lit "u1")) ->
                  feature_exists two_features fid).
Proof.
  assert (Hs : sequential two_features)
    by (unfold two_features; eexists; reflexivity).
  split; [exact two_features_reachable|]. split.
  - exact (proj1 (proj2 (proj2 (proj2
             (user_votes_spec two_features (lit "u1")))))
             two_features_reachable).
  - split; [exact Hs|].
    exact (proj1 (proj2 (proj2 (proj2 (proj2
             (user_votes_spec two_features (lit "u1"))))))
             Hs).
Defined.

(** Fetching feature 999, and the id 2^63, from [two_features]. *)
Lemma get_feature_matches_listing_witness :
  distinct (map f_id (features two_features)) = true
  /\ Sql.select_feature two_features 999 = None
  /\ Routes.get_feature two_features 999 =
     (two_features, (Error msg_feature_not_found, 404))
  /\ Routes.get_feature two_features 9223372036854775808 =
     (two_features, (Error msg_internal_error, 500)).
Proof.
  assert (Hd : distinct (map f_id (features two_features)) = true)
    by (vm_compute; reflexivity).
  assert (Hn : Sql.select_feature two_features 999 = None)
    by (vm_compute; reflexivity).
  split; [exact Hd|]. split; [exact Hn|]. split.
  - exact (proj1 (proj2 (get_feature_matches_listing two_features Hd)) 999
             eq_refl (proj1 (select_feature_none two_features 999) Hn)).
  - exact (proj1 (proj2 (proj2 (get_feature_matches_listing two_features Hd)))
             9223372036854775808 eq_refl).
Defined.

(** Deleting feature 2 of [two_features], which has two of the three
    votes. *)
Lemma delete_existing_feature_witness :
  int_ok 2 = true
  /\ feature_exists two_features 2
  /\ Routes.delete_feature two_features 2 =
     (fst (Feature.delete two_features 2), (Message msg_feature_deleted, 200))
  /\ length (votes (fst (Feature.delete two_features 2))) = 1%nat.
Proof.
  split; [vm_compute; reflexivity|].
  split; [exact two_features_has_2|].
  split; [|vm_compute; reflexivity].
  exact (proj1 (@delete_existing_feature two_features 2 eq_refl
                  two_features_has_2)).
Defined.

Lemma stats_spec_witness :
  schema_ok two_features = true
  /\ total_votes (get_database_stats two_features) = 3%nat
  /\ total_votes (get_database_stats two_features)
     = list_sum (map rk_vote_count (Feature.get_all_with_votes two_features)).
Proof.
  split; [exact two_features_schema_ok|]. split; [vm_compute; reflexivity|].
  exact (proj1 (proj2 (proj2 (proj2 (proj2 (stats_spec two_features)))))
           two_features_schema_ok).
Defined.

(** A vote for feature 9, which does not exist, and one by a user whose
    id is a lone surrogate. *)
Lemma vote_endpoint_status_witness :
  snd (snd (Routes.vote_for_feature one_feature 101 some_uuid 9
                                    (by_user "u1"))) = 404
  /\ fst (Routes.vote_for_feature one_feature 101 some_uuid 9 (by_user "u1"))
     = one_feature
  /\ snd (snd (Routes.vote_for_feature
                 one_feature 101 some_uuid 1
                 (Some (mk_vote_payload (Some [55296%N]))))) = 400.
Proof.
  split; [vm_compute; reflexivity|]. split.
  - apply (proj2 (proj2 (proj2 (proj2 (proj2 (proj2
             (vote_endpoint_status one_feature 101 some_uuid 9
                                   (by_user "u1")))))))).
    vm_compute. intros H. discriminate H.
  - apply (proj2 (proj1 (proj2 (proj2 (proj2
             (vote_endpoint_status
                one_feature 101 some_uuid 1
                (Some (mk_vote_payload (Some [55296%N]))))))))).
    right. split; [exact one_feature_has_1 | vm_compute; reflexivity].
Defined.

Lemma retract_endpoint_status_witness :
  storable two_features = true
  /\ lit "u1" <> []
  /\ vote_exists two_features 2 (lit "u1")
  /\ snd (snd (Routes.remove_vote_from_feature two_features 2 (by_user "u1")))
     = 200.
Proof.
  assert (Hs : storable two_features = true) by (vm_compute; reflexivity).
  assert (Hne : lit "u1" <> []) by (vm_compute; intros H; discriminate H).
  split; [exact Hs|]. split; [exact Hne|].
  split; [exact two_features_vote_2_u1|].
  exact (proj2 (proj1 (proj2 (proj2 (proj2 (proj2
           (retract_endpoint_status two_features 2)))) Hs (lit "u1") Hne))
           two_features_vote_2_u1).
Defined.

(** The two pages of one row of [two_features]. *)
Lemma pages_tile_ranking_witness :
  page two_features 0 1 ++ page two_features (0 + 1) 1
  = page two_features 0 (1 + 1)
  /\ map (fun r => f_id (rk_feature r)) (page two_features 0 (1 + 1)) = [2; 1].
Proof.
  split; [|vm_compute; reflexivity].
  refine (proj1 (proj2 (proj2 (proj2
            (@pages_tile_ranking two_features 0 1 1 _ _ _))))); lia.
Defined.

(** Three users vote for the feature of [one_feature]. *)
Lemma votes_of_distinct_users_witness :
  let us := [lit "u1"; lit "u2"; lit "u3"] in
  NoDup us
  /\ Vote.get_vote_count (cast_all one_feature 101 some_uuid 1 us) 1
     = (Vote.get_vote_count one_feature 1 + length us)%nat
  /\ Vote.get_vote_count (cast_all one_feature 101 some_uuid 1 us) 1 = 3%nat.
Proof.
  intros us.
  assert (Hnd : NoDup us).
  { unfold us. repeat constructor; vm_compute; intuition discriminate. }
  assert (Hus : forall u, In u us ->
                          u <> [] /\ text_ok u = true
                          /\ ~ vote_exists one_feature 1 u).
  { intros u [<-|[<-|[<-|[]]]]; (split;
      [vm_compute; intros H; discriminate H
      | split; [vm_compute; reflexivity
               | apply select_vote_none; vm_compute; reflexivity]]). }
  split; [exact Hnd|]. split; [|vm_compute; reflexivity].
  exact (proj1 (@votes_of_distinct_users one_feature 101 some_uuid 1 us
                  eq_refl one_feature_has_1 Hnd Hus)).
Defined.

(** The two alternating calls of [same_pair_calls]. *)
Lemma one_winner_witness :
  all_start 1 (lit "u1") same_pair_calls
  /\ length (filter succeeded
               (snd (interleave one_feature same_pair_calls
                                [0; 1; 0; 1; 0; 1]%nat))) = 1%nat.
Proof.
  assert (Hs : all_start 1 (lit "u1") same_pair_calls).
  { intros t [<-|[<-|[]]]; repeat split. }
  split; [exact Hs|].
  refine (proj1 (proj1 (proj2 (proj2
            (@one_winner 1 (lit "u1") [0; 1; 0; 1; 0; 1]%nat one_feature
               same_pair_calls eq_refl eq_refl one_feature_has_1
               one_feature_no_vote_u1 Hs)))
            _)).
  vm_compute. reflexivity.
Defined.

Lemma vote_after_delete_is_orphaned_witness :
  feature_exists one_feature 1
  /\ no_orphans (fst (vote_around_delete one_feature (start 101 1 (lit "u1"))))
     = false.
Proof.
  split; [exact one_feature_has_1|].
  exact (proj1 (proj2 (proj2 (proj2 (proj2
           (@vote_after_delete_is_orphaned one_feature 101 1 (lit "u1")
              eq_refl eq_refl one_feature_has_1 one_feature_no_vote_u1)))))).
Defined.

Lemma served_features_are_valid_witness :
  served one_feature
  /\ forall f, In f (features one_feature) ->
       stored_ok f = true /\ f_title f <> []
       /\ strip (f_title f) = f_title f /\ (length (f_title f) <= 200)%nat.
Proof.
  assert (Hs : served one_feature).
  { unfold one_feature. eexists. split; [|reflexivity]. reflexivity. }
  split; [exact Hs|].
  exact (served_features_are_valid Hs).
Defined.

Lemma feature_delete_result_witness :
  Vote.get_vote_count one_feature 9 = 0%nat
  /\ Feature.delete one_feature 9 = (one_feature, false).
Proof.
  assert (Hc : Vote.get_vote_count one_feature 9 = 0%nat)
    by (vm_compute; reflexivity).
  split; [exact Hc|].
  exact (proj1 (proj2 (proj2 (proj2 (feature_delete_result one_feature 9))))
           one_feature_lacks_9 Hc).
Defined.
